(** * m3ssag1n8: the post view, the subscription model and the stream listener

    A shallow embedding of the TypeScript client:
    - [src/model/model.ts]: the JSON schemas of a stream update, [subscribe],
      [unsubscribe] and the [onmessage] handler;
    - [src/component/postComponent.ts]: the [PostItem] web component;
    - [src/view/postView.ts]: the [PostView] class with its two path maps;
    - [src/main.ts]: the [updatePostEvent] and [displayChannelEvent] listeners.

    Objects with identity ([PostItem], [AbortController]) live in a store and
    are named by their index.  A JavaScript [Map] is an association list in
    insertion order.  Exceptions are explicit results that carry the state
    reached when they were thrown. *)

From Stdlib Require Import String Ascii List ZArith Bool Lia Arith.
From Stdlib Require Import Sorting.Sorted Permutation.
Import ListNotations.
Open Scope string_scope.
Open Scope list_scope.
Open Scope Z_scope.
Set Warnings "-register-all".

(** ** JavaScript primitives *)

Module Js.

(** Code unit of a character. *)
Definition code (c : ascii) : Z := Z.of_nat (nat_of_ascii c).

Definition isDigit (c : ascii) : bool := (48 <=? code c) && (code c <=? 57).

(** Value of a hexadecimal digit, if it is one. *)
Definition hexValue (c : ascii) : option Z :=
  let n := code c in
  if (48 <=? n) && (n <=? 57) then Some (n - 48)
  else if (97 <=? n) && (n <=? 102) then Some (n - 87)
  else if (65 <=? n) && (n <=? 70) then Some (n - 55)
  else None.

Definition decValue (c : ascii) : option Z :=
  if isDigit c then Some (code c - 48) else None.

(** [StrWhiteSpaceChar], restricted to the one-byte characters: TAB, LF, VT,
    FF, CR, SP and NBSP. *)
Definition isWhiteSpace (c : ascii) : bool :=
  let n := code c in
  ((9 <=? n) && (n <=? 13)) || (n =? 32) || (n =? 160).

Fixpoint trimStart (s : string) : string :=
  match s with
  | String c s' => if isWhiteSpace c then trimStart s' else s
  | EmptyString => s
  end.

(** The longest prefix of radix digits, read left to right; [None] when the
    prefix is empty. *)
Fixpoint readDigits (value : ascii -> option Z) (radix : Z) (s : string)
    (acc : option Z) : option Z :=
  match s with
  | String c s' =>
      match value c with
      | Some d =>
          readDigits value radix s'
            (Some (match acc with Some a => radix * a + d | None => d end))
      | None => acc
      end
  | EmptyString => acc
  end.

Definition startsWith (c : ascii) (s : string) : bool :=
  match s with
  | String c' _ => Ascii.eqb c c'
  | EmptyString => false
  end.

Definition tail (s : string) : string :=
  match s with
  | String _ r => r
  | EmptyString => EmptyString
  end.

(** [parseInt(s)] with no radix argument; [None] is [NaN].  Leading white
    space is skipped, a sign is read, the prefix [0x] or [0X] selects radix
    16, and the longest prefix of digits is the value. *)
Definition parseInt (s : string) : option Z :=
  let s1 := trimStart s in
  let sign := if startsWith "-" s1 then -1 else 1 in
  let s2 := if startsWith "-" s1 || startsWith "+" s1 then tail s1 else s1 in
  let hex :=
    startsWith "0" s2
    && (startsWith "x" (tail s2) || startsWith "X" (tail s2)) in
  let magnitude :=
    if hex then readDigits hexValue 16 (tail (tail s2)) None
    else readDigits decValue 10 s2 None in
  option_map (Z.mul sign) magnitude.

Definition isNaN (n : option Z) : bool :=
  match n with Some _ => false | None => true end.

Definition digitChar (d : Z) : ascii := ascii_of_nat (Z.to_nat (48 + d)).

(** Decimal digits of a non-negative integer, most significant first,
    prepended to [acc].  [fuel] bounds the number of digits. *)
Fixpoint digitsOf (fuel : nat) (n : Z) (acc : string) : string :=
  let acc' := String (digitChar (n mod 10)) acc in
  match fuel with
  | O => acc'
  | S f => if n <? 10 then acc' else digitsOf f (n / 10) acc'
  end.

(** The decimal numeral of an integer. *)
Definition decimal (z : Z) : string :=
  let a := Z.abs z in
  let ds := digitsOf (Z.to_nat (Z.log2 a)) a "" in
  if z <? 0 then String "-" ds else ds.

(** Strings made of decimal digits only. *)
Fixpoint allDigits (s : string) : bool :=
  match s with
  | String c s' => isDigit c && allDigits s'
  | EmptyString => true
  end.

(** *** Number values

    The page computes with Number values that are [NaN], an infinity, or a
    double that is an integer; such a double is given by its value. *)
Inductive number : Type :=
| NaN
| Infinity (negative : bool)
| Num (z : Z).

(** [Number.MAX_SAFE_INTEGER] *)
Definition maxSafeInteger : Z := 2 ^ 53 - 1.

(** The double nearest to the integer [a >= 0], ties going to the even
    significand of 53 bits; integers up to [2 ^ 53] are doubles.  The value
    [2 ^ 1024] stands for an overflow. *)
Definition nearestDouble (a : Z) : Z :=
  if a <=? 2 ^ 53 then a
  else
    let e := Z.log2 a - 52 in
    let q := a / 2 ^ e in
    let r := a mod 2 ^ e in
    let half := 2 ^ (e - 1) in
    if (half <? r) || ((r =? half) && Z.odd q)
    then (q + 1) * 2 ^ e
    else q * 2 ^ e.

(** The Number value of a mathematical integer. *)
Definition toNumber (z : Z) : number :=
  let v := nearestDouble (Z.abs z) in
  if 2 ^ 1024 <=? v then Infinity (z <? 0) else Num (Z.sgn z * v).

(** The Number that [parseInt(s)] returns: [parseInt] above gives the
    integer that is read, which is then rounded.  (The language lets an
    implementation replace the digits after the 20th by zeros before it
    rounds; the engines round the integer that is written.) *)
Definition parseIntNumber (s : string) : number :=
  match parseInt s with
  | Some z => toNumber z
  | None => NaN
  end.

(** [x + d] for an integer [d]; [x++] and [x--] are [x + 1] and [x - 1]. *)
Definition addInteger (x : number) (d : Z) : number :=
  match x with
  | Num z => toNumber (z + d)
  | _ => x
  end.

(** [x === 0] *)
Definition isZero (x : number) : bool :=
  match x with
  | Num 0 => true
  | _ => false
  end.

(** The multiple of [10 ^ j] that is nearest to the double [a] among those
    that round to [a]; of two that are equally near, the one with the even
    multiplier. *)
Definition roundTo (a j : Z) : option Z :=
  let p := 10 ^ j in
  let lo := a / p * p in
  let hi := lo + p in
  let okLo := nearestDouble lo =? a in
  let okHi := nearestDouble hi =? a in
  if okLo && okHi then
    Some (if a - lo <? hi - a then lo
          else if hi - a <? a - lo then hi
          else if Z.even (lo / p) then lo else hi)
  else if okLo then Some lo
  else if okHi then Some hi
  else None.

(** The integer with the fewest significant digits that rounds to the double
    [a]: one digit is tried first, then two, and so on. *)
Fixpoint shortestFrom (j : nat) (a : Z) : Z :=
  match roundTo a (Z.of_nat j) with
  | Some v => v
  | None =>
      match j with
      | O => a
      | S j' => shortestFrom j' a
      end
  end.

Definition shortest (a : Z) : Z :=
  shortestFrom (String.length (decimal a) - 1) a.

(** A numeral without its trailing zeros. *)
Fixpoint trimZeros (s : string) : string :=
  match s with
  | String c s' =>
      let t := trimZeros s' in
      if String.eqb t "" && Ascii.eqb c "0" then "" else String c t
  | EmptyString => EmptyString
  end.

(** The digits of [v > 0] as [toString] lays them out: the numeral itself
    up to 21 digits, the exponent form beyond. *)
Definition layOut (v : Z) : string :=
  let ds := decimal v in
  let n := String.length ds in
  if (n <=? 21)%nat then ds
  else
    let mantissa :=
      match trimZeros ds with
      | String c EmptyString => String c EmptyString
      | String c rest => String c (String "." rest)
      | EmptyString => EmptyString
      end in
    String.append mantissa
      (String.append "e+" (decimal (Z.of_nat n - 1))).

(** [Number.prototype.toString()] on the double that is the integer [z]: an
    integer up to [2 ^ 53] in magnitude is its own shortest numeral. *)
Definition toString (z : Z) : string :=
  let a := Z.abs z in
  let body := if a <=? 2 ^ 53 then decimal a else layOut (shortest a) in
  if z <? 0 then String "-" body else body.

Definition numberToString (x : number) : string :=
  match x with
  | NaN => "NaN"
  | Infinity negative => if negative then "-Infinity" else "Infinity"
  | Num z => toString z
  end.

(** [s.charAt(i)]: the empty string when [i] is out of range. *)
Definition charAt (s : string) (i : Z) : string :=
  if i <? 0 then ""
  else match String.get (Z.to_nat i) s with
       | Some c => String c ""
       | None => ""
       end.

Definition strlen (s : string) : Z := Z.of_nat (String.length s).

(** [s.substring(start, end)]: negative indices count as 0, indices beyond the
    length count as the length, and the two are swapped when out of order. *)
Definition substring (s : string) (i j : Z) : string :=
  let clamp k := Z.max 0 (Z.min k (strlen s)) in
  let lo := Z.min (clamp i) (clamp j) in
  let hi := Z.max (clamp i) (clamp j) in
  String.substring (Z.to_nat lo) (Z.to_nat (hi - lo)) s.

(** [s.endsWith(suffix)]. *)
Definition endsWith (s suffix : string) : bool :=
  let n := String.length s in
  let m := String.length suffix in
  (m <=? n)%nat && String.eqb (String.substring (n - m) m s) suffix.

(** [Array.prototype.sort] with the comparator [(a, b) => key(a) - key(b)] on
    integer keys: ascending and stable. *)
Section Sort.
Context {A : Type} (key : A -> Z).

Fixpoint insertSorted (x : A) (l : list A) : list A :=
  match l with
  | [] => [x]
  | y :: l' => if key x <=? key y then x :: l else y :: insertSorted x l'
  end.

(** Elements are inserted from the last to the first, each one in front of
    the elements with an equal key, which came after it in the array. *)
Definition sortBy (l : list A) : list A :=
  fold_right insertSorted [] l.
End Sort.

(** [array.at(i)] for a non-negative index. *)
Definition at_ {A : Type} (l : list A) (i : nat) : option A := nth_error l i.

(** [array.at(array.length - 1)]. *)
Definition lastAt {A : Type} (l : list A) : option A :=
  match l with [] => None | _ => nth_error l (length l - 1) end.

(** [array.findIndex(p)]: [-1] when no element satisfies [p]. *)
Fixpoint findIndexFrom {A : Type} (p : A -> bool) (l : list A) (i : Z) : Z :=
  match l with
  | [] => -1
  | x :: l' => if p x then i else findIndexFrom p l' (i + 1)
  end.

Definition findIndex {A : Type} (p : A -> bool) (l : list A) : Z :=
  findIndexFrom p l 0.

(** A [Map<string, V>]: entries in insertion order.  [set] on an existing key
    keeps the position of the entry; [delete] removes it. *)
Section JsMap.
Context {V : Type}.

Definition JsMap := list (string * V).

Fixpoint get (m : list (string * V)) (k : string) : option V :=
  match m with
  | [] => None
  | (k', v) :: m' => if String.eqb k k' then Some v else get m' k
  end.

Fixpoint set (m : list (string * V)) (k : string) (v : V)
    : list (string * V) :=
  match m with
  | [] => [(k, v)]
  | (k', v') :: m' =>
      if String.eqb k k' then (k', v) :: m' else (k', v') :: set m' k v
  end.

Fixpoint delete (m : list (string * V)) (k : string) : list (string * V) :=
  match m with
  | [] => []
  | (k', v') :: m' =>
      if String.eqb k k' then m' else (k', v') :: delete m' k
  end.

Definition has (m : list (string * V)) (k : string) : bool :=
  match get m k with Some _ => true | None => false end.

Definition values (m : list (string * V)) : list V := map snd m.
Definition keys (m : list (string * V)) : list string := map fst m.
End JsMap.
Arguments JsMap : clear implicits.

End Js.

(** ** JSON values and the schemas of [model.ts] *)

Module Json.

(** A parsed JSON value.  A number is the fraction [num / den]; an object
    holds its own properties in order. *)
Inductive json : Type :=
| JNull
| JBool (b : bool)
| JNum (num : Z) (den : positive)
| JStr (s : string)
| JArr (items : list json)
| JObj (props : list (string * json)).

(** [obj[key]]; [None] is [undefined]. *)
Definition prop (j : json) (key : string) : option json :=
  match j with
  | JObj props => Js.get props key
  | _ => None
  end.

Definition isString (j : json) : bool :=
  match j with JStr _ => true | _ => false end.

(** Ajv's ["integer"]: a number without a fractional part. *)
Definition isInteger (j : json) : bool :=
  match j with
  | JNum n d => (n mod Z.pos d =? 0)
  | _ => false
  end.

Definition isObject (j : json) : bool :=
  match j with JObj _ => true | _ => false end.

(** [required: [...]] *)
Definition required (names : list string) (j : json) : bool :=
  forallb (fun k => match prop j k with Some _ => true | None => false end)
    names.

(** [additionalProperties: false] next to [properties] with the given names. *)
Definition noAdditional (names : list string) (j : json) : bool :=
  match j with
  | JObj props =>
      forallb (fun kv => existsb (String.eqb (fst kv)) names) props
  | _ => true
  end.

(** A property that is present must satisfy its schema. *)
Definition property (key : string) (schema : json -> bool) (j : json) : bool :=
  match prop j key with
  | Some v => schema v
  | None => true
  end.

Definition asString (j : json) : string :=
  match j with JStr s => s | _ => "" end.

Fixpoint uniqueStrings (l : list string) : bool :=
  match l with
  | [] => true
  | s :: l' => negb (existsb (String.eqb s) l') && uniqueStrings l'
  end.

(** [{ type: "array", items: { type: "string" } }] *)
Definition isStringArray (j : json) : bool :=
  match j with
  | JArr items => forallb isString items
  | _ => false
  end.

(** [#/definitions/reactionArray]: an array of pairwise distinct strings. *)
Definition isReactionArray (j : json) : bool :=
  match j with
  | JArr items => forallb isString items && uniqueStrings (map asString items)
  | _ => false
  end.

(** [ReactionsSchema].  The keywords [items] and [uniqueItems] of the schema
    constrain arrays only and say nothing about an object. *)
Definition isReactions (j : json) : bool :=
  isObject j
  && property ":smile:" isReactionArray j
  && property ":like:" isReactionArray j
  && property ":frown:" isReactionArray j
  && property ":celebrate:" isReactionArray j.

(** [MetadataSchema] *)
Definition isMetadata (j : json) : bool :=
  isObject j
  && required ["createdBy"; "createdAt"; "lastModifiedBy"; "lastModifiedAt"] j
  && property "createdBy" isString j
  && property "createdAt" isInteger j
  && property "lastModifiedBy" isString j
  && property "lastModifiedAt" isInteger j
  && noAdditional ["createdBy"; "createdAt"; "lastModifiedBy"; "lastModifiedAt"] j.

(** The schema of [extensions] inside [PostBodySchema]. *)
Definition isExtensions (j : json) : bool :=
  isObject j && property "pins" isStringArray j.

(** [PostBodySchema] *)
Definition isPostBody (j : json) : bool :=
  isObject j
  && required ["msg"] j
  && property "msg" isString j
  && property "parent" isString j
  && property "reactions" isReactions j
  && property "extensions" isExtensions j.

(** [PostUpdateSchema], compiled to the guard [isPostUpdate]. *)
Definition isPostUpdate (j : json) : bool :=
  isObject j
  && required ["path"; "doc"; "meta"] j
  && property "path" isString j
  && property "doc" isPostBody j
  && property "meta" isMetadata j
  && noAdditional ["path"; "doc"; "meta"] j.

End Json.

(** ** The typed documents: [PostBody], [Metadata], [PostUpdate], [ViewPost] *)

Module Doc.
Import Json.

(** The reactions object: each of the four properties is an array of user
    names or is absent. *)
Record Reactions : Type := mkReactions {
  smile : option (list string);
  like : option (list string);
  frown : option (list string);
  celebrate : option (list string)
}.

Record Extensions : Type := mkExtensions {
  pins : option (list string)
}.

Record PostBody : Type := mkPostBody {
  msg : string;
  parent : option string;
  reactions : option Reactions;
  extensions : option Extensions
}.

Record Metadata : Type := mkMetadata {
  createdBy : string;
  createdAt : Z;
  lastModifiedBy : string;
  lastModifiedAt : Z
}.

(** [PostUpdate] in [model.ts] and [ViewPost] in [postView.ts] are the same
    shape. *)
Record ViewPost : Type := mkViewPost {
  path : string;
  doc : PostBody;
  meta : Metadata
}.

(** Reading a validated JSON value at its TypeScript type.  The cast
    [let result: PostUpdate = data] does nothing at run time; these functions
    are the field accesses [result.path], [result.doc.parent] and so on. *)
Definition readStrings (j : option json) : option (list string) :=
  match j with
  | Some (JArr items) => Some (map asString items)
  | _ => None
  end.

Definition readString (j : option json) : option string :=
  match j with
  | Some (JStr s) => Some s
  | _ => None
  end.

Definition readInteger (j : option json) : Z :=
  match j with
  | Some (JNum n d) => n / Z.pos d
  | _ => 0
  end.

Definition readReactions (j : json) : Reactions :=
  {| smile := readStrings (prop j ":smile:");
     like := readStrings (prop j ":like:");
     frown := readStrings (prop j ":frown:");
     celebrate := readStrings (prop j ":celebrate:") |}.

Definition readExtensions (j : json) : Extensions :=
  {| pins := readStrings (prop j "pins") |}.

Definition readPostBody (j : json) : PostBody :=
  {| msg := match readString (prop j "msg") with Some s => s | None => "" end;
     parent := readString (prop j "parent");
     reactions := option_map readReactions (prop j "reactions");
     extensions := option_map readExtensions (prop j "extensions") |}.

Definition readMetadata (j : json) : Metadata :=
  {| createdBy :=
       match readString (prop j "createdBy") with Some s => s | None => "" end;
     createdAt := readInteger (prop j "createdAt");
     lastModifiedBy :=
       match readString (prop j "lastModifiedBy") with
       | Some s => s
       | None => ""
       end;
     lastModifiedAt := readInteger (prop j "lastModifiedAt") |}.

Definition readPostUpdate (j : json) : ViewPost :=
  {| path := match readString (prop j "path") with Some s => s | None => "" end;
     doc := match prop j "doc" with
            | Some d => readPostBody d
            | None => mkPostBody "" None None None
            end;
     meta := match prop j "meta" with
             | Some m => readMetadata m
             | None => mkMetadata "" 0 "" 0
             end |}.

End Doc.

(** ** The [PostItem] component and the DOM containers it lives in *)

Module PostComponent.

(** Identity of a [PostItem] object: its index in the object store. *)
Definition oid := nat.

(** A button of the post template.  [marked] says that its class list holds
    ["reacted"] (a reaction button) or ["pinned"] (the pin button). *)
Record Button : Type := mkButton {
  marked : bool;
  disabled : bool
}.

Record PostItem : Type := mkPostItem {
  contents : string;
  poster : string;
  postTime : Z;
  postPath : string;
  reactors : option Doc.Reactions;
  workspace : string;
  channel : string;
  childrenItems : list oid;
  parent : string;
  (** the [PostItem] children of the [.replies] section *)
  replies : list oid;
  smileReaction : Button;
  likeReaction : Button;
  frownReaction : Button;
  celebrateReaction : Button;
  pinButton : Button;
  (** [innerText] of the four count paragraphs *)
  smileCount : string;
  likeCount : string;
  frownCount : string;
  celebrateCount : string
}.

Definition withReplies (l : list oid) (p : PostItem) : PostItem :=
  mkPostItem (contents p) (poster p) (postTime p) (postPath p) (reactors p)
    (workspace p) (channel p) (childrenItems p) (parent p) l
    (smileReaction p) (likeReaction p) (frownReaction p) (celebrateReaction p)
    (pinButton p) (smileCount p) (likeCount p) (frownCount p)
    (celebrateCount p).

Definition withChildrenItems (l : list oid) (p : PostItem) : PostItem :=
  mkPostItem (contents p) (poster p) (postTime p) (postPath p) (reactors p)
    (workspace p) (channel p) l (parent p) (replies p)
    (smileReaction p) (likeReaction p) (frownReaction p) (celebrateReaction p)
    (pinButton p) (smileCount p) (likeCount p) (frownCount p)
    (celebrateCount p).

Definition withPinButton (b : Button) (p : PostItem) : PostItem :=
  mkPostItem (contents p) (poster p) (postTime p) (postPath p) (reactors p)
    (workspace p) (channel p) (childrenItems p) (parent p) (replies p)
    (smileReaction p) (likeReaction p) (frownReaction p) (celebrateReaction p)
    b (smileCount p) (likeCount p) (frownCount p) (celebrateCount p).

(** The four reactions of the template, in the order of [getReactions]. *)
Inductive Emoji : Type := Smile | Like | Frown | Celebrate.

(** The reaction whose button has the id [name-<path>]. *)
Definition emojiOfName (name : string) : option Emoji :=
  if String.eqb name "smile" then Some Smile
  else if String.eqb name "like" then Some Like
  else if String.eqb name "frown" then Some Frown
  else if String.eqb name "celebrate" then Some Celebrate
  else None.

Definition reactionButton (e : Emoji) (p : PostItem) : Button :=
  match e with
  | Smile => smileReaction p
  | Like => likeReaction p
  | Frown => frownReaction p
  | Celebrate => celebrateReaction p
  end.

Definition countText (e : Emoji) (p : PostItem) : string :=
  match e with
  | Smile => smileCount p
  | Like => likeCount p
  | Frown => frownCount p
  | Celebrate => celebrateCount p
  end.

Definition withReactionButton (e : Emoji) (b : Button) (p : PostItem)
    : PostItem :=
  mkPostItem (contents p) (poster p) (postTime p) (postPath p) (reactors p)
    (workspace p) (channel p) (childrenItems p) (parent p) (replies p)
    (match e with Smile => b | _ => smileReaction p end)
    (match e with Like => b | _ => likeReaction p end)
    (match e with Frown => b | _ => frownReaction p end)
    (match e with Celebrate => b | _ => celebrateReaction p end)
    (pinButton p) (smileCount p) (likeCount p) (frownCount p)
    (celebrateCount p).

Definition withCountText (e : Emoji) (t : string) (p : PostItem) : PostItem :=
  mkPostItem (contents p) (poster p) (postTime p) (postPath p) (reactors p)
    (workspace p) (channel p) (childrenItems p) (parent p) (replies p)
    (smileReaction p) (likeReaction p) (frownReaction p) (celebrateReaction p)
    (pinButton p)
    (match e with Smile => t | _ => smileCount p end)
    (match e with Like => t | _ => likeCount p end)
    (match e with Frown => t | _ => frownCount p end)
    (match e with Celebrate => t | _ => celebrateCount p end).

(** [enablePostButton(reaction)] *)
Definition enablePostButton (reaction : string) (p : PostItem) : PostItem :=
  match emojiOfName reaction with
  | Some e =>
      withReactionButton e (mkButton (marked (reactionButton e p)) false) p
  | None =>
      if String.eqb reaction "pin"
      then withPinButton (mkButton (marked (pinButton p)) false) p
      else p
  end.

(** The state of the page that the post view works on. *)
Record PostView : Type := mkPostView {
  (** every [PostItem] ever constructed, by identity *)
  heap : list PostItem;
  (** the [PostItem] children of [#post-area], in document order.  The page
      is taken from the first [displayAllPosts] on, which empties the
      section: the comment and the text nodes that index.html puts there
      are gone, and the section holds [PostItem]s only *)
  postArea : list oid;
  allPostMapping : Js.JsMap oid;
  pinnedPostMapping : Js.JsMap oid;
  lastEventID : string;
  (** the lines written with [console.error], oldest first *)
  consoleErrors : list string
}.

Definition emptyItem : PostItem :=
  mkPostItem "" "" 0 "" None "" "" [] "" []
    (mkButton false false) (mkButton false false) (mkButton false false)
    (mkButton false false) (mkButton false false) "" "" "" "".

(** Dereference.  Identities handed out by [alloc] always point into the
    store; nothing is ever freed. *)
Definition item (st : PostView) (o : oid) : PostItem :=
  nth o (heap st) emptyItem.

Fixpoint updateNth {A : Type} (n : nat) (f : A -> A) (l : list A) : list A :=
  match l, n with
  | [], _ => []
  | x :: l', O => f x :: l'
  | x :: l', S n' => x :: updateNth n' f l'
  end.

Definition withHeap (h : list PostItem) (st : PostView) : PostView :=
  mkPostView h (postArea st) (allPostMapping st) (pinnedPostMapping st)
    (lastEventID st) (consoleErrors st).

Definition withPostArea (l : list oid) (st : PostView) : PostView :=
  mkPostView (heap st) l (allPostMapping st) (pinnedPostMapping st)
    (lastEventID st) (consoleErrors st).

Definition withAll (m : Js.JsMap oid) (st : PostView) : PostView :=
  mkPostView (heap st) (postArea st) m (pinnedPostMapping st)
    (lastEventID st) (consoleErrors st).

Definition withPinned (m : Js.JsMap oid) (st : PostView) : PostView :=
  mkPostView (heap st) (postArea st) (allPostMapping st) m
    (lastEventID st) (consoleErrors st).

Definition withLastEventID (id : string) (st : PostView) : PostView :=
  mkPostView (heap st) (postArea st) (allPostMapping st) (pinnedPostMapping st)
    id (consoleErrors st).

Definition consoleError (line : string) (st : PostView) : PostView :=
  mkPostView (heap st) (postArea st) (allPostMapping st) (pinnedPostMapping st)
    (lastEventID st) (consoleErrors st ++ [line]).

Definition updateItem (o : oid) (f : PostItem -> PostItem) (st : PostView)
    : PostView :=
  withHeap (updateNth o f (heap st)) st.

(** *** Results and exceptions *)

Inductive Result (A : Type) : Type :=
| Ok (a : A) (st : PostView)
| Throw (msg : string) (st : PostView).
Arguments Ok {A} a st.
Arguments Throw {A} msg st.

Definition M (A : Type) : Type := PostView -> Result A.

Definition ret {A : Type} (a : A) : M A := fun st => Ok a st.

Definition bind {A B : Type} (m : M A) (k : A -> M B) : M B :=
  fun st =>
    match m st with
    | Ok a st' => k a st'
    | Throw msg st' => Throw msg st'
    end.

Definition throw {A : Type} (msg : string) : M A := fun st => Throw msg st.

(** A mutation that cannot fail. *)
Definition modify (f : PostView -> PostView) : M unit :=
  fun st => Ok tt (f st).

Definition gets {A : Type} (f : PostView -> A) : M A :=
  fun st => Ok (f st) st.

Declare Scope view_scope.
Delimit Scope view_scope with view.
Notation "x <- m ;; k" := (bind m (fun x => k))
  (at level 61, m at next level, right associativity) : view_scope.
Notation "m ;;; k" := (bind m (fun _ => k))
  (at level 61, right associativity) : view_scope.
Open Scope view_scope.

(** [array.forEach] with an effectful body. *)
Fixpoint forEach {A : Type} (l : list A) (body : A -> M unit) : M unit :=
  match l with
  | [] => ret tt
  | x :: l' => body x ;;; forEach l' body
  end.

(** An effectful map, left to right. *)
Fixpoint mapM {A B : Type} (f : A -> M B) (l : list A) : M (list B) :=
  match l with
  | [] => ret []
  | x :: l' => y <- f x ;; ys <- mapM f l' ;; ret (y :: ys)
  end.

(** The final state, with or without an exception. *)
Definition stateOf {A : Type} (r : Result A) : PostView :=
  match r with Ok _ st => st | Throw _ st => st end.

(** *** DOM child lists

    A [PostItem] element is a child of [#post-area], of the [.replies]
    section of one other [PostItem], or of nothing. *)

Inductive Container : Type :=
| PostArea
| Replies (o : oid).

Definition childNodes (c : Container) (st : PostView) : list oid :=
  match c with
  | PostArea => postArea st
  | Replies o => replies (item st o)
  end.

Definition setChildNodes (c : Container) (l : list oid) (st : PostView)
    : PostView :=
  match c with
  | PostArea => withPostArea l st
  | Replies o => updateItem o (withReplies l) st
  end.

Definition removeNode (x : oid) (l : list oid) : list oid :=
  filter (fun y => negb (Nat.eqb x y)) l.

Definition isChild (x : oid) (l : list oid) : bool := existsb (Nat.eqb x) l.

(** Removing a node from its parent, whichever it is. *)
Definition detach (x : oid) (st : PostView) : PostView :=
  withPostArea (removeNode x (postArea st))
    (withHeap (map (fun p => withReplies (removeNode x (replies p)) p)
                 (heap st)) st).

(** The node moves to the end of the container. *)
Definition attach (c : Container) (x : oid) (st : PostView) : PostView :=
  let st' := detach x st in
  setChildNodes c (childNodes c st' ++ [x]) st'.

(** The element of the store [h] whose [.replies] section holds [x], if
    there is one. *)
Fixpoint parentFrom (x : oid) (h : list PostItem) (q : oid) : option oid :=
  match h with
  | [] => None
  | p :: h' => if isChild x (replies p) then Some q else parentFrom x h' (S q)
  end.

Definition parentItem (x : oid) (h : list PostItem) : option oid :=
  parentFrom x h 0%nat.

(** [x] is the element [o] or an element that [o] is nested in through
    [.replies] sections.  [fuel] bounds the nesting. *)
Fixpoint nestedIn (fuel : nat) (x o : oid) (h : list PostItem) : bool :=
  Nat.eqb x o
  || match fuel with
     | O => false
     | S fuel' =>
         match parentItem o h with
         | Some q => nestedIn fuel' x q h
         | None => false
         end
     end.

(** [x] is a host-including inclusive ancestor of the container: for the
    [.replies] section of [o], which is in the shadow tree of [o], these are
    [o] and the elements that [o] is nested in.  No [PostItem] is an ancestor
    of [#post-area]. *)
Definition hostIncludingAncestor (x : oid) (c : Container) (st : PostView)
    : bool :=
  match c with
  | PostArea => false
  | Replies o => nestedIn (length (heap st)) x o (heap st)
  end.

(** [container.append(x)]: inserting an ancestor of the container is a
    [HierarchyRequestError]. *)
Definition append (c : Container) (x : oid) : M unit :=
  fun st =>
    if hostIncludingAncestor x c st then Throw "HierarchyRequestError" st
    else Ok tt (attach c x st).

Fixpoint insertBeforeNode (x ref : oid) (l : list oid) : list oid :=
  match l with
  | [] => []
  | y :: l' =>
      if Nat.eqb ref y then x :: y :: l' else y :: insertBeforeNode x ref l'
  end.

(** [container.insertBefore(x, ref)].  Inserting an ancestor of the
    container is a [HierarchyRequestError], which is tested first; a
    reference node that is not a child of the container is a
    [NotFoundError]; [null] appends. *)
Definition insertBefore (c : Container) (x : oid) (ref : option oid)
    : M unit :=
  fun st =>
    if hostIncludingAncestor x c st then Throw "HierarchyRequestError" st
    else
      match ref with
      | None => Ok tt (attach c x st)
      | Some r =>
          if isChild r (childNodes c st) then
            if Nat.eqb x r then Ok tt st
            else
              let st' := detach x st in
              Ok tt
                (setChildNodes c (insertBeforeNode x r (childNodes c st')) st')
          else Throw "NotFoundError" st
      end.

(** [container.replaceChild(newChild, oldChild)], with the same two
    errors in the same order. *)
Definition replaceChild (c : Container) (newChild oldChild : oid) : M unit :=
  fun st =>
    if hostIncludingAncestor newChild c st
    then Throw "HierarchyRequestError" st
    else if isChild oldChild (childNodes c st) then
      if Nat.eqb newChild oldChild then Ok tt st
      else
        let st' := detach newChild st in
        Ok tt (setChildNodes c
                 (map (fun y => if Nat.eqb y oldChild then newChild else y)
                    (childNodes c st')) st')
    else Throw "NotFoundError" st.

(** *** The class [PostItem] *)

(** [reactionNumbers[i]] rendered in a count paragraph: the paragraph stays
    empty for 0.  Reading past the end of the array is a [TypeError]. *)
Definition initialCount (reactionNumbers : list nat) (i : nat)
    : option string :=
  match nth_error reactionNumbers i with
  | Some O => Some ""
  | Some n => Some (Js.numberToString (Js.toNumber (Z.of_nat n)))
  | None => None
  end.

(** [new PostItem(...)].  The children are appended to the [.replies]
    section of the new element, which takes them away from the element that
    held them before.  The new element is in no document yet and is none of
    its children, so that these [append] calls cannot fail. *)
Definition newPostItem (postContent poster : string) (postTime : Z)
    (postPath : string) (reactionNumbers : list nat)
    (reactors : option Doc.Reactions) (workspace channel : string)
    (children : list oid) (parentPost : option string) : M oid :=
  match initialCount reactionNumbers 0, initialCount reactionNumbers 1,
        initialCount reactionNumbers 2, initialCount reactionNumbers 3 with
  | Some smiles, Some likes, Some frowns, Some celebrates =>
      fun st =>
        let this := length (heap st) in
        let fresh :=
          mkPostItem postContent poster postTime postPath reactors workspace
            channel children
            (match parentPost with Some p => p | None => "" end) []
            (mkButton false false) (mkButton false false)
            (mkButton false false) (mkButton false false)
            (mkButton false false) smiles likes frowns celebrates in
        let st1 := withHeap (heap st ++ [fresh]) st in
        Ok this (fold_left (fun s child => attach (Replies this) child s)
                   children st1)
  | _, _, _, _ => throw "TypeError"
  end.

(** Index of the last element that satisfies [p]: the value that
    [forEach((val, i) => { if (p(val)) index = i; })] leaves in [index]. *)
Fixpoint lastIndexFrom {A : Type} (p : A -> bool) (l : list A) (i : nat)
    (index : option nat) : option nat :=
  match l with
  | [] => index
  | x :: l' => lastIndexFrom p l' (S i) (if p x then Some i else index)
  end.

(** [index === -1 ? null : array.at(index + 1)] *)
Definition following {A : Type} (index : option nat) (l : list A) : option A :=
  match index with
  | None => None
  | Some i => nth_error l (S i)
  end.

(** The child nodes that the template puts in every [.replies] section: a
    text node, the comment and a text node.  They stay in front of the
    replies, which are appended or inserted before another reply. *)
Definition templateNodes : list string := ["#text"; "#comment"; "#text"].

(** The part of [addReply] after the loop over the child nodes: the reply
    is put in its place among the replies, and the sorted array becomes
    [childrenItems]. *)
Definition placeReply (this replyPost : oid) : M unit :=
  fun st =>
    let postItemChildren :=
      Js.sortBy (fun o => postTime (item st o))
        (replies (item st this) ++ [replyPost]) in
    let index :=
      lastIndexFrom
        (fun val => postTime (item st val) =? postTime (item st replyPost))
        postItemChildren 0 None in
    let follows := following index postItemChildren in
    (insertBefore (Replies this) replyPost follows ;;;
     modify (updateItem this (withChildrenItems postItemChildren))) st.

(** [addReply(replyPost)] on the element [this].  The loop over the child
    nodes of the section reports every node that is not a [PostItem]. *)
Definition addReply (this replyPost : oid) : M unit :=
  forEach templateNodes
    (fun _ =>
       modify (consoleError "This node is not a post item for replies")) ;;;
  placeReply this replyPost.

(** [replaceReply(newChild, oldChild)] on the element [this]. *)
Definition replaceReply (this newChild oldChild : oid) : M unit :=
  replaceChild (Replies this) newChild oldChild.

End PostComponent.

(** ** The class [PostView] of [postView.ts] *)

Module PostViewTs.
Import PostComponent.

(** [getReactions(reactions)]: the four counts, smile, like, frown,
    celebrate. *)
Definition getReactions (reactions : option Doc.Reactions) : list nat :=
  match reactions with
  | Some r =>
      let count (a : option (list string)) :=
        match a with Some names => length names | None => O end in
      [count (Doc.smile r); count (Doc.like r); count (Doc.frown r);
       count (Doc.celebrate r)]
  | None => [O; O; O; O]
  end.

(** [getReacted(reactions, username)] *)
Definition getReacted (reactions : option Doc.Reactions) (username : string)
    : list bool :=
  match reactions with
  | Some r =>
      let includes (a : option (list string)) :=
        match a with
        | Some names => existsb (String.eqb username) names
        | None => false
        end in
      [includes (Doc.smile r); includes (Doc.like r); includes (Doc.frown r);
       includes (Doc.celebrate r)]
  | None => [false; false; false; false]
  end.

(** [post.doc.extensions?.pins] *)
Definition pinsOf (post : Doc.ViewPost) : option (list string) :=
  match Doc.extensions (Doc.doc post) with
  | Some e => Doc.pins e
  | None => None
  end.

(** One step of the loop of [getPinnedPosts].  [pins.find(s => s === currUser)]
    returns the name it found, which is falsy when it is the empty string.
    The parent is looked up only when the post has no [pins] array. *)
Definition getPinnedStep (currUser : string)
    (acc : list Doc.ViewPost * list Doc.ViewPost) (post : Doc.ViewPost)
    : list Doc.ViewPost * list Doc.ViewPost :=
  let '(pinnedPosts, generalPosts) := acc in
  match pinsOf post with
  | Some pins =>
      if existsb (String.eqb currUser) pins && negb (String.eqb currUser "")
      then (pinnedPosts ++ [post], generalPosts)
      else (pinnedPosts, generalPosts ++ [post])
  | None =>
      if match Doc.parent (Doc.doc post) with
         | Some parent =>
             existsb (fun s => String.eqb (Doc.path s) parent) pinnedPosts
         | None => false
         end
      then (pinnedPosts ++ [post], generalPosts)
      else (pinnedPosts, generalPosts ++ [post])
  end.

(** [getPinnedPosts(allPosts, pinnedPosts, generalPosts)], called with two
    empty arrays: the pair of arrays it fills. *)
Definition getPinnedPosts (currUser : string) (allPosts : list Doc.ViewPost)
    : list Doc.ViewPost * list Doc.ViewPost :=
  fold_left (getPinnedStep currUser)
    (Js.sortBy (fun p => Doc.createdAt (Doc.meta p)) allPosts) ([], []).

(** *** The trees of [displayAllPosts]

    A [ViewPostTree] is an object that is reached both from the path map and
    from the [children] array of its parent.  The nodes are kept in a table;
    a node is named by its index there. *)
Record ViewPostTree : Type := mkTree {
  post : Doc.ViewPost;
  children : list nat
}.

Record Forest : Type := mkForest {
  nodes : list ViewPostTree;
  pathToTree : Js.JsMap nat;
  roots : list nat;
  complaints : list string
}.

(** First loop: one fresh node per post, entered in the map under its path. *)
Definition addNode (f : Forest) (currPost : Doc.ViewPost) : Forest :=
  mkForest (nodes f ++ [mkTree currPost []])
    (Js.set (pathToTree f) (Doc.path currPost) (length (nodes f)))
    (roots f) (complaints f).

Definition pushChild (parentTree currNode : nat) (f : Forest) : Forest :=
  mkForest
    (updateNth parentTree
       (fun t => mkTree (post t) (children t ++ [currNode])) (nodes f))
    (pathToTree f) (roots f) (complaints f).

(** Second loop: a reply is pushed to the children of its parent's node, a
    top-level post to the roots.  A reply whose parent has no node is
    reported and left out. *)
Definition linkNode (f : Forest) (currPost : Doc.ViewPost) : Forest :=
  match Js.get (pathToTree f) (Doc.path currPost) with
  | Some currNode =>
      match Doc.parent (Doc.doc currPost) with
      | Some parent =>
          if negb (String.eqb parent "") then
            match Js.get (pathToTree f) parent with
            | Some parentTree => pushChild parentTree currNode f
            | None =>
                mkForest (nodes f) (pathToTree f) (roots f)
                  (complaints f ++ ["parent post tree not found in map"])
            end
          else
            mkForest (nodes f) (pathToTree f) (roots f ++ [currNode])
              (complaints f)
      | None =>
          mkForest (nodes f) (pathToTree f) (roots f ++ [currNode])
            (complaints f)
      end
  | None =>
      mkForest (nodes f) (pathToTree f) (roots f)
        (complaints f ++ ["current node tree not found in map"])
  end.

Definition buildForest (posts : list Doc.ViewPost) : Forest :=
  fold_left linkNode posts
    (fold_left addNode posts (mkForest [] [] [] [])).

Definition emptyTree : ViewPostTree :=
  mkTree (Doc.mkViewPost "" (Doc.mkPostBody "" None None None)
            (Doc.mkMetadata "" 0 "" 0)) [].

(** Adding the class ["reacted"] to the buttons the user reacted with. *)
Definition markReacted (reacted : list bool) (p : PostItem) : PostItem :=
  let mark (e : Emoji) (i : nat) (q : PostItem) :=
    if nth i reacted false
    then withReactionButton e (mkButton true (disabled (reactionButton e q))) q
    else q in
  mark Celebrate 3%nat (mark Frown 2%nat (mark Like 1%nat (mark Smile 0%nat p))).

(** [makePostFromTree(workspace, channel, rootNode, pins)].  [currUser] is the
    text of [#username-header].  The recursion follows the children of the
    node; [depth] is the room left on the call stack, and running out of it
    is the [RangeError] of a tree that contains itself. *)
Fixpoint makePostFromTree (depth : nat) (trees : list ViewPostTree)
    (currUser workspace channel : string) (rootNode : nat) (pins : bool)
    : M oid :=
  match depth with
  | O => throw "RangeError"
  | S depth' =>
      let tree := nth rootNode trees emptyTree in
      children <-
        mapM (fun childNode =>
                makePostFromTree depth' trees currUser workspace channel
                  childNode pins)
          (children tree) ;;
      let currPost := post tree in
      let doc := Doc.doc currPost in
      let reactions := Doc.reactions doc in
      let reactionNum := getReactions reactions in
      post <-
        newPostItem (Doc.msg doc) (Doc.createdBy (Doc.meta currPost))
          (Doc.createdAt (Doc.meta currPost)) (Doc.path currPost) reactionNum
          reactions workspace channel children (Doc.parent doc) ;;
      modify (updateItem post (markReacted (getReacted reactions currUser))) ;;;
      (if pins
       then modify (fun st =>
              withPinned (Js.set (pinnedPostMapping st) (Doc.path currPost) post)
                st)
       else modify (fun st =>
              withAll (Js.set (allPostMapping st) (Doc.path currPost) post)
                st)) ;;;
      ret post
  end.

(** The rendering loop over the roots of one forest. *)
Definition displayForest (currUser workspace channel : string) (f : Forest)
    (pins : bool) : M unit :=
  forEach (complaints f) (fun line => modify (consoleError line)) ;;;
  forEach (roots f) (fun rootNode =>
    rootPost <-
      makePostFromTree (S (length (nodes f))) (nodes f) currUser workspace
        channel rootNode pins ;;
    append PostArea rootPost).

(** [displayAllPosts(workspace, channel, posts)].  The two maps are fields of
    the view and are not cleared; only the post area is emptied. *)
Definition displayAllPosts (currUser workspace channel : string)
    (posts : list Doc.ViewPost) : M unit :=
  modify (withPostArea []) ;;;
  let '(pinnedPosts, generalPosts) := getPinnedPosts currUser posts in
  let pinnedPosts :=
    Js.sortBy (fun p => Doc.lastModifiedAt (Doc.meta p)) pinnedPosts in
  displayForest currUser workspace channel (buildForest pinnedPosts) true ;;;
  let generalPosts :=
    Js.sortBy (fun p => Doc.createdAt (Doc.meta p)) generalPosts in
  displayForest currUser workspace channel (buildForest generalPosts) false.

(** *** Reconciling an update *)

(** The array picked by [switch (index)] in [findReactor], and the user name
    it leaves in [username]: the last element of the array, [undefined] for
    an empty one; [username] keeps its value when there is no such array. *)
Definition pickLast (reactors : option Doc.Reactions) (index : nat)
    (username : option string) : option string :=
  match reactors with
  | None => username
  | Some r =>
      let picked :=
        match index with
        | 0%nat => Doc.smile r
        | 1%nat => Doc.like r
        | 2%nat => Doc.frown r
        | 3%nat => Doc.celebrate r
        | _ => None
        end in
      match picked with
      | Some names => Js.lastAt names
      | None => username
      end
  end.

(** [findReactor(newReactions, oldReactions, newReactors, oldReactors)].
    The callback of [newReactions.forEach] names its first parameter [index];
    [forEach] passes the element there, so each count of [newReactions] is
    used as the position to compare.  [None] is [undefined]. *)
Definition findReactor (newReactions oldReactions : list nat)
    (newReactors oldReactors : option Doc.Reactions) : option string :=
  fold_left
    (fun username index =>
       match Js.at_ newReactions index, Js.at_ oldReactions index with
       | Some n, Some o =>
           if (o <? n)%nat then pickLast newReactors index username
           else if (n <? o)%nat then pickLast oldReactors index username
           else Some "same"
       | _, _ => Some "same"
       end)
    newReactions (Some "").

(** [currentUser === reactor || reactor === "same"] *)
Definition isOwnOrSame (currentUser : string) (reactor : option string)
    : bool :=
  match reactor with
  | Some r => String.eqb currentUser r || String.eqb r "same"
  | None => false
  end.

(** [post.doc.parent !== undefined && post.doc.parent !== ""] *)
Definition replyParent (post : Doc.ViewPost) : option string :=
  match Doc.parent (Doc.doc post) with
  | Some parent => if String.eqb parent "" then None else Some parent
  | None => None
  end.

Definition setAll (path : string) (o : oid) : M unit :=
  modify (fun st => withAll (Js.set (allPostMapping st) path o) st).

(** The branch of [updatePosts] for a path found in [allPostMapping]; the
    text is the same for a local and for a stream update.  [true] is returned
    when the update was dropped by the early [return]. *)
Definition updateKnown (post : Doc.ViewPost) (currentUser : string)
    (workspaceName channelName : string) (replace : oid) : M bool :=
  fun st =>
    let reactions := getReactions (Doc.reactions (Doc.doc post)) in
    let old := reactors (item st replace) in
    let reactor :=
      findReactor reactions (getReactions old)
        (Doc.reactions (Doc.doc post)) old in
    if isOwnOrSame currentUser reactor then Ok true st
    else
      (newPost <-
         newPostItem (Doc.msg (Doc.doc post)) (Doc.createdBy (Doc.meta post))
           (Doc.createdAt (Doc.meta post)) (Doc.path post) reactions
           (Doc.reactions (Doc.doc post)) workspaceName channelName
           (childrenItems (item st replace)) (Doc.parent (Doc.doc post)) ;;
       setAll (Doc.path post) newPost ;;;
       match replyParent post with
       | Some parent =>
           all <- gets allPostMapping ;;
           match Js.get all parent with
           | Some parentPost => replaceReply parentPost newPost replace
           | None => ret tt
           end
       | None => replaceChild PostArea newPost replace
       end ;;;
       ret false) st.

(** The branch of [updatePosts] for a path that is not in [allPostMapping].
    The new element is entered in the map before its parent is looked up.
    [local] tells the two call sites apart: for a top-level post the stream
    branch appends, the local branch sorts a copy of the post area and asks
    [findIndex] for the place; its callback has a block body without
    [return], so it answers [undefined] for every element. *)
Definition updateUnknown (post : Doc.ViewPost)
    (workspaceName channelName : string) (local : bool) : M unit :=
  newPost <-
    newPostItem (Doc.msg (Doc.doc post)) (Doc.createdBy (Doc.meta post))
      (Doc.createdAt (Doc.meta post)) (Doc.path post)
      (getReactions (Doc.reactions (Doc.doc post)))
      (Doc.reactions (Doc.doc post)) workspaceName channelName []
      (Doc.parent (Doc.doc post)) ;;
  setAll (Doc.path post) newPost ;;;
  match replyParent post with
  | Some parent =>
      all <- gets allPostMapping ;;
      match Js.get all parent with
      | Some parentPost => addReply parentPost newPost
      | None => ret tt
      end
  | None =>
      if local then
        fun st =>
          let temp3 :=
            Js.sortBy (fun o => postTime (item st o))
              (postArea st ++ [newPost]) in
          let index := Js.findIndex (fun _ => false) temp3 in
          let follows :=
            if index =? -1 then None
            else nth_error temp3 (Z.to_nat (index + 1)) in
          insertBefore PostArea newPost follows st
      else append PostArea newPost
  end.

(** [updatePosts(post, id, currentUser)].  [workspaceName] and [channelName]
    are the texts of the two title headers.  The two arms on [replyBoxOpen]
    in the stream branch differ only in scrolling and are one arm here. *)
Definition updatePosts (workspaceName channelName : string)
    (post : Doc.ViewPost) (id : string) (currentUser : string) : M unit :=
  if negb (Js.isNaN (Js.parseInt id)) then
    all <- gets allPostMapping ;;
    match Js.get all (Doc.path post) with
    | Some replace =>
        _ <- updateKnown post currentUser workspaceName channelName replace ;;
        ret tt
    | None => updateUnknown post workspaceName channelName false
    end
  else if Js.isNaN (Js.parseInt (Js.charAt id (Js.strlen id - 1))) then
    all <- gets allPostMapping ;;
    match Js.get all (Doc.path post) with
    | Some replace =>
        dropped <-
          updateKnown post currentUser workspaceName channelName replace ;;
        if dropped then ret tt else modify (withLastEventID id)
    | None =>
        updateUnknown post workspaceName channelName true ;;;
        modify (withLastEventID id)
    end
  else ret tt.

(** *** Local mutations *)

(** [updateReactions(postPath, reaction, reacted)].  The button is the
    element with the id [reaction-<path>] and the count paragraph the one
    with the id [reaction-count-<path>]: the four reactions have both, ["reply"]
    and ["pin"] name a button without a count, any other name no button. *)
Definition updateReactions (postPath reaction : string) (reacted : bool)
    : M unit :=
  fun st =>
    let found :=
      match Js.get (allPostMapping st) postPath with
      | Some postElem => Some postElem
      | None => Js.get (pinnedPostMapping st) postPath
      end in
    match found with
    | None => Throw "The post with the specified path is undefined" st
    | Some postElem =>
        match emojiOfName reaction with
        | None =>
            if String.eqb reaction "reply" || String.eqb reaction "pin"
            then Throw "didn't find reaction text" st
            else Throw "No reaction element exists for this post" st
        | Some e =>
            let p := item st postElem in
            let currCount :=
              if negb (String.eqb (countText e p) "")
              then Js.parseIntNumber (countText e p)
              else Js.Num 0 in
            let currCount :=
              Js.addInteger currCount (if reacted then -1 else 1) in
            let text :=
              if Js.isZero currCount then ""
              else Js.numberToString currCount in
            Ok tt
              (updateItem postElem
                 (fun p =>
                    enablePostButton reaction
                      (withCountText e text
                         (withReactionButton e
                            (mkButton (negb reacted)
                               (disabled (reactionButton e p))) p)))
                 st)
        end
    end.

(** [getFirstUnpinned()] *)
Definition getFirstUnpinned (st : PostView) : option oid :=
  let temp3 :=
    Js.sortBy (fun o => postTime (item st o))
      (Js.values (allPostMapping st)) in
  nth_error temp3 0.

(** [togglePin(postPath, pinned)].  Only the element and the elements of its
    [childrenItems] change maps.  [postArea.contains(follows)] holds for the
    children of the post area only: replies sit in the shadow tree of their
    parent. *)
Definition togglePin (postPath : string) (pinned : bool) : M unit :=
  fun st =>
    match Js.get (if pinned then pinnedPostMapping st else allPostMapping st)
            postPath with
    | None => Throw "The post with the specified path is undefined" st
    | Some postElem =>
        let st :=
          updateItem postElem
            (fun p =>
               enablePostButton "pin"
                 (withPinButton (mkButton (negb pinned)
                                   (disabled (pinButton p))) p)) st in
        let this := item st postElem in
        if pinned then
          let st := withAll (Js.set (allPostMapping st) (PostComponent.postPath this) postElem) st in
          let st := withPinned (Js.delete (pinnedPostMapping st) (PostComponent.postPath this)) st in
          let st :=
            fold_left
              (fun s child =>
                 let path := PostComponent.postPath (item s child) in
                 withAll (Js.set (allPostMapping s) path child)
                   (withPinned (Js.delete (pinnedPostMapping s) path) s))
              (childrenItems this) st in
          let temp3 :=
            Js.sortBy (fun o => postTime (item st o))
              (Js.values (allPostMapping st)) in
          let index :=
            lastIndexFrom (fun val => postTime (item st val) =? postTime this)
              temp3 0 None in
          let follows := following index temp3 in
          insertBefore PostArea postElem
            (match follows with
             | Some f => if isChild f (postArea st) then Some f else None
             | None => None
             end) st
        else
          let st := withAll (Js.delete (allPostMapping st) (PostComponent.postPath this)) st in
          let st := withPinned (Js.set (pinnedPostMapping st) (PostComponent.postPath this) postElem) st in
          let st :=
            fold_left
              (fun s child =>
                 let path := PostComponent.postPath (item s child) in
                 withPinned (Js.set (pinnedPostMapping s) path child)
                   (withAll (Js.delete (allPostMapping s) path) s))
              (childrenItems this) st in
          insertBefore PostArea postElem (getFirstUnpinned st) st
    end.

End PostViewTs.

(** ** The subscription of [model.ts] *)

Module ModelTs.

(** The [Model] object together with the connections that
    [fetchEventSource] holds open.  A connection is named by the
    [AbortController] whose signal it was started with and is closed when
    that controller aborts. *)
Record Model : Type := mkModel {
  (** [this.controller]; [None] is [null] *)
  controller : option nat;
  (** how many controllers have been constructed *)
  constructed : nat;
  connections : list nat
}.

Definition initModel : Model := mkModel None 0 [].

(** [subscribe(path, token)] up to its [await]: a new controller replaces the
    field and a connection is started on its signal. *)
Definition subscribe (m : Model) : Model :=
  let fresh := constructed m in
  mkModel (Some fresh) (S fresh) (connections m ++ [fresh]).

(** [unsubscribe()]: [this.controller?.abort(); this.controller = null]. *)
Definition unsubscribe (m : Model) : Model :=
  match controller m with
  | Some c =>
      mkModel None (constructed m)
        (filter (fun s => negb (Nat.eqb s c)) (connections m))
  | None => mkModel None (constructed m) (connections m)
  end.

(** Every open connection is the one whose controller the model holds. *)
Definition tracked (m : Model) : Prop :=
  forall s, In s (connections m) -> controller m = Some s.

(** A server-sent event as [fetchEventSource] hands it to [onmessage]. *)
Record EventSourceMessage : Type := mkMessage {
  id : string;
  event : string;
  data : string
}.

(** The detail of the [updatePostEvent] custom event. *)
Record UpdatePostEvent : Type := mkUpdatePostEvent {
  detailId : string;
  detailPost : Doc.ViewPost
}.

(** What [onmessage] does with one message. *)
Inductive Delivery : Type :=
| KeepAlive
| Dispatched (evt : UpdatePostEvent)
| Ignored
| SyntaxError.

Section OnMessage.
(** [JSON.parse]; [None] when it throws. *)
Variable JSON_parse : string -> option Json.json.

(** The [onmessage] callback of [subscribe]. *)
Definition onmessage (msg : EventSourceMessage) : Delivery :=
  if negb (String.eqb (event msg) "update") then KeepAlive
  else
    match JSON_parse (data msg) with
    | None => SyntaxError
    | Some data =>
        if Json.isPostUpdate data then
          let result := Doc.readPostUpdate data in
          Dispatched
            (mkUpdatePostEvent
               (String.append (id msg)
                  (Doc.lastModifiedBy (Doc.meta result)))
               result)
        else Ignored
    end.
End OnMessage.

End ModelTs.

(** ** The listeners of [main.ts] *)

Module MainTs.
Import PostComponent.

(** The listener of [updatePostEvent].  [username] is
    [authModel.getUsername()].  The result is the page and the message of the
    error modal, if the [catch] opened it. *)
Definition updatePostEventListener (username workspaceName channelName : string)
    (evt : ModelTs.UpdatePostEvent) (st : PostView)
    : PostView * option string :=
  let id := ModelTs.detailId evt in
  let post := ModelTs.detailPost evt in
  if Js.endsWith id username then (st, None)
  else
    let newID :=
      Js.substring id 0
        (Js.strlen id - Js.strlen (Doc.lastModifiedBy (Doc.meta post))) in
    match PostViewTs.updatePosts workspaceName channelName post newID username
            st with
    | Ok _ st' => (st', None)
    | Throw msg st' => (st', Some msg)
    end.

(** A message of the stream, from [onmessage] to the listener.  Only a
    dispatched event reaches the view. *)
Definition deliver (JSON_parse : string -> option Json.json)
    (username workspaceName channelName : string)
    (msg : ModelTs.EventSourceMessage) (st : PostView) : PostView :=
  match ModelTs.onmessage JSON_parse msg with
  | ModelTs.Dispatched evt =>
      fst (updatePostEventListener username workspaceName channelName evt st)
  | _ => st
  end.

(** What the listener of [displayChannelEvent] does to the subscription:
    [model.unsubscribe()] first, [model.subscribe(path, token)] last. *)
Definition displayChannelEventSubscription (m : ModelTs.Model)
    : ModelTs.Model :=
  ModelTs.subscribe (ModelTs.unsubscribe m).

(** What the listener of [createChannelEvent] does to the subscription, in
    two turns of the event loop: [model.unsubscribe()] when the event is
    handled, and [model.subscribe(path, token)] in the [then] of
    [model.createChannel], when the answer of the store has arrived.  The
    second turn has no [unsubscribe] in front of its [subscribe]. *)
Definition createChannelEventHandled (m : ModelTs.Model) : ModelTs.Model :=
  ModelTs.unsubscribe m.

Definition createChannelResolved (m : ModelTs.Model) : ModelTs.Model :=
  ModelTs.subscribe m.

(** The turns of the event loop that touch the subscription. *)
Inductive Turn : Type :=
| DisplayChannelEvent
| CreateChannelEvent
| CreateChannelAnswer.

Definition turn (t : Turn) (m : ModelTs.Model) : ModelTs.Model :=
  match t with
  | DisplayChannelEvent => displayChannelEventSubscription m
  | CreateChannelEvent => createChannelEventHandled m
  | CreateChannelAnswer => createChannelResolved m
  end.

Definition turns (l : list Turn) (m : ModelTs.Model) : ModelTs.Model :=
  fold_left (fun s t => turn t s) l m.

End MainTs.

(** ** Observations on the page *)

Module Observe.
Import PostComponent.

Definition emptyView : PostView := mkPostView [] [] [] [] "" [].

Definition inGeneral (st : PostView) (path : string) : bool :=
  Js.has (allPostMapping st) path.

Definition inPinned (st : PostView) (path : string) : bool :=
  Js.has (pinnedPostMapping st) path.

(** The creation times of the children of the post area, in document
    order, restricted to the elements that a map holds. *)
Definition heldBy (m : Js.JsMap oid) (st : PostView) (o : oid) : bool :=
  match Js.get m (postPath (item st o)) with
  | Some o' => Nat.eqb o o'
  | None => false
  end.

Definition generalRoots (st : PostView) : list oid :=
  filter (heldBy (allPostMapping st) st) (postArea st).

Definition pinnedRoots (st : PostView) : list oid :=
  filter (heldBy (pinnedPostMapping st) st) (postArea st).

Definition createdAtOf (st : PostView) (l : list oid) : list Z :=
  map (fun o => postTime (item st o)) l.

(** Non-decreasing sequence of integers. *)
Fixpoint nonDecreasing (l : list Z) : bool :=
  match l with
  | x :: ((y :: _) as l') => (x <=? y) && nonDecreasing l'
  | _ => true
  end.

(** A count paragraph as the constructor and [updateReactions] write it:
    empty for 0, the decimal numeral otherwise. *)
Definition renderCount (n : Z) : string :=
  if n =? 0 then "" else Js.decimal n.

(** A plain document. *)
Definition mkPost (path : string) (parent : option string)
    (reactions : option Doc.Reactions) (pins : option (list string))
    (createdBy : string) (createdAt : Z) (lastModifiedBy : string)
    (lastModifiedAt : Z) : Doc.ViewPost :=
  Doc.mkViewPost path
    (Doc.mkPostBody "hello" parent reactions
       (match pins with
        | Some l => Some (Doc.mkExtensions (Some l))
        | None => None
        end))
    (Doc.mkMetadata createdBy createdAt lastModifiedBy lastModifiedAt).

End Observe.

(** ** Pages and documents used as concrete inputs *)

Module Scenario.
Import PostComponent PostViewTs Observe.

(** The viewer. *)
Definition alice : string := "alice".

(** A top-level post that alice has pinned; bob modified it last. *)
Definition pinnedRoot : Doc.ViewPost :=
  mkPost "/A" None None (Some ["alice"]) "bob" 100 "bob" 200.

(** A reply to it whose [pins] array exists and is empty, as after
    [ObjectAdd /extensions/pins []] followed by an [ArrayRemove]. *)
Definition replyWithPins : Doc.ViewPost :=
  mkPost "/A/1" (Some "/A") None (Some []) "carol" 150 "carol" 150.

(** A reply to it without extensions, and a reply to that reply. *)
Definition reply : Doc.ViewPost :=
  mkPost "/A/1" (Some "/A") None None "carol" 150 "carol" 150.

Definition replyToReply : Doc.ViewPost :=
  mkPost "/A/1/1" (Some "/A/1") None None "dave" 160 "dave" 160.

(** Top-level posts that nobody pinned. *)
Definition laterRoot : Doc.ViewPost :=
  mkPost "/R" None None None "carol" 300 "carol" 300.

Definition earlierRoot : Doc.ViewPost :=
  mkPost "/E" None None None "alice" 50 "alice" 50.

Definition plainRoot : Doc.ViewPost :=
  mkPost "/A" None None None "bob" 100 "bob" 100.

(** The page after [displayAllPosts] on a pinned post and its reply with an
    empty [pins] array. *)
Definition shownWithPins : PostView :=
  stateOf (displayAllPosts alice "w" "c" [pinnedRoot; replyWithPins] emptyView).

(** The page after [displayAllPosts] on an unpinned thread of depth three
    between two other top-level posts. *)
Definition shownThread : PostView :=
  stateOf (displayAllPosts alice "w" "c"
             [earlierRoot; plainRoot; reply; replyToReply; laterRoot]
             emptyView).

(** The same page after alice pinned the root of the thread. *)
Definition pinnedThread : PostView :=
  stateOf (togglePin "/A" false shownThread).

(** The page after [displayAllPosts] on a post with one reply between two
    other top-level posts, after alice pinned the post, and after she
    unpinned it again. *)
Definition shownReplies : PostView :=
  stateOf (displayAllPosts alice "w" "c"
             [earlierRoot; plainRoot; reply; laterRoot] emptyView).

Definition pinnedReplies : PostView :=
  stateOf (togglePin "/A" false shownReplies).

Definition unpinnedReplies : PostView :=
  stateOf (togglePin "/A" true pinnedReplies).

(** The page after [displayAllPosts] on the pinned post alone. *)
Definition shownPinned : PostView :=
  stateOf (displayAllPosts alice "w" "c" [pinnedRoot] emptyView).

(** The event that [onmessage] dispatches for a second delivery of
    [pinnedRoot] under the message identifier 7, and the page after the
    listener handled it. *)
Definition duplicateOfPinned : ModelTs.UpdatePostEvent :=
  ModelTs.mkUpdatePostEvent "7bob" pinnedRoot.

Definition afterDuplicate : PostView :=
  fst (MainTs.updatePostEventListener alice "w" "c" duplicateOfPinned
         shownPinned).

(** The stream delivers [laterRoot] to an empty page; then the answer to
    alice's own creation of [earlierRoot] comes back under a local
    identifier. *)
Definition afterStream : PostView :=
  stateOf (updatePosts "w" "c" laterRoot "7" alice emptyView).

Definition afterLocalCreate : PostView :=
  stateOf (updatePosts "w" "c" earlierRoot "abc" alice afterStream).

(** The stream delivers a reply whose parent the page has never seen. *)
Definition afterOrphan : PostView :=
  stateOf (updatePosts "w" "c" reply "7" alice emptyView).

(** Alice reacted with [like] to [laterRoot] on that page; the local update
    has been applied. *)
Definition afterLocalLike : PostView :=
  stateOf (updateReactions "/R" "like" false afterStream).

(** The document that the store then sends on the stream, as
    [JSON.parse] returns it. *)
Definition echoPayload : Json.json :=
  Json.JObj
    [("path", Json.JStr "/R");
     ("doc",
      Json.JObj
        [("msg", Json.JStr "hello");
         ("reactions",
          Json.JObj
            [(":smile:", Json.JArr []);
             (":like:", Json.JArr [Json.JStr "alice"]);
             (":frown:", Json.JArr []);
             (":celebrate:", Json.JArr [])])]);
     ("meta",
      Json.JObj
        [("createdBy", Json.JStr "carol");
         ("createdAt", Json.JNum 300 1);
         ("lastModifiedBy", Json.JStr "alice");
         ("lastModifiedAt", Json.JNum 400 1)])].

(** A payload without [meta]. *)
Definition malformedPayload : Json.json :=
  Json.JObj [("path", Json.JStr "/R"); ("doc", Json.JObj [])].

(** [JSON.parse] on the three texts used below. *)
Definition parse (text : string) : option Json.json :=
  if String.eqb text "echo" then Some echoPayload
  else if String.eqb text "malformed" then Some malformedPayload
  else None.

Definition echoMessage : ModelTs.EventSourceMessage :=
  ModelTs.mkMessage "8" "update" "echo".

Definition malformedMessage : ModelTs.EventSourceMessage :=
  ModelTs.mkMessage "9" "update" "malformed".

Definition keepAliveMessage : ModelTs.EventSourceMessage :=
  ModelTs.mkMessage "" "" "".

End Scenario.

(** ** Click handlers, random identifiers and the listeners that use them *)

Module Handlers.
Import PostComponent.

(** The alphabet of [genUniqueID] in [postTextComponent.ts]. *)
Definition characters : string :=
  "ABCDEFGHIJKLMNOPQRSTUVWXYZabcdefghijklmnopqrstuvwxyz".

(** [genUniqueID()].  [draws] are the values of
    [Math.floor(Math.random() * charactersLength)] in the order of the loop;
    their number is the drawn [length]. *)
Definition genUniqueID (draws : list Z) : string :=
  fold_left (fun result d => String.append result (Js.charAt characters d))
    draws "".

(** Letters of the two cases. *)
Definition isLetter (c : ascii) : bool :=
  ((65 <=? Js.code c) && (Js.code c <=? 90))
  || ((97 <=? Js.code c) && (Js.code c <=? 122)).

Fixpoint allLetters (s : string) : bool :=
  match s with
  | String c s' => isLetter c && allLetters s'
  | EmptyString => true
  end.

(** An identifier that [updatePosts] handles at all: one that [parseInt]
    reads a number from, or one whose last character is not a digit. *)
Definition handledId (id : string) : bool :=
  negb (Js.isNaN (Js.parseInt id))
  || Js.isNaN (Js.parseInt (Js.charAt id (Js.strlen id - 1))).

(** An identifier of the second kind only, which [updatePosts] remembers in
    [lastEventID]. *)
Definition localId (id : string) : bool :=
  Js.isNaN (Js.parseInt id)
  && Js.isNaN (Js.parseInt (Js.charAt id (Js.strlen id - 1))).

(** The detail of a [pinPostEvent] that the view reads. *)
Record PinPostEvent : Type := mkPinPostEvent {
  pinClicker : string;
  pinPath : string;
  pinPinned : bool
}.

(** [onPinClick] of the element [this]: the pin button is disabled and the
    event says whether the button has the class ["pinned"].  [clicker] is the
    text of [#username-header]. *)
Definition onPinClick (clicker : string) (this : oid) (st : PostView)
    : PinPostEvent * PostView :=
  let p := item st this in
  (mkPinPostEvent clicker (postPath p) (marked (pinButton p)),
   updateItem this
     (fun q => withPinButton (mkButton (marked (pinButton q)) true) q) st).

(** The listener of [pinPostEvent] in [main.ts] once [model.triggerPin] has
    resolved: [postView.togglePin(evt.detail.path, pinned)]; the message of
    an error goes to the error modal. *)
Definition pinPostResolved (evt : PinPostEvent) (st : PostView)
    : PostView * option string :=
  match PostViewTs.togglePin (pinPath evt) (pinPinned evt) st with
  | Ok _ st' => (st', None)
  | Throw msg st' => (st', Some msg)
  end.

(** The detail of a [reactEvent] that the view reads. *)
Record ReactEvent : Type := mkReactEvent {
  reactEmoji : string;
  reactClicker : string;
  reactPath : string;
  reactReacted : bool
}.

Definition emojiName (e : Emoji) : string :=
  match e with
  | Smile => "smile"
  | Like => "like"
  | Frown => "frown"
  | Celebrate => "celebrate"
  end.

(** [onSmileClick], [onLikeClick], [onFrownClick] and [onCelebrateClick] of
    the element [this], which differ in the button only: the button is
    disabled and the event says whether it has the class ["reacted"]. *)
Definition onReactionClick (e : Emoji) (clicker : string) (this : oid)
    (st : PostView) : ReactEvent * PostView :=
  let p := item st this in
  (mkReactEvent (emojiName e) clicker (postPath p)
     (marked (reactionButton e p)),
   updateItem this
     (fun q =>
        withReactionButton e (mkButton (marked (reactionButton e q)) true) q)
     st).

(** The listener of [reactEvent] in [main.ts] once [model.triggerReaction]
    has resolved: [postView.updateReactions(path, emoji, reacted)]. *)
Definition reactResolved (evt : ReactEvent) (st : PostView)
    : PostView * option string :=
  match PostViewTs.updateReactions (reactPath evt) (reactEmoji evt)
          (reactReacted evt) st with
  | Ok _ st' => (st', None)
  | Throw msg st' => (st', Some msg)
  end.

(** [successCreate(id)]: [true] when the submit button was enabled again,
    [false] after ["unsuccessful creation"] was reported. *)
Definition successCreate (id : string) : M bool :=
  fun st =>
    if negb (String.eqb id (lastEventID st))
    then Ok false (consoleError "unsuccessful creation" st)
    else Ok true st.

(** The listener of [createPostEvent] in [main.ts] once [model.createPost]
    has resolved with [response]: [updatePosts] with the identifier of the
    event, then [successCreate].  ([displayMainTextarea] in between works on
    the text area only.) *)
Definition createPostResolved (workspaceName channelName : string)
    (response : Doc.ViewPost) (eventID username : string) : M bool :=
  bind (PostViewTs.updatePosts workspaceName channelName response eventID
          username)
    (fun _ => successCreate eventID).

End Handlers.

(** ** Sequences of operations on the view *)

Module Session.
Import PostComponent.

(** The calls that [main.ts] makes on the post view. *)
Inductive Call : Type :=
| DisplayAllPosts (currUser workspace channel : string)
    (posts : list Doc.ViewPost)
| UpdatePosts (workspaceName channelName : string) (post : Doc.ViewPost)
    (id currentUser : string)
| UpdateReactions (postPath reaction : string) (reacted : bool)
| TogglePin (postPath : string) (pinned : bool).

Definition call (c : Call) : M unit :=
  match c with
  | DisplayAllPosts u w ch posts => PostViewTs.displayAllPosts u w ch posts
  | UpdatePosts w ch post id u => PostViewTs.updatePosts w ch post id u
  | UpdateReactions path reaction reacted =>
      PostViewTs.updateReactions path reaction reacted
  | TogglePin path pinned => PostViewTs.togglePin path pinned
  end.

(** The page after a sequence of calls; a call that throws leaves the page
    as it was when the exception was raised, and the next call goes on from
    there. *)
Definition run (calls : list Call) (st : PostView) : PostView :=
  fold_left (fun s c => stateOf (call c s)) calls st.

(** The fields of an element that are written by the constructor only. *)
Definition writtenOnce (p : PostItem)
    : string * string * Z * string * option Doc.Reactions * string * string
      * string :=
  (contents p, poster p, postTime p, postPath p, reactors p, workspace p,
   channel p, parent p).

(** [st'] has every element of [st], with the same constructor fields. *)
Definition extends (st st' : PostView) : Prop :=
  (length (heap st) <= length (heap st'))%nat
  /\ forall o, (o < length (heap st))%nat ->
       writtenOnce (item st' o) = writtenOnce (item st o).

(** Every count paragraph holds the empty string or the decimal numeral of
    a non-zero integer of magnitude [b] at most. *)
Definition canonicalCounts (b : Z) (st : PostView) : Prop :=
  forall o e,
    exists n, Z.abs n <= b /\ countText e (item st o) = Observe.renderCount n.

(** A step that keeps the count paragraphs so. *)
Definition keepsCanonical (b : Z) (st st' : PostView) : Prop :=
  canonicalCounts b st -> canonicalCounts b st'.

(** The four counts of a document satisfy [ok]. *)
Definition okPost (ok : list nat -> Prop) (post : Doc.ViewPost) : Prop :=
  ok (PostViewTs.getReactions (Doc.reactions (Doc.doc post))).

(** Every reaction array of the document has [b] names at most. *)
Definition reactionsWithin (b : Z) (post : Doc.ViewPost) : Prop :=
  okPost (Forall (fun n => Z.of_nat n <= b)) post.

(** The documents that a call hands to the view have such arrays. *)
Definition callWithin (b : Z) (c : Call) : Prop :=
  match c with
  | DisplayAllPosts _ _ _ posts => Forall (reactionsWithin b) posts
  | UpdatePosts _ _ post _ _ => reactionsWithin b post
  | UpdateReactions _ _ _ => True
  | TogglePin _ _ => True
  end.

(** No pin button has the class ["pinned"]. *)
Definition pinButtonsUnmarked (st : PostView) : Prop :=
  forall o, marked (pinButton (item st o)) = false.

(** [st'] has every element of [st] with the pin button it had, and the
    pin button of every other element is without the class ["pinned"]. *)
Definition keepsPinButtons (st st' : PostView) : Prop :=
  (length (heap st) <= length (heap st'))%nat
  /\ forall o,
       ((o < length (heap st))%nat ->
        pinButton (item st' o) = pinButton (item st o))
       /\ ((length (heap st) <= o)%nat ->
           marked (pinButton (item st' o)) = false).

(** A change of an element that leaves its constructor fields, its count
    paragraphs and its pin button alone. *)
Definition tame (p q : PostItem) : Prop :=
  writtenOnce q = writtenOnce p
  /\ (forall e, countText e q = countText e p)
  /\ pinButton q = pinButton p.

(** The position of a reaction in the array of [getReactions]. *)
Definition emojiIndex (e : Emoji) : nat :=
  match e with
  | Smile => 0
  | Like => 1
  | Frown => 2
  | Celebrate => 3
  end.

(** An element as the constructor leaves it for the counts
    [reactionNumbers], as far as the relations below look at it. *)
Definition builtFrom (reactionNumbers : list nat) (p : PostItem) : Prop :=
  pinButton p = mkButton false false
  /\ forall e,
       initialCount reactionNumbers (emojiIndex e) = Some (countText e p).

(** The final page of a computation is related to its first page. *)
Definition respects (R : PostView -> PostView -> Prop) {A : Type} (m : M A)
    : Prop :=
  forall st, R st (stateOf (m st)).

End Session.

(** ** Sequences of calls on the subscription *)

Module SubscriptionSession.
Import ModelTs.

Inductive Call : Type := Subscribe | Unsubscribe.

Definition call (c : Call) (m : Model) : Model :=
  match c with
  | Subscribe => subscribe m
  | Unsubscribe => unsubscribe m
  end.

Definition run (calls : list Call) (m : Model) : Model :=
  fold_left (fun s c => call c s) calls m.

End SubscriptionSession.

(** ** Orders *)

Module Order.

(** A list in non-decreasing order of [key]: every element is at most every
    later one. *)
Definition sortedBy {A : Type} (key : A -> Z) (l : list A) : Prop :=
  StronglySorted (fun a b => key a <= key b) l.

(** The test of [getPinnedPosts] on a post with a [pins] array. *)
Definition namesViewer (currUser : string) (pins : list string) : bool :=
  existsb (String.eqb currUser) pins && negb (String.eqb currUser "").

(** The decision of one turn of the loop of [getPinnedPosts]: [true] sends
    the post to the pinned array. *)
Definition pinnedDecision (currUser : string)
    (pinnedPosts : list Doc.ViewPost) (post : Doc.ViewPost) : bool :=
  match PostViewTs.pinsOf post with
  | Some pins => namesViewer currUser pins
  | None =>
      match Doc.parent (Doc.doc post) with
      | Some parent =>
          existsb (fun s => String.eqb (Doc.path s) parent) pinnedPosts
      | None => false
      end
  end.

(** A post that the loops of [displayAllPosts] take for a root. *)
Definition isTopLevel (p : Doc.ViewPost) : bool :=
  match PostViewTs.replyParent p with
  | Some _ => false
  | None => true
  end.

(** A reply whose parent is the path of none of [posts]. *)
Definition isOrphanIn (posts : list Doc.ViewPost) (p : Doc.ViewPost) : bool :=
  match PostViewTs.replyParent p with
  | Some parent =>
      negb (existsb (fun q => String.eqb parent (Doc.path q)) posts)
  | None => false
  end.

(** The posts at the roots of a forest, in the order of rendering. *)
Definition rootPosts (f : PostViewTs.Forest) : list Doc.ViewPost :=
  map (fun i => PostViewTs.post (nth i (PostViewTs.nodes f) PostViewTs.emptyTree))
    (PostViewTs.roots f).

(** The post of a node of a forest. *)
Definition postAt (trees : list PostViewTs.ViewPostTree) (i : nat)
    : Doc.ViewPost :=
  PostViewTs.post (nth i trees PostViewTs.emptyTree).

(** The node [j] is a child of the node [i]. *)
Definition edge (trees : list PostViewTs.ViewPostTree) (i j : nat) : Prop :=
  In j (PostViewTs.children (nth i trees PostViewTs.emptyTree)).

(** A chain of nodes from a node up to a root: every node is a child of the
    next one, and the last one is the node of a top-level post. *)
Inductive descends (trees : list PostViewTs.ViewPostTree)
    : list nat -> Prop :=
| descends_root (r : nat) :
    (r < length trees)%nat -> isTopLevel (postAt trees r) = true ->
    descends trees [r]
| descends_step (j i : nat) (rest : list nat) :
    descends trees (i :: rest) -> edge trees i j ->
    descends trees (j :: i :: rest).

(** The forest after the first loop of [displayAllPosts]: one node for
    every post and the path map, no root and no child yet. *)
Definition firstLoop (posts : list Doc.ViewPost) : PostViewTs.Forest :=
  fold_left PostViewTs.addNode posts (PostViewTs.mkForest [] [] [] []).

(** What the second loop keeps true of the forest it builds from [posts]:
    the nodes are the posts, the roots are top-level posts, and a child is a
    reply to the post of its parent. *)
Definition shaped (posts : list Doc.ViewPost) (f : PostViewTs.Forest)
    : Prop :=
  PostViewTs.pathToTree f = PostViewTs.pathToTree (firstLoop posts)
  /\ map PostViewTs.post (PostViewTs.nodes f) = posts
  /\ (forall r, In r (PostViewTs.roots f) ->
        exists p, nth_error posts r = Some p /\ isTopLevel p = true)
  /\ (forall i j, edge (PostViewTs.nodes f) i j ->
        exists p q, nth_error posts i = Some p /\ nth_error posts j = Some q
                    /\ PostViewTs.replyParent q = Some (Doc.path p)).

(** What the page shows of an element, and what a document says of it. *)
Definition shownAs (st : PostComponent.PostView) (o : PostComponent.oid)
    : string * Z :=
  (PostComponent.postPath (PostComponent.item st o),
   PostComponent.postTime (PostComponent.item st o)).

Definition docKey (p : Doc.ViewPost) : string * Z :=
  (Doc.path p, Doc.createdAt (Doc.meta p)).

End Order.

(** ** More concrete inputs *)

Module Cases.
Import PostComponent PostViewTs Observe.

(** A document of the stream: [laterRoot] after carol liked it. *)
Definition likedByCarol : Json.json :=
  Json.JObj
    [("path", Json.JStr "/R");
     ("doc",
      Json.JObj
        [("msg", Json.JStr "hello");
         ("reactions",
          Json.JObj
            [(":smile:", Json.JArr []);
             (":like:", Json.JArr [Json.JStr "carol"]);
             (":frown:", Json.JArr []);
             (":celebrate:", Json.JArr [])])]);
     ("meta",
      Json.JObj
        [("createdBy", Json.JStr "carol");
         ("createdAt", Json.JNum 300 1);
         ("lastModifiedBy", Json.JStr "carol");
         ("lastModifiedAt", Json.JNum 400 1)])].

(** The same document, last modified by jimbob. *)
Definition likedByJimbob : Json.json :=
  Json.JObj
    [("path", Json.JStr "/R");
     ("doc",
      Json.JObj
        [("msg", Json.JStr "hello");
         ("reactions",
          Json.JObj [(":like:", Json.JArr [Json.JStr "jimbob"])])]);
     ("meta",
      Json.JObj
        [("createdBy", Json.JStr "carol");
         ("createdAt", Json.JNum 300 1);
         ("lastModifiedBy", Json.JStr "jimbob");
         ("lastModifiedAt", Json.JNum 400 1)])].

Definition parse (text : string) : option Json.json :=
  if String.eqb text "carol" then Some likedByCarol
  else if String.eqb text "jimbob" then Some likedByJimbob
  else None.

Definition carolMessage : ModelTs.EventSourceMessage :=
  ModelTs.mkMessage "8" "update" "carol".

Definition jimbobMessage : ModelTs.EventSourceMessage :=
  ModelTs.mkMessage "9" "update" "jimbob".

(** [laterRoot] with one like, by carol, as a typed document. *)
Definition laterRootLiked : Doc.ViewPost :=
  mkPost "/R" None
    (Some (Doc.mkReactions (Some []) (Some ["carol"]) (Some []) (Some [])))
    None "carol" 300 "carol" 400.

(** A reply whose parent is nowhere, and a channel that holds it beside a
    thread of depth three and two other top-level posts. *)
Definition strayReply : Doc.ViewPost :=
  mkPost "/Z/1" (Some "/Z") None None "dave" 170 "dave" 170.

Definition channelPosts : list Doc.ViewPost :=
  [Scenario.laterRoot; Scenario.replyToReply; strayReply; Scenario.reply;
   Scenario.plainRoot; Scenario.earlierRoot].


(** The page that holds [laterRoot], with a like count of 2^53. *)
Definition crowdedPage : PostView :=
  updateItem 0%nat (withCountText Like "9007199254740992")
    Scenario.afterStream.

(** A document that names its own path as its parent. *)
Definition selfReply : Doc.ViewPost :=
  mkPost "/S" (Some "/S") None None "eve" 180 "eve" 180.

End Cases.

(** ** Facts about the JavaScript primitives *)

Module JsFacts.
Import Js.

Lemma substring_append_right (a b : string) :
  String.substring (String.length a) (String.length b) (String.append a b) = b.
Proof.
  induction a as [|c a IH]; simpl.
  - induction b as [|c b IH]; simpl; [reflexivity | now rewrite IH].
  - exact IH.
Qed.

Lemma length_append (a b : string) :
  String.length (String.append a b) = (String.length a + String.length b)%nat.
Proof. induction a as [|c a IH]; simpl; [reflexivity | now rewrite IH]. Qed.

(** A string ends with whatever was appended to it last. *)
Lemma endsWith_append (a b : string) : endsWith (String.append a b) b = true.
Proof.
  unfold endsWith. rewrite length_append.
  replace (String.length a + String.length b - String.length b)%nat
    with (String.length a) by lia.
  rewrite substring_append_right, String.eqb_refl.
  rewrite andb_true_r. apply Nat.leb_le. lia.
Qed.

Lemma decValue_digitChar (d : Z) :
  0 <= d < 10 -> decValue (digitChar d) = Some d.
Proof.
  intros H.
  assert (d = 0 \/ d = 1 \/ d = 2 \/ d = 3 \/ d = 4 \/ d = 5 \/ d = 6
          \/ d = 7 \/ d = 8 \/ d = 9) as Hd by lia.
  repeat (destruct Hd as [-> | Hd]; [reflexivity |]). now subst.
Qed.

Lemma isDigit_digitChar (d : Z) : 0 <= d < 10 -> isDigit (digitChar d) = true.
Proof.
  intros H. pose proof (decValue_digitChar d H) as Hv.
  unfold decValue in Hv. now destruct (isDigit (digitChar d)).
Qed.

(** Characters that are digits are neither white space, signs nor the
    marker of a hexadecimal numeral. *)
Lemma digit_is_plain (c : ascii) :
  isDigit c = true ->
  isWhiteSpace c = false /\ Ascii.eqb "-" c = false /\ Ascii.eqb "+" c = false
  /\ Ascii.eqb "x" c = false /\ Ascii.eqb "X" c = false.
Proof.
  intros H. unfold isDigit in H. apply andb_true_iff in H as [H1 H2].
  apply Z.leb_le in H1, H2.
  repeat split.
  - unfold isWhiteSpace. fold (code c).
    destruct (Z.leb_spec 9 (code c)), (Z.leb_spec (code c) 13),
      (Z.eqb_spec (code c) 32), (Z.eqb_spec (code c) 160); simpl; try reflexivity; lia.
  - destruct (Ascii.eqb_spec "-" c) as [<- | _]; [|reflexivity].
    vm_compute in H1. now contradiction H1.
  - destruct (Ascii.eqb_spec "+" c) as [<- | _]; [|reflexivity].
    vm_compute in H1. now contradiction H1.
  - destruct (Ascii.eqb_spec "x" c) as [<- | _]; [|reflexivity].
    vm_compute in H2. now contradiction H2.
  - destruct (Ascii.eqb_spec "X" c) as [<- | _]; [|reflexivity].
    vm_compute in H2. now contradiction H2.
Qed.

Lemma digitsOf_allDigits (fuel : nat) (n : Z) (acc : string) :
  0 <= n -> allDigits acc = true -> allDigits (digitsOf fuel n acc) = true.
Proof.
  revert n acc. induction fuel as [|f IH]; intros n acc Hn Hacc;
    cbn [digitsOf allDigits].
  - rewrite isDigit_digitChar, Hacc; [reflexivity|].
    apply Z.mod_pos_bound; lia.
  - destruct (n <? 10); cbn [allDigits].
    + rewrite isDigit_digitChar, Hacc; [reflexivity|].
      apply Z.mod_pos_bound; lia.
    + apply IH.
      * apply Z.div_pos; lia.
      * cbn [allDigits]. rewrite isDigit_digitChar, Hacc; [reflexivity|].
        apply Z.mod_pos_bound; lia.
Qed.

Lemma digitsOf_nonempty (fuel : nat) (n : Z) (acc : string) :
  digitsOf fuel n acc <> EmptyString.
Proof.
  revert n acc. induction fuel as [|f IH]; intros n acc; simpl.
  - discriminate.
  - destruct (n <? 10); [discriminate | apply IH].
Qed.

(** Reading back the digits written by [digitsOf]. *)
Lemma readDigits_digitsOf (fuel : nat) (n : Z) (rest : string) :
  0 <= n < 10 ^ (Z.of_nat fuel + 1) ->
  readDigits decValue 10 (digitsOf fuel n rest) None
  = readDigits decValue 10 rest (Some n).
Proof.
  revert n rest. induction fuel as [|f IH]; intros n rest Hn.
  - change (10 ^ (Z.of_nat 0 + 1)) with 10 in Hn. cbn [digitsOf readDigits].
    rewrite Z.mod_small by lia. now rewrite decValue_digitChar by lia.
  - cbn [digitsOf]. destruct (Z.ltb_spec n 10) as [Hlt | Hge].
    + cbn [readDigits]. rewrite Z.mod_small by lia.
      now rewrite decValue_digitChar by lia.
    + rewrite IH.
      * cbn [readDigits].
        rewrite decValue_digitChar by (apply Z.mod_pos_bound; lia).
        f_equal. f_equal. symmetry. apply Z.div_mod. lia.
      * split; [apply Z.div_pos; lia|].
        apply Z.div_lt_upper_bound; [lia|].
        replace (Z.of_nat (S f) + 1) with (Z.succ (Z.of_nat f + 1)) in Hn by lia.
        rewrite Z.pow_succ_r in Hn by lia. lia.
Qed.

Lemma enough_fuel (a : Z) :
  0 <= a -> 0 <= a < 10 ^ (Z.of_nat (Z.to_nat (Z.log2 a)) + 1).
Proof.
  intros Ha. split; [exact Ha|].
  rewrite Z2Nat.id by apply Z.log2_nonneg.
  destruct (Z.eq_dec a 0) as [-> | Hnz]; [reflexivity|].
  assert (a < 2 ^ Z.succ (Z.log2 a)) as H2 by (apply Z.log2_spec; lia).
  replace (Z.log2 a + 1) with (Z.succ (Z.log2 a)) by lia.
  eapply Z.lt_le_trans; [exact H2|].
  apply Z.pow_le_mono_l. lia.
Qed.

(** [parseInt] on a string of digits is its decimal value. *)
Lemma parseInt_allDigits (s : string) :
  allDigits s = true -> s <> EmptyString ->
  parseInt s = option_map (Z.mul 1) (readDigits decValue 10 s None).
Proof.
  intros Hall Hne. destruct s as [|c s]; [congruence|].
  simpl in Hall. apply andb_true_iff in Hall as [Hc Hs].
  destruct (digit_is_plain c Hc) as (Hw & Hm & Hp & _ & _).
  unfold parseInt. cbn [trimStart]. rewrite Hw.
  cbn [startsWith]. rewrite Hm, Hp. cbn [orb tail].
  assert (startsWith "x" s || startsWith "X" s = false) as Hx.
  { destruct s as [|c' s']; [reflexivity|]. simpl in Hs.
    apply andb_true_iff in Hs as [Hc' _].
    destruct (digit_is_plain c' Hc') as (_ & _ & _ & Hx1 & Hx2).
    cbn [startsWith]. now rewrite Hx1, Hx2. }
  rewrite Hx, andb_false_r. reflexivity.
Qed.

Lemma parseInt_digitsOf (a : Z) :
  0 <= a ->
  parseInt (digitsOf (Z.to_nat (Z.log2 a)) a "") = Some a.
Proof.
  intros Ha.
  rewrite parseInt_allDigits.
  - rewrite readDigits_digitsOf by now apply enough_fuel.
    cbn [readDigits option_map]. f_equal. lia.
  - now apply digitsOf_allDigits.
  - apply digitsOf_nonempty.
Qed.

(** [parseInt] reads a decimal numeral back. *)
Lemma parseInt_decimal (z : Z) : parseInt (decimal z) = Some z.
Proof.
  unfold decimal. destruct (Z.ltb_spec z 0) as [Hneg | Hpos].
  - assert (0 <= Z.abs z) as Ha by lia.
    pose proof (parseInt_digitsOf (Z.abs z) Ha) as Hd.
    set (ds := digitsOf (Z.to_nat (Z.log2 (Z.abs z))) (Z.abs z) "") in *.
    assert (allDigits ds = true) as Hall by (now apply digitsOf_allDigits).
    assert (ds <> EmptyString) as Hne by apply digitsOf_nonempty.
    rewrite parseInt_allDigits in Hd by assumption.
    destruct ds as [|c s]; [congruence|].
    simpl in Hall. apply andb_true_iff in Hall as [Hc Hs].
    destruct (digit_is_plain c Hc) as (_ & _ & _ & Hx1 & Hx2).
    unfold parseInt. cbn [trimStart isWhiteSpace].
    change (isWhiteSpace "-") with false. cbv iota.
    cbn [startsWith]. change (Ascii.eqb "-" "-") with true. cbn [orb tail].
    assert (startsWith "x" s || startsWith "X" s = false) as Hx.
    { destruct s as [|c' s']; [reflexivity|]. simpl in Hs.
      apply andb_true_iff in Hs as [Hc' _].
      destruct (digit_is_plain c' Hc') as (_ & _ & _ & Hy1 & Hy2).
      cbn [startsWith]. now rewrite Hy1, Hy2. }
    cbv zeta. cbn [startsWith tail]. rewrite Hx, andb_false_r.
    destruct (readDigits decValue 10 (String c s) None) as [v|];
      cbn [option_map] in Hd |- *; [|discriminate].
    injection Hd as Hv. f_equal. destruct v; lia.
  - rewrite Z.abs_eq by lia. now apply parseInt_digitsOf.
Qed.

(** The numeral of an integer is never the empty string. *)
Lemma decimal_nonempty (z : Z) : String.eqb (decimal z) "" = false.
Proof.
  unfold decimal. destruct (z <? 0); [reflexivity|].
  pose proof (digitsOf_nonempty (Z.to_nat (Z.log2 (Z.abs z))) (Z.abs z) "").
  now destruct (digitsOf _ _ _).
Qed.

(** *** Numbers up to [2 ^ 53] in magnitude *)

Lemma safe_bound (z : Z) : Z.abs z <= maxSafeInteger -> Z.abs z <= 2 ^ 53.
Proof. unfold maxSafeInteger. lia. Qed.

Lemma nearestDouble_safe (a : Z) : a <= 2 ^ 53 -> nearestDouble a = a.
Proof.
  intros H. unfold nearestDouble. apply Z.leb_le in H. now rewrite H.
Qed.

(** An integer up to [2 ^ 53] in magnitude is a Number. *)
Lemma toNumber_safe (z : Z) : Z.abs z <= 2 ^ 53 -> toNumber z = Num z.
Proof.
  intros H. unfold toNumber. rewrite nearestDouble_safe by exact H.
  assert (2 ^ 53 < 2 ^ 1024) as Hp by (apply Z.pow_lt_mono_r; lia).
  destruct (Z.leb_spec (2 ^ 1024) (Z.abs z)) as [Hbig | _]; [lia|].
  f_equal. destruct z; reflexivity.
Qed.

(** Such a Number is written as its decimal numeral. *)
Lemma toString_safe (z : Z) : Z.abs z <= 2 ^ 53 -> toString z = decimal z.
Proof.
  intros H. unfold toString. apply Z.leb_le in H. rewrite H.
  unfold decimal. rewrite Z.abs_idemp.
  destruct (Z.ltb_spec (Z.abs z) 0) as [Hneg | _]; [lia | reflexivity].
Qed.

(** [parseInt(x.toString())] is [x] for such a Number. *)
Lemma parseIntNumber_decimal (z : Z) :
  Z.abs z <= 2 ^ 53 -> parseIntNumber (decimal z) = Num z.
Proof.
  intros H. unfold parseIntNumber. rewrite parseInt_decimal.
  now apply toNumber_safe.
Qed.

End JsFacts.

Module JsonFacts.
Import Json.

Lemma required_prop (names : list string) (j : json) (k : string) :
  required names j = true -> In k names -> exists v, prop j k = Some v.
Proof.
  unfold required. rewrite forallb_forall. intros H Hin.
  specialize (H k Hin). destruct (prop j k) as [v|]; [now exists v | discriminate].
Qed.

Lemma property_holds (k : string) (schema : json -> bool) (j v : json) :
  property k schema j = true -> prop j k = Some v -> schema v = true.
Proof. unfold property. intros H Hp. now rewrite Hp in H. Qed.

Lemma isString_inv (v : json) : isString v = true -> exists s, v = JStr s.
Proof. destruct v; try discriminate. intros _. now eexists. Qed.

(** A value accepted by [isPostUpdate] is an object with a string [path], a
    [doc] accepted by [isPostBody] and a [meta] accepted by [isMetadata]. *)
Lemma isPostUpdate_fields (j : json) :
  isPostUpdate j = true ->
  exists p d m,
    prop j "path" = Some (JStr p)
    /\ prop j "doc" = Some d /\ isPostBody d = true
    /\ prop j "meta" = Some m /\ isMetadata m = true.
Proof.
  unfold isPostUpdate. intros H.
  apply andb_true_iff in H as [H _].
  apply andb_true_iff in H as [H Hmeta].
  apply andb_true_iff in H as [H Hdoc].
  apply andb_true_iff in H as [H Hpath].
  apply andb_true_iff in H as [_ Hreq].
  destruct (required_prop _ j "path" Hreq) as [vp Hp]; [simpl; tauto|].
  destruct (required_prop _ j "doc" Hreq) as [vd Hd]; [simpl; tauto|].
  destruct (required_prop _ j "meta" Hreq) as [vm Hm]; [simpl; tauto|].
  destruct (isString_inv vp (property_holds _ _ _ _ Hpath Hp)) as [p ->].
  exists p, vd, vm. repeat split; try assumption.
  - eapply property_holds; eassumption.
  - eapply property_holds; eassumption.
Qed.

(** The [lastModifiedBy] of accepted metadata is the string stored there. *)
Lemma isMetadata_lastModifiedBy (m : json) :
  isMetadata m = true ->
  prop m "lastModifiedBy"
  = Some (JStr (Doc.lastModifiedBy (Doc.readMetadata m))).
Proof.
  unfold isMetadata. intros H.
  apply andb_true_iff in H as [H _].
  apply andb_true_iff in H as [H _].
  apply andb_true_iff in H as [H Hby].
  apply andb_true_iff in H as [H _].
  apply andb_true_iff in H as [H _].
  apply andb_true_iff in H as [_ Hreq].
  destruct (required_prop _ m "lastModifiedBy" Hreq) as [v Hv]; [simpl; tauto|].
  destruct (isString_inv v (property_holds _ _ _ _ Hby Hv)) as [s ->].
  unfold Doc.readMetadata. cbn [Doc.lastModifiedBy]. now rewrite Hv.
Qed.

End JsonFacts.

(** ** The stream: validation and the echo of the client's own changes *)

Module StreamProps.
Import ModelTs MainTs PostComponent.

(** When [onmessage] dispatches, the message was an ["update"] with an
    accepted payload, and the event carries the payload and the identifier of
    the message followed by [meta.lastModifiedBy]. *)
Lemma onmessage_dispatched (JSON_parse : string -> option Json.json)
    (msg : EventSourceMessage) (evt : UpdatePostEvent) :
  onmessage JSON_parse msg = Dispatched evt ->
  event msg = "update"
  /\ exists payload,
       JSON_parse (data msg) = Some payload
       /\ Json.isPostUpdate payload = true
       /\ evt = mkUpdatePostEvent
                  (String.append (id msg)
                     (Doc.lastModifiedBy (Doc.meta (Doc.readPostUpdate payload))))
                  (Doc.readPostUpdate payload).
Proof.
  unfold onmessage.
  destruct (String.eqb_spec (event msg) "update") as [He | He]; cbn [negb];
    [|discriminate].
  destruct (JSON_parse (data msg)) as [payload|]; [|discriminate].
  destruct (Json.isPostUpdate payload) eqn:Hv; [|discriminate].
  intros [= <-]. split; [exact He|]. now exists payload.
Qed.

(** **** C9 *)

(** C9. The handler of the subscription applies a message of the stream only
    when its event type is exactly ["update"] and its parsed payload is
    accepted by the [PostUpdate] schema, which requires [path], [doc] and
    [meta]: [onmessage] dispatches in that case and in no other, and a
    message that is not dispatched leaves the page as it was. *)
Theorem C9_stream_input_validation
    (JSON_parse : string -> option Json.json)
    (username workspaceName channelName : string)
    (msg : EventSourceMessage) (st : PostView) :
  ((exists evt, onmessage JSON_parse msg = Dispatched evt)
   <-> (event msg = "update"
        /\ exists payload,
             JSON_parse (data msg) = Some payload
             /\ Json.isPostUpdate payload = true
             /\ exists p d m,
                  Json.prop payload "path" = Some (Json.JStr p)
                  /\ Json.prop payload "doc" = Some d
                  /\ Json.prop payload "meta" = Some m))
  /\ ((forall evt, onmessage JSON_parse msg <> Dispatched evt) ->
      deliver JSON_parse username workspaceName channelName msg st = st).
Proof.
  split; [split|].
  - intros [evt Hevt].
    destruct (onmessage_dispatched _ _ _ Hevt) as (He & payload & Hp & Hv & _).
    split; [exact He|]. exists payload. repeat split; try assumption.
    destruct (JsonFacts.isPostUpdate_fields payload Hv)
      as (p & d & m & H1 & H2 & _ & H3 & _).
    now exists p, d, m.
  - intros (He & payload & Hp & Hv & _).
    unfold onmessage. rewrite He, Hp, Hv. cbn. now eexists.
  - intros Hno. unfold deliver.
    destruct (onmessage JSON_parse msg) as [|evt| |] eqn:Hm; try reflexivity.
    now contradiction (Hno evt).
Qed.

(** **** C3 *)

(** C3. An update of the stream whose identifier attributes the change to the
    logged-in user, that is, whose [meta.lastModifiedBy] is the user name that
    [onmessage] appends to the identifier, is discarded by the listener: the
    page, with its stored reaction sets and displayed counts, stays exactly
    as the local update left it, and no error is shown. *)
Theorem C3_self_echo_suppressed
    (JSON_parse : string -> option Json.json)
    (username workspaceName channelName : string)
    (msg : EventSourceMessage) (payload : Json.json) (st : PostView) :
  event msg = "update" ->
  JSON_parse (data msg) = Some payload ->
  Json.isPostUpdate payload = true ->
  Doc.lastModifiedBy (Doc.meta (Doc.readPostUpdate payload)) = username ->
  (exists evt,
     onmessage JSON_parse msg = Dispatched evt
     /\ updatePostEventListener username workspaceName channelName evt st
        = (st, None))
  /\ deliver JSON_parse username workspaceName channelName msg st = st.
Proof.
  intros He Hp Hv Hu.
  assert (onmessage JSON_parse msg
          = Dispatched
              (mkUpdatePostEvent (String.append (id msg) username)
                 (Doc.readPostUpdate payload))) as Hm.
  { unfold onmessage. now rewrite He, Hp, Hv, Hu. }
  assert (forall evt,
            evt = mkUpdatePostEvent (String.append (id msg) username)
                    (Doc.readPostUpdate payload) ->
            updatePostEventListener username workspaceName channelName evt st
            = (st, None)) as Hl.
  { intros evt ->. unfold updatePostEventListener. cbn [detailId].
    now rewrite JsFacts.endsWith_append. }
  split.
  - eexists. split; [exact Hm | now apply Hl].
  - unfold deliver. rewrite Hm. now rewrite Hl.
Qed.

End StreamProps.

(** ** The subscription life cycle *)

Module SubscriptionProps.
Import ModelTs MainTs.

Lemma unsubscribe_tracked (m : Model) :
  tracked m -> connections (unsubscribe m) = [].
Proof.
  unfold tracked, unsubscribe. intros H.
  destruct (controller m) as [c|] eqn:Hc; cbn [connections].
  - induction (connections m) as [|s l IH]; [reflexivity|].
    cbn [filter]. assert (Some c = Some s) as [= ->] by (apply H; now left).
    rewrite Nat.eqb_refl. cbn [negb]. apply IH.
    intros s' Hs'. apply H. now right.
  - destruct (connections m) as [|s l]; [reflexivity|].
    discriminate (H s (or_introl eq_refl)).
Qed.

(** [subscribe] does not cancel the stream that is active: two calls in a
    row from the initial model leave two open connections, and the
    controller of the first one is no longer held. *)
Lemma subscribe_twice_leaves_two_streams :
  connections (subscribe (subscribe initModel)) = [0%nat; 1%nat]
  /\ controller (subscribe (subscribe initModel)) = Some 1%nat
  /\ ~ (length (connections (subscribe (subscribe initModel))) <= 1)%nat.
Proof. repeat split. cbn. lia. Qed.

(** The listener of [displayChannelEvent] calls [unsubscribe] before
    [subscribe].  From a model in which every open connection is the one
    held in [controller], it leaves exactly one open connection, the new
    one, again held in [controller]. *)
Lemma displayChannel_leaves_one_stream (m : Model) :
  tracked m ->
  connections (displayChannelEventSubscription m) = [constructed m]
  /\ controller (displayChannelEventSubscription m) = Some (constructed m)
  /\ tracked (displayChannelEventSubscription m)
  /\ connections (unsubscribe m) = []
  /\ (controller m = None -> unsubscribe m = m).
Proof.
  intros H. pose proof (unsubscribe_tracked m H) as Hu.
  unfold displayChannelEventSubscription, subscribe.
  cbn [connections controller]. rewrite Hu.
  assert (constructed (unsubscribe m) = constructed m) as ->.
  { unfold unsubscribe. now destruct (controller m). }
  repeat split.
  - intros s [<- | []]. reflexivity.
  - intros Hnone. unfold unsubscribe. rewrite Hnone. destruct m as [c n l].
    cbn in *. now subst.
Qed.

Lemma constructed_unsubscribe (m : Model) :
  constructed (unsubscribe m) = constructed m.
Proof. unfold unsubscribe. now destruct (controller m). Qed.

Lemma controller_unsubscribe (m : Model) : controller (unsubscribe m) = None.
Proof. unfold unsubscribe. now destruct (controller m). Qed.

(** **** C7 *)

(** C7 fails in the program.  The listener of [createChannelEvent] calls
    [unsubscribe] at once and [subscribe] only when the store has answered,
    with no [unsubscribe] in front of it.  When the user opens another
    channel in between, the listener of [displayChannelEvent] opens a stream,
    and the answer then opens a second one without closing the first: from
    every model two streams are open afterwards, the controller of the first
    is no longer held, and a later [unsubscribe] leaves it open.  On the page
    that shows one channel these are the streams 1 and 2. *)
Theorem C7_channel_creation_race_leaves_two_streams (m : Model) :
  let race := [CreateChannelEvent; DisplayChannelEvent; CreateChannelAnswer] in
  In (constructed m) (connections (turns race m))
  /\ In (S (constructed m)) (connections (turns race m))
  /\ controller (turns race m) = Some (S (constructed m))
  /\ In (constructed m) (connections (unsubscribe (turns race m)))
  /\ connections (turns [DisplayChannelEvent] initModel) = [0%nat]
  /\ connections (turns (DisplayChannelEvent :: race) initModel)
     = [1%nat; 2%nat]
  /\ connections (unsubscribe (turns (DisplayChannelEvent :: race) initModel))
     = [1%nat].
Proof.
  cbv zeta. unfold turns. cbn [fold_left turn].
  unfold createChannelResolved, displayChannelEventSubscription,
    createChannelEventHandled.
  set (m1 := unsubscribe (unsubscribe m)).
  assert (constructed m1 = constructed m) as Hc
    by (unfold m1; now rewrite !constructed_unsubscribe).
  split.
  { unfold subscribe. cbn [connections constructed]. rewrite Hc.
    apply in_or_app. left. apply in_or_app. right. now left. }
  split.
  { unfold subscribe. cbn [connections constructed]. rewrite Hc.
    apply in_or_app. right. now left. }
  split.
  { unfold subscribe. cbn [controller constructed]. now rewrite Hc. }
  split.
  { unfold unsubscribe at 1. unfold subscribe.
    cbn [controller connections constructed]. rewrite Hc.
    apply filter_In. split.
    - apply in_or_app. left. apply in_or_app. right. now left.
    - destruct (Nat.eqb_spec (constructed m) (S (constructed m))); [lia|].
      reflexivity. }
  repeat split.
Qed.

End SubscriptionProps.

(** ** Facts about the store of [PostItem] objects *)

Module StoreFacts.
Import PostComponent.

Lemma nth_updateNth {A : Type} (f : A -> A) (d : A) (l : list A) (n n' : nat) :
  nth n' (updateNth n f l) d
  = if Nat.eqb n' n && Nat.ltb n (length l) then f (nth n l d) else nth n' l d.
Proof.
  revert n n'. induction l as [|x l IH]; intros n n'.
  - destruct n; cbn [updateNth length]; rewrite andb_false_r; reflexivity.
  - destruct n as [|n], n' as [|n']; cbn [updateNth nth length]; try reflexivity.
    rewrite IH. reflexivity.
Qed.

Lemma item_updateItem (f : PostItem -> PostItem) (st : PostView) (o o' : oid) :
  item (updateItem o f st) o'
  = if Nat.eqb o' o && Nat.ltb o (length (heap st))
    then f (item st o) else item st o'.
Proof. unfold item, updateItem. cbn [heap withHeap]. apply nth_updateNth. Qed.

Lemma item_updateItem_same (f : PostItem -> PostItem) (st : PostView) (o : oid) :
  (o < length (heap st))%nat -> item (updateItem o f st) o = f (item st o).
Proof.
  intros H. rewrite item_updateItem, Nat.eqb_refl.
  apply Nat.ltb_lt in H. now rewrite H.
Qed.

Lemma item_updateItem_other (f : PostItem -> PostItem) (st : PostView)
    (o o' : oid) :
  o' <> o -> item (updateItem o f st) o' = item st o'.
Proof.
  intros H. rewrite item_updateItem.
  apply Nat.eqb_neq in H. now rewrite H.
Qed.

Lemma length_updateNth {A : Type} (f : A -> A) (l : list A) (n : nat) :
  length (updateNth n f l) = length l.
Proof.
  revert n. induction l as [|x l IH]; intros [|n]; cbn [updateNth length];
    try reflexivity.
  now rewrite IH.
Qed.

Lemma countText_enablePostButton (reaction : string) (e : Emoji) (p : PostItem) :
  countText e (enablePostButton reaction p) = countText e p.
Proof.
  unfold enablePostButton.
  destruct (emojiOfName reaction) as [e'|];
    [|destruct (String.eqb reaction "pin")]; now destruct e.
Qed.

Lemma reactors_enablePostButton (reaction : string) (p : PostItem) :
  reactors (enablePostButton reaction p) = reactors p.
Proof.
  unfold enablePostButton.
  destruct (emojiOfName reaction) as [e'|];
    [|destruct (String.eqb reaction "pin")]; reflexivity.
Qed.

Lemma countText_withCountText (e e' : Emoji) (t : string) (p : PostItem) :
  countText e' (withCountText e t p)
  = if match e, e' with
       | Smile, Smile | Like, Like | Frown, Frown | Celebrate, Celebrate => true
       | _, _ => false
       end
    then t else countText e' p.
Proof. now destruct e, e'. Qed.

(** The count texts written by the constructor for arrays of at most
    [2 ^ 53] names are canonical. *)
Lemma initialCount_canonical (reactionNumbers : list nat) (i : nat) (t : string)
    (b : Z) :
  Forall (fun n => Z.of_nat n <= b) reactionNumbers ->
  b <= 2 ^ 53 ->
  initialCount reactionNumbers i = Some t ->
  exists n, 0 <= n <= b /\ t = Observe.renderCount n.
Proof.
  intros Hall Hb. unfold initialCount.
  destruct (nth_error reactionNumbers i) as [k|] eqn:Hk; [|discriminate].
  assert (Z.of_nat k <= b) as Hle.
  { rewrite Forall_forall in Hall. apply Hall. eapply nth_error_In, Hk. }
  destruct k as [|k]; intros [= <-].
  - exists 0. split; [lia | reflexivity].
  - exists (Z.of_nat (S k)). split; [lia|]. unfold Observe.renderCount.
    destruct (Z.eqb_spec (Z.of_nat (S k)) 0) as [H0 | _]; [lia|].
    rewrite JsFacts.toNumber_safe by lia. cbn [Js.numberToString].
    apply JsFacts.toString_safe. lia.
Qed.

End StoreFacts.

(** ** Local reactions *)

Module ReactionProps.
Import PostComponent PostViewTs Observe StoreFacts.

(** The element that [updateReactions] works on, and what it does to it. *)
Lemma updateReactions_ok (st : PostView) (postPath reaction : string)
    (reacted : bool) (postElem : oid) (e : Emoji) :
  match Js.get (allPostMapping st) postPath with
  | Some x => Some x
  | None => Js.get (pinnedPostMapping st) postPath
  end = Some postElem ->
  emojiOfName reaction = Some e ->
  updateReactions postPath reaction reacted st
  = let currCount :=
      Js.addInteger
        (if negb (String.eqb (countText e (item st postElem)) "")
         then Js.parseIntNumber (countText e (item st postElem))
         else Js.Num 0)
        (if reacted then -1 else 1) in
    Ok tt
      (updateItem postElem
         (fun p =>
            enablePostButton reaction
              (withCountText e
                 (if Js.isZero currCount then ""
                  else Js.numberToString currCount)
                 (withReactionButton e
                    (mkButton (negb reacted) (disabled (reactionButton e p)))
                    p)))
         st).
Proof.
  intros Hfound He. unfold updateReactions. rewrite Hfound, He. reflexivity.
Qed.

Lemma parse_renderCount (n : Z) :
  Z.abs n <= 2 ^ 53 ->
  (if negb (String.eqb (renderCount n) "")
   then Js.parseIntNumber (renderCount n) else Js.Num 0) = Js.Num n.
Proof.
  intros Hn. unfold renderCount.
  destruct (Z.eqb_spec n 0) as [-> | Hnz]; [reflexivity|].
  rewrite JsFacts.decimal_nonempty. cbn [negb].
  now apply JsFacts.parseIntNumber_decimal.
Qed.

Lemma text_renderCount (m : Z) :
  Z.abs m <= 2 ^ 53 ->
  (if Js.isZero (Js.Num m) then "" else Js.numberToString (Js.Num m))
  = renderCount m.
Proof.
  intros Hm. unfold renderCount, Js.isZero.
  destruct (Z.eqb_spec m 0) as [-> | Hnz]; [reflexivity|].
  cbn [Js.numberToString]. rewrite JsFacts.toString_safe by exact Hm.
  now destruct m.
Qed.

(** One more or one less is computed exactly when it is a Number. *)
Lemma addInteger_exact (n : Z) (reacted : bool) :
  Z.abs (if reacted then n - 1 else n + 1) <= 2 ^ 53 ->
  Js.addInteger (Js.Num n) (if reacted then -1 else 1)
  = Js.Num (if reacted then n - 1 else n + 1).
Proof.
  intros H. cbn [Js.addInteger]. destruct reacted.
  - replace (n + -1) with (n - 1) by lia. now apply JsFacts.toNumber_safe.
  - now apply JsFacts.toNumber_safe.
Qed.

(** One more or one less than a safe integer is computed exactly. *)
Lemma addInteger_safe (n : Z) (reacted : bool) :
  Z.abs n <= Js.maxSafeInteger ->
  Js.addInteger (Js.Num n) (if reacted then -1 else 1)
  = Js.Num (if reacted then n - 1 else n + 1)
  /\ Z.abs (if reacted then n - 1 else n + 1) <= 2 ^ 53.
Proof.
  intros Hn. unfold Js.maxSafeInteger in Hn. cbn [Js.addInteger].
  destruct reacted.
  - replace (n + -1) with (n - 1) by lia.
    split; [apply JsFacts.toNumber_safe|]; lia.
  - split; [apply JsFacts.toNumber_safe|]; lia.
Qed.

(** One call on a canonical count that is a safe integer. *)
Lemma updateReactions_step (st : PostView) (postPath reaction : string)
    (reacted : bool) (o : oid) (e : Emoji) (n : Z) :
  match Js.get (allPostMapping st) postPath with
  | Some x => Some x
  | None => Js.get (pinnedPostMapping st) postPath
  end = Some o ->
  emojiOfName reaction = Some e ->
  (o < length (heap st))%nat ->
  countText e (item st o) = renderCount n ->
  Z.abs n <= Js.maxSafeInteger ->
  exists st',
    updateReactions postPath reaction reacted st = Ok tt st'
    /\ countText e (item st' o) = renderCount (if reacted then n - 1 else n + 1)
    /\ marked (reactionButton e (item st' o)) = negb reacted
    /\ (forall e', e' <> e ->
          countText e' (item st' o) = countText e' (item st o)
          /\ reactionButton e' (item st' o) = reactionButton e' (item st o))
    /\ (forall o', o' <> o -> item st' o' = item st o')
    /\ (forall o', reactors (item st' o') = reactors (item st o'))
    /\ length (heap st') = length (heap st)
    /\ allPostMapping st' = allPostMapping st
    /\ pinnedPostMapping st' = pinnedPostMapping st
    /\ postArea st' = postArea st.
Proof.
  intros Hfound He Hlt Hcount Hsafe.
  rewrite (updateReactions_ok st postPath reaction reacted o e Hfound He).
  destruct (addInteger_safe n reacted Hsafe) as [Hadd Hnext].
  cbv zeta. rewrite Hcount, parse_renderCount by now apply JsFacts.safe_bound.
  rewrite Hadd, text_renderCount by exact Hnext.
  eexists. split; [reflexivity|].
  rewrite item_updateItem_same by exact Hlt.
  split; [rewrite countText_enablePostButton, countText_withCountText;
          now destruct e|].
  split; [unfold enablePostButton; rewrite He; now destruct e|].
  split.
  { intros e' Hne. split.
    - rewrite countText_enablePostButton, countText_withCountText.
      destruct e, e'; try reflexivity; congruence.
    - unfold enablePostButton. rewrite He.
      destruct e, e'; try reflexivity; congruence. }
  split; [intros o' Hne; now apply item_updateItem_other|].
  split.
  { intros o'. rewrite item_updateItem.
    destruct (Nat.eqb_spec o' o) as [-> | Hne]; cbn [andb]; [|reflexivity].
    destruct (Nat.ltb o (length (heap st))); [|reflexivity].
    now rewrite reactors_enablePostButton. }
  split; [apply length_updateNth|].
  repeat split.
Qed.

(** **** C8 *)

(** C8. For a post of either map, one of the four reactions and a count
    paragraph that holds the empty string or the numeral of a safe integer,
    [updateReactions] with [reacted = false] followed by [updateReactions]
    with [reacted = true] on the same post and reaction brings the displayed
    count back to its value.  In between the count is one higher and the
    button has the class ["reacted"]; at the end the button is without it, as
    it is for a user who has not reacted.  The stored reaction sets, the
    other counts and buttons of the post, every other element and the maps
    are the same throughout.  Beyond the safe integers the addition rounds
    and the count does not come back. *)
Theorem C8_react_then_unreact (st : PostView) (postPath reaction : string)
    (o : oid) (e : Emoji) (n : Z) :
  match Js.get (allPostMapping st) postPath with
  | Some x => Some x
  | None => Js.get (pinnedPostMapping st) postPath
  end = Some o ->
  emojiOfName reaction = Some e ->
  (o < length (heap st))%nat ->
  countText e (item st o) = renderCount n ->
  Z.abs n <= Js.maxSafeInteger ->
  exists st1 st2,
    updateReactions postPath reaction false st = Ok tt st1
    /\ updateReactions postPath reaction true st1 = Ok tt st2
    /\ countText e (item st1 o) = renderCount (n + 1)
    /\ marked (reactionButton e (item st1 o)) = true
    /\ marked (reactionButton e (item st2 o)) = false
    /\ (forall o' e', countText e' (item st2 o') = countText e' (item st o'))
    /\ (forall e', e' <> e ->
          reactionButton e' (item st2 o) = reactionButton e' (item st o))
    /\ (forall o', o' <> o -> item st2 o' = item st o')
    /\ (forall o', reactors (item st2 o') = reactors (item st o'))
    /\ allPostMapping st2 = allPostMapping st
    /\ pinnedPostMapping st2 = pinnedPostMapping st
    /\ postArea st2 = postArea st.
Proof.
  intros Hfound He Hlt Hcount Hsafe.
  destruct (updateReactions_step st postPath reaction false o e n
              Hfound He Hlt Hcount Hsafe)
    as (st1 & Hrun1 & Hc1 & Hm1 & Hoth1 & Hobj1 & Hre1 & Hlen1 & Hall1 & Hpin1
        & Har1).
  assert (match Js.get (allPostMapping st1) postPath with
          | Some x => Some x
          | None => Js.get (pinnedPostMapping st1) postPath
          end = Some o) as Hfound1 by now rewrite Hall1, Hpin1.
  assert (o < length (heap st1))%nat as Hlt1 by now rewrite Hlen1.
  assert (exists st2,
            updateReactions postPath reaction true st1 = Ok tt st2
            /\ countText e (item st2 o) = renderCount n
            /\ marked (reactionButton e (item st2 o)) = false
            /\ (forall e', e' <> e ->
                  countText e' (item st2 o) = countText e' (item st1 o)
                  /\ reactionButton e' (item st2 o)
                     = reactionButton e' (item st1 o))
            /\ (forall o', o' <> o -> item st2 o' = item st1 o')
            /\ (forall o', reactors (item st2 o') = reactors (item st1 o'))
            /\ allPostMapping st2 = allPostMapping st1
            /\ pinnedPostMapping st2 = pinnedPostMapping st1
            /\ postArea st2 = postArea st1)
    as (st2 & Hrun2 & Hc2 & Hm2 & Hoth2 & Hobj2 & Hre2 & Hall2 & Hpin2 & Har2).
  { unfold Js.maxSafeInteger in Hsafe.
    destruct (Z.eq_dec n (2 ^ 53 - 1)) as [Htop | Hlow].
    - (* the count in between is [2 ^ 53], from which [- 1] is exact *)
      rewrite (updateReactions_ok st1 postPath reaction true o e Hfound1 He).
      cbv zeta. rewrite Hc1, parse_renderCount by lia.
      cbn [Js.addInteger]. replace (n + 1 + -1) with n by lia.
      rewrite JsFacts.toNumber_safe by lia.
      rewrite text_renderCount by lia.
      eexists. split; [reflexivity|].
      rewrite item_updateItem_same by exact Hlt1.
      split; [rewrite countText_enablePostButton, countText_withCountText;
              now destruct e|].
      split; [unfold enablePostButton; rewrite He; now destruct e|].
      split.
      { intros e' Hne. split.
        - rewrite countText_enablePostButton, countText_withCountText.
          destruct e, e'; try reflexivity; congruence.
        - unfold enablePostButton. rewrite He.
          destruct e, e'; try reflexivity; congruence. }
      split; [intros o' Hne; now apply item_updateItem_other|].
      split.
      { intros o'. rewrite item_updateItem.
        destruct (Nat.eqb_spec o' o) as [-> | Hne]; cbn [andb]; [|reflexivity].
        destruct (Nat.ltb o (length (heap st1))); [|reflexivity].
        now rewrite reactors_enablePostButton. }
      repeat split.
    - assert (Z.abs (n + 1) <= Js.maxSafeInteger) as Hsafe1
        by (unfold Js.maxSafeInteger; lia).
      destruct (updateReactions_step st1 postPath reaction true o e (n + 1)
                  Hfound1 He Hlt1 Hc1 Hsafe1)
        as (st2 & Hrun2 & Hc2 & Hm2 & Hoth2 & Hobj2 & Hre2 & _ & Hall2 & Hpin2
            & Har2).
      exists st2. replace (n + 1 - 1) with n in Hc2 by lia.
      repeat (split; [assumption|]). assumption. }
  exists st1, st2.
  split; [exact Hrun1|]. split; [exact Hrun2|]. split; [exact Hc1|].
  split; [exact Hm1|]. split; [exact Hm2|].
  split.
  { intros o' e'. destruct (Nat.eq_dec o' o) as [-> | Hne].
    - assert ({e' = e} + {e' <> e}) as [-> | Hne]
        by (destruct e, e'; (now left) || (right; discriminate)).
      + now rewrite Hc2, Hcount.
      + now rewrite (proj1 (Hoth2 e' Hne)), (proj1 (Hoth1 e' Hne)).
    - now rewrite Hobj2, Hobj1. }
  split.
  { intros e' Hne.
    now rewrite (proj2 (Hoth2 e' Hne)), (proj2 (Hoth1 e' Hne)). }
  split; [intros o' Hne; now rewrite Hobj2, Hobj1|].
  split; [intros o'; now rewrite Hre2, Hre1|].
  repeat split; congruence.
Qed.

End ReactionProps.

(** ** Looking a path up for a local reaction *)

Module LookupProps.
Import PostComponent PostViewTs Observe StoreFacts.

Lemma marked_after_update (reaction : string) (e : Emoji) (t : string)
    (b : bool) (p : PostItem) :
  emojiOfName reaction = Some e ->
  marked (reactionButton e
            (enablePostButton reaction
               (withCountText e t
                  (withReactionButton e
                     (mkButton b (disabled (reactionButton e p))) p))))
  = b.
Proof.
  intros He. unfold enablePostButton. rewrite He. now destruct e.
Qed.

(** **** C10 *)

(** C10. [updateReactions] on a path that neither map holds throws and
    leaves the page as it was.  A path that [allPostMapping] holds is
    resolved there, whatever [pinnedPostMapping] holds for it; the pinned map
    is consulted only when the general map has no entry.  The resolved
    element gets the class change, every other element is untouched. *)
Theorem C10_updateReactions_lookup (st : PostView) (postPath reaction : string)
    (reacted : bool) :
  (Js.get (allPostMapping st) postPath = None ->
   Js.get (pinnedPostMapping st) postPath = None ->
   updateReactions postPath reaction reacted st
   = Throw "The post with the specified path is undefined" st)
  /\ (forall o e,
        Js.get (allPostMapping st) postPath = Some o ->
        emojiOfName reaction = Some e ->
        (o < length (heap st))%nat ->
        exists st',
          updateReactions postPath reaction reacted st = Ok tt st'
          /\ marked (reactionButton e (item st' o)) = negb reacted
          /\ forall o', o' <> o -> item st' o' = item st o')
  /\ (forall o e,
        Js.get (allPostMapping st) postPath = None ->
        Js.get (pinnedPostMapping st) postPath = Some o ->
        emojiOfName reaction = Some e ->
        (o < length (heap st))%nat ->
        exists st',
          updateReactions postPath reaction reacted st = Ok tt st'
          /\ marked (reactionButton e (item st' o)) = negb reacted
          /\ forall o', o' <> o -> item st' o' = item st o').
Proof.
  split; [|split].
  - intros Hall Hpin. unfold updateReactions. now rewrite Hall, Hpin.
  - intros o e Hall He Hlt.
    rewrite (ReactionProps.updateReactions_ok st postPath reaction reacted o e)
      by (now rewrite Hall || exact He).
    cbv zeta. eexists. split; [reflexivity|]. split.
    + rewrite item_updateItem_same by exact Hlt. now apply marked_after_update.
    + intros o' Hne. now apply item_updateItem_other.
  - intros o e Hall Hpin He Hlt.
    rewrite (ReactionProps.updateReactions_ok st postPath reaction reacted o e)
      by (now rewrite Hall, Hpin || exact He).
    cbv zeta. eexists. split; [reflexivity|]. split.
    + rewrite item_updateItem_same by exact Hlt. now apply marked_after_update.
    + intros o' Hne. now apply item_updateItem_other.
Qed.

(** C10 on the page where ["/A"] is in both maps, element 1 in the general
    one and element 0 in the pinned one, and on a path in neither. *)
Lemma C10_updateReactions_lookup_witness :
  Js.get (allPostMapping Scenario.afterDuplicate) "/A" = Some 1%nat
  /\ Js.get (pinnedPostMapping Scenario.afterDuplicate) "/A" = Some 0%nat
  /\ (exists st',
        updateReactions "/A" "like" false Scenario.afterDuplicate = Ok tt st'
        /\ marked (reactionButton Like (item st' 1%nat)) = true
        /\ forall o', o' <> 1%nat ->
             item st' o' = item Scenario.afterDuplicate o')
  /\ updateReactions "/nowhere" "like" false Scenario.afterDuplicate
     = Throw "The post with the specified path is undefined"
         Scenario.afterDuplicate.
Proof.
  split; [reflexivity|]. split; [reflexivity|]. split.
  - apply (proj1 (proj2 (C10_updateReactions_lookup Scenario.afterDuplicate
                           "/A" "like" false)) 1%nat Like);
      [reflexivity | reflexivity | vm_compute; lia].
  - apply (proj1 (C10_updateReactions_lookup Scenario.afterDuplicate
                    "/nowhere" "like" false)); reflexivity.
Defined.

End LookupProps.

Module ReactionWitness.
Import PostComponent PostViewTs Observe.

(** C8 on the page that holds [laterRoot], for the reaction ["like"]. *)
Lemma C8_react_then_unreact_witness :
  (match Js.get (allPostMapping Scenario.afterStream) "/R" with
   | Some x => Some x
   | None => Js.get (pinnedPostMapping Scenario.afterStream) "/R"
   end = Some 0%nat)
  /\ emojiOfName "like" = Some Like
  /\ (0 < length (heap Scenario.afterStream))%nat
  /\ countText Like (item Scenario.afterStream 0%nat) = renderCount 0
  /\ Z.abs 0 <= Js.maxSafeInteger
  /\ exists st1 st2,
       updateReactions "/R" "like" false Scenario.afterStream = Ok tt st1
       /\ updateReactions "/R" "like" true st1 = Ok tt st2
       /\ countText Like (item st1 0%nat) = renderCount (0 + 1)
       /\ marked (reactionButton Like (item st1 0%nat)) = true
       /\ marked (reactionButton Like (item st2 0%nat)) = false
       /\ (forall o' e',
             countText e' (item st2 o')
             = countText e' (item Scenario.afterStream o'))
       /\ (forall e', e' <> Like ->
             reactionButton e' (item st2 0%nat)
             = reactionButton e' (item Scenario.afterStream 0%nat))
       /\ (forall o', o' <> 0%nat ->
             item st2 o' = item Scenario.afterStream o')
       /\ (forall o',
             reactors (item st2 o') = reactors (item Scenario.afterStream o'))
       /\ allPostMapping st2 = allPostMapping Scenario.afterStream
       /\ pinnedPostMapping st2 = pinnedPostMapping Scenario.afterStream
       /\ postArea st2 = postArea Scenario.afterStream.
Proof.
  split; [reflexivity|]. split; [reflexivity|].
  split; [vm_compute; lia|]. split; [reflexivity|].
  split; [unfold Js.maxSafeInteger; lia|].
  apply (ReactionProps.C8_react_then_unreact Scenario.afterStream "/R" "like"
           0%nat Like 0);
    [reflexivity | reflexivity | vm_compute; lia | reflexivity
    | unfold Js.maxSafeInteger; lia].
Defined.

End ReactionWitness.

Module StreamWitness.
Import ModelTs MainTs PostComponent Scenario.

(** C3 on the page after alice's local [like], for the echo of that
    reaction. *)
Lemma C3_self_echo_suppressed_witness :
  event echoMessage = "update"
  /\ parse (data echoMessage) = Some echoPayload
  /\ Json.isPostUpdate echoPayload = true
  /\ Doc.lastModifiedBy (Doc.meta (Doc.readPostUpdate echoPayload)) = alice
  /\ deliver parse alice "w" "c" echoMessage afterLocalLike = afterLocalLike.
Proof.
  split; [reflexivity|]. split; [reflexivity|]. split; [reflexivity|].
  split; [reflexivity|].
  apply (proj2 (StreamProps.C3_self_echo_suppressed parse alice "w" "c"
                  echoMessage echoPayload afterLocalLike
                  eq_refl eq_refl eq_refl eq_refl)).
Defined.

(** C9 on a keep-alive and on an update without [meta]. *)
Lemma C9_stream_input_validation_witness :
  deliver parse alice "w" "c" keepAliveMessage afterLocalLike = afterLocalLike
  /\ deliver parse alice "w" "c" malformedMessage afterLocalLike
     = afterLocalLike.
Proof.
  split.
  - apply (proj2 (StreamProps.C9_stream_input_validation parse alice "w" "c"
                    keepAliveMessage afterLocalLike)).
    intros evt. vm_compute. discriminate.
  - apply (proj2 (StreamProps.C9_stream_input_validation parse alice "w" "c"
                    malformedMessage afterLocalLike)).
    intros evt. vm_compute. discriminate.
Defined.

End StreamWitness.

(** ** Reconciling updates: what [updatePosts] drops and what it keeps *)

Module ReconcileProps.
Import PostComponent PostViewTs Observe.

(** With equal counts on both sides every comparison of [findReactor] ends
    in its last arm. *)
Lemma findReactor_same (counts : list nat)
    (newReactors oldReactors : option Doc.Reactions) :
  counts <> [] ->
  findReactor counts counts newReactors oldReactors = Some "same".
Proof.
  intros Hne. unfold findReactor.
  set (step := fun (username : option string) (index : nat) => _).
  assert (forall username index, step username index = Some "same") as Hstep.
  { intros username index. unfold step, Js.at_.
    destruct (nth_error counts index) as [n|]; [|reflexivity].
    now rewrite Nat.ltb_irrefl. }
  assert (forall l username,
            l <> [] -> fold_left step l username = Some "same") as Hfold.
  { induction l as [|x l IH]; intros username Hl; [congruence|].
    cbn [fold_left]. rewrite Hstep.
    destruct l as [|y l]; [reflexivity|]. now apply IH. }
  now apply Hfold.
Qed.

Lemma getReactions_nonempty (r : option Doc.Reactions) : getReactions r <> [].
Proof. destruct r; discriminate. Qed.

Lemma updateKnown_same (post : Doc.ViewPost)
    (currentUser workspaceName channelName : string) (replace : oid)
    (st : PostView) :
  getReactions (reactors (item st replace))
  = getReactions (Doc.reactions (Doc.doc post)) ->
  updateKnown post currentUser workspaceName channelName replace st
  = Ok true st.
Proof.
  intros Heq. unfold updateKnown. rewrite Heq.
  rewrite findReactor_same by apply getReactions_nonempty.
  unfold isOwnOrSame. cbn [String.eqb]. now rewrite orb_true_r.
Qed.

(** An update for a path of [allPostMapping] whose four counts equal the
    stored ones is dropped, whatever its identifier: the page is unchanged. *)
Lemma duplicate_in_general_discarded (workspaceName channelName : string)
    (post : Doc.ViewPost) (id currentUser : string) (st : PostView)
    (replace : oid) :
  Js.get (allPostMapping st) (Doc.path post) = Some replace ->
  getReactions (reactors (item st replace))
  = getReactions (Doc.reactions (Doc.doc post)) ->
  updatePosts workspaceName channelName post id currentUser st = Ok tt st.
Proof.
  intros Hget Heq. unfold updatePosts.
  destruct (negb (Js.isNaN (Js.parseInt id))).
  - unfold bind, gets. rewrite Hget.
    now rewrite updateKnown_same.
  - destruct (Js.isNaN (Js.parseInt (Js.charAt id (Js.strlen id - 1))));
      [|reflexivity].
    unfold bind, gets. rewrite Hget.
    now rewrite updateKnown_same.
Qed.

(** **** C4 *)

(** C4 fails on a post of the pinned map.  [updatePosts] looks a path up in
    [allPostMapping] only, so a second delivery of the pinned post ["/A"],
    with the reaction and pin sets it already has, is taken for a new post:
    a second element is built, entered in the general map and appended to
    the post area.  The path is then in both maps. *)
Theorem C4_duplicate_of_pinned_post_is_applied :
  inPinned Scenario.shownPinned "/A" = true
  /\ inGeneral Scenario.shownPinned "/A" = false
  /\ postArea Scenario.shownPinned = [0%nat]
  /\ MainTs.updatePostEventListener Scenario.alice "w" "c"
       Scenario.duplicateOfPinned Scenario.shownPinned
     = (Scenario.afterDuplicate, None)
  /\ inPinned Scenario.afterDuplicate "/A" = true
  /\ inGeneral Scenario.afterDuplicate "/A" = true
  /\ postArea Scenario.afterDuplicate = [0%nat; 1%nat]
  /\ Scenario.afterDuplicate <> Scenario.shownPinned.
Proof.
  repeat (split; [vm_compute; reflexivity|]).
  intros H. apply (f_equal postArea) in H. vm_compute in H. discriminate.
Qed.

(** **** C6 *)

(** C6 fails.  For a reply whose parent is in neither map, [updatePosts]
    has already built the element and entered it in [allPostMapping] when it
    looks the parent up; finding none it does nothing more.  The orphan
    stays in the general map, is shown nowhere, and nothing is written with
    [console.error]. *)
Theorem C6_orphan_reply_is_entered_in_the_map :
  Doc.parent (Doc.doc Scenario.reply) = Some "/A"
  /\ inGeneral emptyView "/A" = false
  /\ inPinned emptyView "/A" = false
  /\ updatePosts "w" "c" Scenario.reply "7" Scenario.alice emptyView
     = Ok tt Scenario.afterOrphan
  /\ allPostMapping Scenario.afterOrphan = [("/A/1", 0%nat)]
  /\ postArea Scenario.afterOrphan = []
  /\ consoleErrors Scenario.afterOrphan = []
  /\ Scenario.afterOrphan <> emptyView.
Proof.
  repeat (split; [vm_compute; reflexivity|]).
  intros H. apply (f_equal allPostMapping) in H. vm_compute in H. discriminate.
Qed.

End ReconcileProps.

(** ** The two partitions *)

Module PartitionProps.
Import PostComponent PostViewTs Observe.

(** **** C1 *)

(** C1 fails in [displayAllPosts].  [getPinnedPosts] asks whether the parent
    is pinned only for a post without a [pins] array.  The reply ["/A/1"] has
    such an array, empty, so it is sorted with the general posts although
    its parent ["/A"] is pinned by the viewer; its parent has no tree among
    the general posts, the reply is reported and left out, and it ends in
    neither map. *)
Theorem C1_reply_of_pinned_post_in_neither_map :
  displayAllPosts Scenario.alice "w" "c"
    [Scenario.pinnedRoot; Scenario.replyWithPins] emptyView
  = Ok tt Scenario.shownWithPins
  /\ inPinned Scenario.shownWithPins "/A" = true
  /\ inPinned Scenario.shownWithPins "/A/1" = false
  /\ inGeneral Scenario.shownWithPins "/A/1" = false
  /\ consoleErrors Scenario.shownWithPins
     = ["parent post tree not found in map"].
Proof. repeat (split; [vm_compute; reflexivity|]). vm_compute; reflexivity. Qed.

(** **** C2 *)

(** C2 fails below the first level of replies.  [togglePin] moves the
    element and the elements of its [childrenItems], not their descendants:
    after pinning ["/A"] its reply ["/A/1"] is in the pinned map and the reply
    to that reply, ["/A/1/1"], is still in the general map. *)
Theorem C2_pin_leaves_grandchild_in_general :
  inGeneral Scenario.shownThread "/A" = true
  /\ inGeneral Scenario.shownThread "/A/1" = true
  /\ inGeneral Scenario.shownThread "/A/1/1" = true
  /\ childrenItems (item Scenario.shownThread 3%nat) = [2%nat]
  /\ childrenItems (item Scenario.shownThread 2%nat) = [1%nat]
  /\ togglePin "/A" false Scenario.shownThread = Ok tt Scenario.pinnedThread
  /\ inPinned Scenario.pinnedThread "/A" = true
  /\ inPinned Scenario.pinnedThread "/A/1" = true
  /\ inPinned Scenario.pinnedThread "/A/1/1" = false
  /\ inGeneral Scenario.pinnedThread "/A/1/1" = true.
Proof. repeat (split; [vm_compute; reflexivity|]). vm_compute; reflexivity. Qed.

(** **** C5 *)

(** C5 fails after a mutation.  Unpinning a post that has a reply: the
    element that follows it by creation time among the general posts is its
    own reply, which is not a child of the post area, so the post is put at
    the end, behind a post created later.  A post created earlier but
    delivered later: the local branch of [updatePosts] gets [-1] from
    [findIndex] and appends. *)
Theorem C5_general_roots_out_of_order :
  createdAtOf Scenario.shownReplies (generalRoots Scenario.shownReplies)
  = [50; 100; 300]
  /\ togglePin "/A" false Scenario.shownReplies = Ok tt Scenario.pinnedReplies
  /\ togglePin "/A" true Scenario.pinnedReplies = Ok tt Scenario.unpinnedReplies
  /\ createdAtOf Scenario.unpinnedReplies (generalRoots Scenario.unpinnedReplies)
     = [50; 300; 100]
  /\ nonDecreasing
       (createdAtOf Scenario.unpinnedReplies
          (generalRoots Scenario.unpinnedReplies)) = false
  /\ updatePosts "w" "c" Scenario.earlierRoot "abc" Scenario.alice
       Scenario.afterStream
     = Ok tt Scenario.afterLocalCreate
  /\ createdAtOf Scenario.afterLocalCreate
       (generalRoots Scenario.afterLocalCreate)
     = [300; 50].
Proof. repeat (split; [vm_compute; reflexivity|]). vm_compute; reflexivity. Qed.

End PartitionProps.

(** ** More on the listener of the stream *)

Module ListenerProps.
Import ModelTs MainTs PostComponent.

Lemma substring_zero_length (n : nat) (s : string) : String.substring n 0 s = "".
Proof.
  revert s. induction n as [|n IH]; intros [|c s]; cbn; try reflexivity.
  apply IH.
Qed.

Lemma endsWith_empty (s : string) : Js.endsWith s "" = true.
Proof.
  unfold Js.endsWith. cbn [String.length]. rewrite Nat.sub_0_r.
  now rewrite substring_zero_length.
Qed.

Lemma append_assoc (a b c : string) :
  String.append (String.append a b) c = String.append a (String.append b c).
Proof. induction a as [|x a IH]; cbn; [reflexivity | now rewrite IH]. Qed.

Lemma substring_prefix (a b : string) :
  String.substring 0 (String.length a) (String.append a b) = a.
Proof.
  induction a as [|x a IH]; cbn.
  - now destruct b.
  - now rewrite IH.
Qed.

(** Cutting the appended user name off gives the identifier back. *)
Lemma substring_strips_suffix (a b : string) :
  Js.substring (String.append a b) 0
    (Js.strlen (String.append a b) - Js.strlen b) = a.
Proof.
  unfold Js.substring, Js.strlen. rewrite JsFacts.length_append.
  set (la := String.length a). set (lb := String.length b).
  replace (Z.of_nat (la + lb) - Z.of_nat lb) with (Z.of_nat la) by lia.
  replace (Z.max 0 (Z.min 0 (Z.of_nat (la + lb)))) with 0 by lia.
  replace (Z.max 0 (Z.min (Z.of_nat la) (Z.of_nat (la + lb))))
    with (Z.of_nat la) by lia.
  replace (Z.min 0 (Z.of_nat la)) with 0 by lia.
  replace (Z.max 0 (Z.of_nat la) - 0) with (Z.of_nat la) by lia.
  rewrite Nat2Z.id. cbn [Z.to_nat]. apply substring_prefix.
Qed.

(** With nobody logged in, [authModel.getUsername()] is the empty string,
    every identifier ends with it, and the listener ignores every event. *)
Theorem listener_ignores_everything_when_logged_out
    (workspaceName channelName : string) (evt : UpdatePostEvent)
    (st : PostView) :
  updatePostEventListener "" workspaceName channelName evt st = (st, None).
Proof. unfold updatePostEventListener. now rewrite endsWith_empty. Qed.

(** An update last modified by a user whose name ends with the name of the
    logged-in user is ignored like the client's own. *)
Theorem update_of_user_with_same_name_ending_is_ignored
    (JSON_parse : string -> option Json.json)
    (username workspaceName channelName : string)
    (msg : EventSourceMessage) (payload : Json.json) (front : string)
    (st : PostView) :
  event msg = "update" ->
  JSON_parse (data msg) = Some payload ->
  Json.isPostUpdate payload = true ->
  Doc.lastModifiedBy (Doc.meta (Doc.readPostUpdate payload))
  = String.append front username ->
  deliver JSON_parse username workspaceName channelName msg st = st.
Proof.
  intros He Hp Hv Hu. unfold deliver, onmessage.
  rewrite He, Hp, Hv, Hu. cbn [negb String.eqb Ascii.eqb Bool.eqb fst].
  unfold updatePostEventListener. cbn [detailId].
  rewrite <- append_assoc. now rewrite JsFacts.endsWith_append.
Qed.

(** An accepted update that is not ignored reaches [updatePosts] with the
    identifier of the message: the listener cuts off exactly what
    [onmessage] appended. *)
Theorem foreign_update_reaches_updatePosts
    (JSON_parse : string -> option Json.json)
    (username workspaceName channelName : string)
    (msg : EventSourceMessage) (payload : Json.json) (st : PostView) :
  event msg = "update" ->
  JSON_parse (data msg) = Some payload ->
  Json.isPostUpdate payload = true ->
  Js.endsWith
    (String.append (id msg)
       (Doc.lastModifiedBy (Doc.meta (Doc.readPostUpdate payload))))
    username = false ->
  deliver JSON_parse username workspaceName channelName msg st
  = stateOf (PostViewTs.updatePosts workspaceName channelName
               (Doc.readPostUpdate payload) (id msg) username st).
Proof.
  intros He Hp Hv Hn. unfold deliver, onmessage.
  rewrite He, Hp, Hv. cbn [negb String.eqb Ascii.eqb Bool.eqb].
  unfold updatePostEventListener. cbn [detailId detailPost].
  rewrite Hn, substring_strips_suffix.
  now destruct (PostViewTs.updatePosts _ _ _ _ _ _).
Qed.

End ListenerProps.

Module ListenerWitness.
Import ModelTs MainTs PostComponent.

(** Bob is logged in; jimbob liked a post. *)
Lemma update_of_user_with_same_name_ending_is_ignored_witness :
  event Cases.jimbobMessage = "update"
  /\ Cases.parse (data Cases.jimbobMessage) = Some Cases.likedByJimbob
  /\ Json.isPostUpdate Cases.likedByJimbob = true
  /\ Doc.lastModifiedBy (Doc.meta (Doc.readPostUpdate Cases.likedByJimbob))
     = String.append "jim" "bob"
  /\ deliver Cases.parse "bob" "w" "c" Cases.jimbobMessage Scenario.afterStream
     = Scenario.afterStream.
Proof.
  split; [reflexivity|]. split; [reflexivity|]. split; [reflexivity|].
  split; [reflexivity|].
  apply (ListenerProps.update_of_user_with_same_name_ending_is_ignored
           Cases.parse "bob" "w" "c" Cases.jimbobMessage Cases.likedByJimbob
           "jim" Scenario.afterStream eq_refl eq_refl eq_refl eq_refl).
Defined.

(** Alice is logged in; carol liked a post. *)
Lemma foreign_update_reaches_updatePosts_witness :
  event Cases.carolMessage = "update"
  /\ Cases.parse (data Cases.carolMessage) = Some Cases.likedByCarol
  /\ Json.isPostUpdate Cases.likedByCarol = true
  /\ Js.endsWith
       (String.append (id Cases.carolMessage)
          (Doc.lastModifiedBy
             (Doc.meta (Doc.readPostUpdate Cases.likedByCarol))))
       "alice" = false
  /\ deliver Cases.parse "alice" "w" "c" Cases.carolMessage
       Scenario.afterStream
     = stateOf (PostViewTs.updatePosts "w" "c"
                  (Doc.readPostUpdate Cases.likedByCarol) "8" "alice"
                  Scenario.afterStream).
Proof.
  split; [reflexivity|]. split; [reflexivity|]. split; [reflexivity|].
  split; [reflexivity|].
  apply (ListenerProps.foreign_update_reaches_updatePosts
           Cases.parse "alice" "w" "c" Cases.carolMessage Cases.likedByCarol
           Scenario.afterStream eq_refl eq_refl eq_refl eq_refl).
Defined.

End ListenerWitness.

(** ** What [findReactor] makes [updatePosts] drop *)

Module FindReactorProps.
Import PostComponent PostViewTs Observe.

(** The answer of [findReactor] is that of its last turn, which compares the
    counts at the position given by the last count of the update. *)
Lemma findReactor_last_turn (a b c d : nat) (oldReactions : list nat)
    (newReactors oldReactors : option Doc.Reactions) :
  Js.at_ [a; b; c; d] d = Js.at_ oldReactions d ->
  findReactor [a; b; c; d] oldReactions newReactors oldReactors = Some "same".
Proof.
  intros H. unfold findReactor. cbn [fold_left]. rewrite <- H.
  destruct (Js.at_ [a; b; c; d] d) as [n|]; [|reflexivity].
  now rewrite Nat.ltb_irrefl.
Qed.

(** For a path of [allPostMapping], [updatePosts] drops the update whenever
    the new and the stored count agree at the position given by the new
    celebrate count, whatever else changed: with no celebrate in the update
    that position is the smile count, and a position of 4 or more has no
    count on either side. *)
Theorem update_dropped_on_equal_counts_at_celebrate_position
    (workspaceName channelName : string) (post : Doc.ViewPost)
    (id currentUser : string) (st : PostView) (replace : oid) :
  Js.get (allPostMapping st) (Doc.path post) = Some replace ->
  nth_error (getReactions (Doc.reactions (Doc.doc post)))
    (nth 3 (getReactions (Doc.reactions (Doc.doc post))) 0%nat)
  = nth_error (getReactions (reactors (item st replace)))
      (nth 3 (getReactions (Doc.reactions (Doc.doc post))) 0%nat) ->
  updatePosts workspaceName channelName post id currentUser st = Ok tt st.
Proof.
  intros Hget Heq.
  assert (updateKnown post currentUser workspaceName channelName replace st
          = Ok true st) as Hk.
  { unfold updateKnown.
    assert (exists a b c d,
              getReactions (Doc.reactions (Doc.doc post)) = [a; b; c; d])
      as (a & b & c & d & Hn).
    { destruct (Doc.reactions (Doc.doc post)); cbn; repeat eexists. }
    rewrite Hn in *. cbn [nth] in Heq.
    rewrite findReactor_last_turn by exact Heq.
    unfold isOwnOrSame. cbn [String.eqb]. now rewrite orb_true_r. }
  unfold updatePosts.
  destruct (negb (Js.isNaN (Js.parseInt id))).
  - unfold bind, gets. now rewrite Hget, Hk.
  - destruct (Js.isNaN (Js.parseInt (Js.charAt id (Js.strlen id - 1))));
      [|reflexivity].
    unfold bind, gets. now rewrite Hget, Hk.
Qed.

(** Carol's like on [laterRoot], delivered by the stream, is dropped: the
    update has no celebrate and the smile count is unchanged. *)
Lemma update_dropped_on_equal_counts_at_celebrate_position_witness :
  Js.get (allPostMapping Scenario.afterStream) (Doc.path Cases.laterRootLiked)
  = Some 0%nat
  /\ getReactions (Doc.reactions (Doc.doc Cases.laterRootLiked))
     = [0; 1; 0; 0]%nat
  /\ getReactions (reactors (item Scenario.afterStream 0%nat))
     = [0; 0; 0; 0]%nat
  /\ updatePosts "w" "c" Cases.laterRootLiked "8" "alice" Scenario.afterStream
     = Ok tt Scenario.afterStream.
Proof.
  split; [reflexivity|]. split; [reflexivity|]. split; [reflexivity|].
  apply (update_dropped_on_equal_counts_at_celebrate_position "w" "c"
           Cases.laterRootLiked "8" "alice" Scenario.afterStream 0%nat);
    reflexivity.
Defined.

(** The hypotheses of [duplicate_in_general_discarded] on the page that
    holds [laterRoot], for a second delivery of it. *)
Lemma duplicate_in_general_discarded_witness :
  Js.get (allPostMapping Scenario.afterStream) (Doc.path Scenario.laterRoot)
  = Some 0%nat
  /\ getReactions (reactors (item Scenario.afterStream 0%nat))
     = getReactions (Doc.reactions (Doc.doc Scenario.laterRoot))
  /\ updatePosts "w" "c" Scenario.laterRoot "8" "alice" Scenario.afterStream
     = Ok tt Scenario.afterStream.
Proof.
  split; [reflexivity|]. split; [reflexivity|].
  apply (ReconcileProps.duplicate_in_general_discarded "w" "c"
           Scenario.laterRoot "8" "alice" Scenario.afterStream 0%nat);
    reflexivity.
Defined.

(** Taking a reaction back on an empty count paragraph writes [-1]: the
    count is not bounded below by 0. *)
Theorem reaction_taken_back_from_empty_count (st : PostView)
    (postPath reaction : string) (o : oid) (e : Emoji) :
  match Js.get (allPostMapping st) postPath with
  | Some x => Some x
  | None => Js.get (pinnedPostMapping st) postPath
  end = Some o ->
  emojiOfName reaction = Some e ->
  (o < length (heap st))%nat ->
  countText e (item st o) = "" ->
  exists st',
    updateReactions postPath reaction true st = Ok tt st'
    /\ countText e (item st' o) = "-1"
    /\ marked (reactionButton e (item st' o)) = false.
Proof.
  intros Hfound He Hlt Hcount.
  assert (Z.abs 0 <= Js.maxSafeInteger) as Hsafe
    by (unfold Js.maxSafeInteger; lia).
  destruct (ReactionProps.updateReactions_step st postPath reaction true o e 0
              Hfound He Hlt Hcount Hsafe) as (st' & Hrun & Htext & Hmark & _).
  exists st'. split; [exact Hrun|]. split; [exact Htext | exact Hmark].
Qed.

(** The page that holds [laterRoot] without reactions. *)
Lemma reaction_taken_back_from_empty_count_witness :
  (match Js.get (allPostMapping Scenario.afterStream) "/R" with
   | Some x => Some x
   | None => Js.get (pinnedPostMapping Scenario.afterStream) "/R"
   end = Some 0%nat)
  /\ emojiOfName "like" = Some Like
  /\ (0 < length (heap Scenario.afterStream))%nat
  /\ countText Like (item Scenario.afterStream 0%nat) = ""
  /\ exists st',
       updateReactions "/R" "like" true Scenario.afterStream = Ok tt st'
       /\ countText Like (item st' 0%nat) = "-1"
       /\ marked (reactionButton Like (item st' 0%nat)) = false.
Proof.
  split; [reflexivity|]. split; [reflexivity|].
  split; [vm_compute; lia|]. split; [reflexivity|].
  exact (reaction_taken_back_from_empty_count Scenario.afterStream "/R" "like"
           0%nat Like eq_refl eq_refl ltac:(vm_compute; lia) eq_refl).
Defined.

End FindReactorProps.

(** ** More on the subscription *)

Module SubscriptionMore.
Import ModelTs SubscriptionSession.

(** [unsubscribe] twice is [unsubscribe] once. *)
Theorem unsubscribe_idempotent (m : Model) :
  unsubscribe (unsubscribe m) = unsubscribe m.
Proof. unfold unsubscribe. now destruct (controller m). Qed.

(** A connection whose controller the model no longer holds stays open
    through every sequence of [subscribe] and [unsubscribe]. *)
Theorem orphaned_connection_is_never_closed (calls : list Call) (m : Model)
    (c : nat) :
  In c (connections m) ->
  controller m <> Some c ->
  (c < constructed m)%nat ->
  In c (connections (run calls m)).
Proof.
  revert m. induction calls as [|k calls IH]; intros m Hin Hctl Hlt;
    [exact Hin|].
  cbn [run fold_left]. apply IH; destruct k; cbn [call].
  - unfold subscribe. cbn [connections]. apply in_or_app. now left.
  - unfold unsubscribe. destruct (controller m) as [d|]; cbn [connections];
      [|exact Hin].
    apply filter_In. split; [exact Hin|].
    destruct (Nat.eqb_spec c d) as [-> | _]; [congruence | reflexivity].
  - unfold subscribe. cbn [controller]. intros [= H]. lia.
  - unfold unsubscribe. destruct (controller m); cbn [controller]; discriminate.
  - unfold subscribe. cbn [constructed]. lia.
  - unfold unsubscribe. now destruct (controller m).
Qed.

(** After two [subscribe] in a row the first connection is such an orphan. *)
Lemma orphaned_connection_is_never_closed_witness :
  In 0%nat (connections (subscribe (subscribe initModel)))
  /\ controller (subscribe (subscribe initModel)) <> Some 0%nat
  /\ (0 < constructed (subscribe (subscribe initModel)))%nat
  /\ In 0%nat
       (connections
          (run [Unsubscribe; Subscribe; Unsubscribe]
             (subscribe (subscribe initModel)))).
Proof.
  assert (In 0%nat (connections (subscribe (subscribe initModel)))) as H1
    by (cbn; tauto).
  assert (controller (subscribe (subscribe initModel)) <> Some 0%nat) as H2
    by (cbn; discriminate).
  assert (0 < constructed (subscribe (subscribe initModel)))%nat as H3
    by (cbn; lia).
  split; [exact H1|]. split; [exact H2|]. split; [exact H3|].
  exact (orphaned_connection_is_never_closed
           [Unsubscribe; Subscribe; Unsubscribe]
           (subscribe (subscribe initModel)) 0%nat H1 H2 H3).
Defined.

End SubscriptionMore.

(** ** Relations that every step of the view respects *)

Module Respect.
Import PostComponent PostViewTs Session.

Lemma tame_withReplies (l : list oid) (p : PostItem) : tame p (withReplies l p).
Proof.
  split; [reflexivity | split; [intros e; now destruct e | reflexivity]].
Qed.

Lemma tame_withChildrenItems (l : list oid) (p : PostItem) :
  tame p (withChildrenItems l p).
Proof.
  split; [reflexivity | split; [intros e; now destruct e | reflexivity]].
Qed.

Lemma tame_withReactionButton (e : Emoji) (b : Button) (p : PostItem) :
  tame p (withReactionButton e b p).
Proof.
  split; [now destruct e | split; [intros e'; now destruct e, e' | now destruct e]].
Qed.

Lemma tame_trans (p q r : PostItem) : tame p q -> tame q r -> tame p r.
Proof.
  intros (H1 & H2 & H3) (K1 & K2 & K3).
  split; [congruence | split; [|congruence]].
  intros e. now rewrite K2, H2.
Qed.

Lemma tame_refl (p : PostItem) : tame p p.
Proof. split; [reflexivity | split; [intros e; reflexivity | reflexivity]]. Qed.

Lemma tame_markReacted (reacted : list bool) (p : PostItem) :
  tame p (markReacted reacted p).
Proof.
  unfold markReacted.
  repeat match goal with
         | |- tame _ (if ?b then _ else _) =>
             destruct b;
             [eapply tame_trans; [|apply tame_withReactionButton]|]
         end; apply tame_refl.
Qed.

Lemma item_map (f : PostItem -> PostItem) (st : PostView) (o : oid) :
  item (withHeap (map f (heap st)) st) o
  = if Nat.ltb o (length (heap st)) then f (item st o) else emptyItem.
Proof.
  unfold item. cbn [heap withHeap].
  destruct (Nat.ltb_spec o (length (heap st))) as [Hlt | Hge].
  - rewrite (nth_indep _ emptyItem (f emptyItem)) by now rewrite length_map.
    apply map_nth.
  - apply nth_overflow. now rewrite length_map.
Qed.

Lemma item_alloc (fresh : PostItem) (st : PostView) (o : oid) :
  item (withHeap (heap st ++ [fresh]) st) o
  = if Nat.ltb o (length (heap st)) then item st o
    else if Nat.eqb o (length (heap st)) then fresh else emptyItem.
Proof.
  unfold item. cbn [heap withHeap].
  destruct (Nat.ltb_spec o (length (heap st))) as [Hlt | Hge].
  - now apply app_nth1.
  - rewrite app_nth2 by exact Hge.
    destruct (Nat.eqb_spec o (length (heap st))) as [-> | Hne].
    + now rewrite Nat.sub_diag.
    + destruct (o - length (heap st))%nat as [|[|k]] eqn:Hk;
        [lia | reflexivity | reflexivity].
Qed.

(** *** A property of the documents reaches every node of a forest *)

Section Documents.
Variable P : Doc.ViewPost -> Prop.

Lemma Forall_insertSorted (key : Doc.ViewPost -> Z) (x : Doc.ViewPost)
    (l : list Doc.ViewPost) :
  P x -> Forall P l -> Forall P (Js.insertSorted key x l).
Proof.
  intros Hx Hl. induction Hl as [|y l Hy Hl IH]; cbn [Js.insertSorted].
  - now repeat constructor.
  - destruct (key x <=? key y); repeat constructor; assumption.
Qed.

Lemma Forall_sortBy (key : Doc.ViewPost -> Z) (l : list Doc.ViewPost) :
  Forall P l -> Forall P (Js.sortBy key l).
Proof.
  induction 1 as [|x l Hx Hl IH]; cbn [Js.sortBy fold_right]; [constructor|].
  now apply Forall_insertSorted.
Qed.

Lemma Forall_getPinnedPosts (currUser : string) (posts : list Doc.ViewPost) :
  Forall P posts ->
  Forall P (fst (getPinnedPosts currUser posts))
  /\ Forall P (snd (getPinnedPosts currUser posts)).
Proof.
  intros H. unfold getPinnedPosts.
  assert (forall l acc,
            Forall P l -> Forall P (fst acc) -> Forall P (snd acc) ->
            Forall P (fst (fold_left (getPinnedStep currUser) l acc))
            /\ Forall P (snd (fold_left (getPinnedStep currUser) l acc)))
    as Hfold.
  { induction l as [|x l IH]; intros [pinned general] Hl Hp Hg;
      cbn [fold_left]; [now split|].
    inversion Hl as [|? ? Hx Hl']; subst. cbn [fst snd] in Hp, Hg.
    apply IH; [exact Hl' | |]; unfold getPinnedStep;
      destruct (pinsOf x) as [pins|];
      repeat match goal with
             | |- context [if ?c then _ else _] => destruct c
             end;
      cbn [fst snd]; try assumption; apply Forall_app; split;
      try assumption; now repeat constructor. }
  apply Hfold; [now apply Forall_sortBy | constructor | constructor].
Qed.

Lemma Forall_updateNth {A : Type} (Q : A -> Prop) (f : A -> A) (n : nat)
    (l : list A) :
  (forall x, Q x -> Q (f x)) -> Forall Q l -> Forall Q (updateNth n f l).
Proof.
  intros Hf Hl. revert n.
  induction Hl as [|x l Hx Hl IH]; intros [|n]; cbn [updateNth];
    constructor; auto.
Qed.

Lemma nodes_buildForest (posts : list Doc.ViewPost) :
  P (post emptyTree) -> Forall P posts ->
  forall i, P (post (nth i (nodes (buildForest posts)) emptyTree)).
Proof.
  intros Hd Hposts.
  assert (forall l f,
            Forall P l -> Forall (fun t => P (post t)) (nodes f) ->
            Forall (fun t => P (post t)) (nodes (fold_left addNode l f)))
    as Hadd.
  { induction l as [|x l IH]; intros f Hl Hf; cbn [fold_left]; [exact Hf|].
    inversion Hl as [|? ? Hx Hl']; subst. apply IH; [exact Hl'|].
    cbn [addNode nodes]. apply Forall_app. split; [exact Hf|].
    now repeat constructor. }
  assert (forall l f,
            Forall (fun t => P (post t)) (nodes f) ->
            Forall (fun t => P (post t)) (nodes (fold_left linkNode l f)))
    as Hlink.
  { induction l as [|x l IH]; intros f Hf; cbn [fold_left]; [exact Hf|].
    apply IH. unfold linkNode.
    destruct (Js.get (pathToTree f) (Doc.path x)) as [currNode|];
      [|exact Hf].
    destruct (Doc.parent (Doc.doc x)) as [parent|]; [|exact Hf].
    destruct (negb (String.eqb parent "")); [|exact Hf].
    destruct (Js.get (pathToTree f) parent) as [parentTree|]; [|exact Hf].
    cbn [pushChild nodes]. apply Forall_updateNth; [|exact Hf].
    intros t Ht. exact Ht. }
  assert (Forall (fun t => P (post t)) (nodes (buildForest posts))) as Hall.
  { unfold buildForest. apply Hlink, Hadd; [exact Hposts | constructor]. }
  intros i. destruct (Nat.ltb_spec i (length (nodes (buildForest posts))))
    as [Hlt | Hge].
  - rewrite Forall_forall in Hall. apply Hall. now apply nth_In.
  - now rewrite nth_overflow.
Qed.

End Documents.

Section Generic.
Variable R : PostView -> PostView -> Prop.
(** The counts that the documents may hold. *)
Variable ok : list nat -> Prop.
Hypothesis ok_none : ok (getReactions None).
Hypothesis R_refl : forall st, R st st.
Hypothesis R_trans : forall a b c, R a b -> R b c -> R a c.
Hypothesis R_frame : forall st st', heap st' = heap st -> R st st'.
Hypothesis R_item :
  forall st o f, (forall p, tame p (f p)) -> R st (updateItem o f st).
Hypothesis R_all :
  forall st f, (forall p, tame p (f p)) -> R st (withHeap (map f (heap st)) st).
Hypothesis R_alloc :
  forall st fresh reactionNumbers,
    ok reactionNumbers -> builtFrom reactionNumbers fresh ->
    R st (withHeap (heap st ++ [fresh]) st).

Lemma respects_ret {A : Type} (a : A) : respects R (ret a).
Proof. intros st. apply R_refl. Qed.

Lemma respects_throw {A : Type} (msg : string) : respects R (@throw A msg).
Proof. intros st. apply R_refl. Qed.

Lemma respects_gets {A : Type} (f : PostView -> A) : respects R (gets f).
Proof. intros st. apply R_refl. Qed.

Lemma respects_modify (f : PostView -> PostView) :
  (forall st, R st (f st)) -> respects R (modify f).
Proof. intros H st. apply H. Qed.

Lemma respects_bind {A B : Type} (m : M A) (k : A -> M B) :
  respects R m -> (forall a, respects R (k a)) -> respects R (bind m k).
Proof.
  intros Hm Hk st. unfold bind. specialize (Hm st).
  destruct (m st) as [a st' | msg st']; cbn [stateOf] in *.
  - eapply R_trans; [exact Hm | apply Hk].
  - exact Hm.
Qed.

Lemma respects_forEach {A : Type} (l : list A) (body : A -> M unit) :
  (forall x, respects R (body x)) -> respects R (forEach l body).
Proof.
  intros H. induction l as [|x l IH]; cbn [forEach].
  - apply respects_ret.
  - apply respects_bind; [apply H | intros _; exact IH].
Qed.

Lemma respects_mapM {A B : Type} (f : A -> M B) (l : list A) :
  (forall x, respects R (f x)) -> respects R (mapM f l).
Proof.
  intros H. induction l as [|x l IH]; cbn [mapM].
  - apply respects_ret.
  - apply respects_bind; [apply H | intros y].
    apply respects_bind; [exact IH | intros ys; apply respects_ret].
Qed.

Lemma R_setChildNodes (c : Container) (l : list oid) (st : PostView) :
  R st (setChildNodes c l st).
Proof.
  destruct c as [|o]; cbn [setChildNodes].
  - now apply R_frame.
  - apply R_item. intros p. apply tame_withReplies.
Qed.

Lemma R_detach (x : oid) (st : PostView) : R st (detach x st).
Proof.
  unfold detach. eapply R_trans.
  - apply (R_all st (fun p => withReplies (removeNode x (replies p)) p)).
    intros p. apply tame_withReplies.
  - now apply R_frame.
Qed.

Lemma R_attach (c : Container) (x : oid) (st : PostView) : R st (attach c x st).
Proof.
  unfold attach. eapply R_trans; [apply R_detach | apply R_setChildNodes].
Qed.

Lemma respects_append (c : Container) (x : oid) : respects R (append c x).
Proof.
  intros st. unfold append.
  destruct (hostIncludingAncestor x c st); cbn [stateOf];
    [apply R_refl | apply R_attach].
Qed.

Lemma respects_insertBefore (c : Container) (x : oid) (ref : option oid) :
  respects R (insertBefore c x ref).
Proof.
  intros st. unfold insertBefore.
  destruct (hostIncludingAncestor x c st); [apply R_refl|].
  destruct ref as [r|]; cbn [stateOf].
  - destruct (isChild r (childNodes c st)); [|apply R_refl].
    destruct (Nat.eqb x r); cbn [stateOf]; [apply R_refl|].
    eapply R_trans; [apply R_detach | apply R_setChildNodes].
  - apply R_attach.
Qed.

Lemma respects_replaceChild (c : Container) (newChild oldChild : oid) :
  respects R (replaceChild c newChild oldChild).
Proof.
  intros st. unfold replaceChild.
  destruct (hostIncludingAncestor newChild c st); [apply R_refl|].
  destruct (isChild oldChild (childNodes c st)); [|apply R_refl].
  destruct (Nat.eqb newChild oldChild); cbn [stateOf]; [apply R_refl|].
  eapply R_trans; [apply R_detach | apply R_setChildNodes].
Qed.

Lemma R_fold_attach (c : Container) (children : list oid) (st : PostView) :
  R st (fold_left (fun s child => attach c child s) children st).
Proof.
  revert st. induction children as [|x l IH]; intros st; cbn [fold_left].
  - apply R_refl.
  - eapply R_trans; [apply R_attach | apply IH].
Qed.

Lemma respects_newPostItem (postContent poster : string) (postTime : Z)
    (postPath : string) (reactionNumbers : list nat)
    (reactors : option Doc.Reactions) (workspace channel : string)
    (children : list oid) (parentPost : option string) :
  ok reactionNumbers ->
  respects R
    (newPostItem postContent poster postTime postPath reactionNumbers reactors
       workspace channel children parentPost).
Proof.
  intros Hok st. unfold newPostItem.
  destruct (initialCount reactionNumbers 0) as [smiles|] eqn:H0;
    [|apply R_refl].
  destruct (initialCount reactionNumbers 1) as [likes|] eqn:H1;
    [|apply R_refl].
  destruct (initialCount reactionNumbers 2) as [frowns|] eqn:H2;
    [|apply R_refl].
  destruct (initialCount reactionNumbers 3) as [celebrates|] eqn:H3;
    [|apply R_refl].
  cbn [stateOf]. eapply R_trans; [|apply R_fold_attach].
  apply (R_alloc _ _ reactionNumbers Hok). split; [reflexivity|].
  intros e. destruct e; cbn [countText smileCount likeCount frownCount
                               celebrateCount emojiIndex]; assumption.
Qed.

Lemma respects_addReply (this replyPost : oid) :
  respects R (addReply this replyPost).
Proof.
  unfold addReply. apply respects_bind.
  - apply respects_forEach. intros node. apply respects_modify.
    intros st. now apply R_frame.
  - intros _ st. unfold placeReply.
    apply (respects_bind (insertBefore _ _ _)).
    + apply respects_insertBefore.
    + intros _. apply respects_modify. intros s. apply R_item.
      intros p. apply tame_withChildrenItems.
Qed.

Lemma respects_setAll (path : string) (o : oid) : respects R (setAll path o).
Proof. apply respects_modify. intros st. now apply R_frame. Qed.

Lemma respects_makePostFromTree (depth : nat) (trees : list ViewPostTree)
    (currUser workspace channel : string) (rootNode : nat) (pins : bool) :
  (forall i, okPost ok (post (nth i trees emptyTree))) ->
  respects R
    (makePostFromTree depth trees currUser workspace channel rootNode pins).
Proof.
  intros Hok. revert rootNode. induction depth as [|depth IH]; intros rootNode;
    cbn [makePostFromTree].
  - apply respects_throw.
  - apply respects_bind; [apply respects_mapM; intros x; apply IH|].
    intros children.
    apply respects_bind; [apply respects_newPostItem, Hok|].
    intros post. apply respects_bind.
    + apply respects_modify. intros st. apply R_item. intros p.
      apply tame_markReacted.
    + intros _. apply respects_bind; [|intros _; apply respects_ret].
      destruct pins; apply respects_modify; intros st; now apply R_frame.
Qed.

Lemma respects_displayForest (currUser workspace channel : string)
    (f : Forest) (pins : bool) :
  (forall i, okPost ok (post (nth i (nodes f) emptyTree))) ->
  respects R (displayForest currUser workspace channel f pins).
Proof.
  intros Hok. unfold displayForest. apply respects_bind.
  - apply respects_forEach. intros line. apply respects_modify.
    intros st. now apply R_frame.
  - intros _. apply respects_forEach. intros rootNode.
    apply respects_bind; [now apply respects_makePostFromTree|].
    intros rootPost. apply respects_append.
Qed.

Lemma respects_displayAllPosts (currUser workspace channel : string)
    (posts : list Doc.ViewPost) :
  Forall (okPost ok) posts ->
  respects R (displayAllPosts currUser workspace channel posts).
Proof.
  intros Hok. unfold displayAllPosts. apply respects_bind.
  - apply respects_modify. intros st. now apply R_frame.
  - intros _.
    destruct (Forall_getPinnedPosts (okPost ok) currUser posts Hok) as [Hp Hg].
    destruct (getPinnedPosts currUser posts) as [pinnedPosts generalPosts].
    cbn [fst snd] in Hp, Hg.
    apply respects_bind; [|intros _]; apply respects_displayForest;
      apply nodes_buildForest; try exact ok_none; now apply Forall_sortBy.
Qed.

Lemma respects_updateKnown (post : Doc.ViewPost)
    (currentUser workspaceName channelName : string) (replace : oid) :
  okPost ok post ->
  respects R (updateKnown post currentUser workspaceName channelName replace).
Proof.
  intros Hok st. unfold updateKnown.
  destruct (isOwnOrSame _ _); [apply R_refl|].
  apply (respects_bind (newPostItem _ _ _ _ _ _ _ _ _ _));
    [now apply respects_newPostItem|].
  intros newPost. apply respects_bind; [apply respects_setAll|].
  intros _. apply respects_bind; [|intros _; apply respects_ret].
  destruct (replyParent post) as [parent|].
  - apply respects_bind; [apply respects_gets|]. intros all.
    destruct (Js.get all parent) as [parentPost|].
    + apply respects_replaceChild.
    + apply respects_ret.
  - apply respects_replaceChild.
Qed.

Lemma respects_updateUnknown (post : Doc.ViewPost)
    (workspaceName channelName : string) (local : bool) :
  okPost ok post ->
  respects R (updateUnknown post workspaceName channelName local).
Proof.
  intros Hok. unfold updateUnknown.
  apply respects_bind; [now apply respects_newPostItem|].
  intros newPost. apply respects_bind; [apply respects_setAll|].
  intros _. destruct (replyParent post) as [parent|].
  - apply respects_bind; [apply respects_gets|]. intros all.
    destruct (Js.get all parent) as [parentPost|].
    + apply respects_addReply.
    + apply respects_ret.
  - destruct local.
    + intros st. apply respects_insertBefore.
    + apply respects_append.
Qed.

Lemma respects_updatePosts (workspaceName channelName : string)
    (post : Doc.ViewPost) (id currentUser : string) :
  okPost ok post ->
  respects R (updatePosts workspaceName channelName post id currentUser).
Proof.
  intros Hok.
  unfold updatePosts. destruct (negb (Js.isNaN (Js.parseInt id))).
  - apply respects_bind; [apply respects_gets|]. intros all.
    destruct (Js.get all (Doc.path post)) as [replace|].
    + apply respects_bind; [now apply respects_updateKnown|].
      intros _. apply respects_ret.
    + now apply respects_updateUnknown.
  - destruct (Js.isNaN (Js.parseInt (Js.charAt id (Js.strlen id - 1))));
      [|apply respects_ret].
    apply respects_bind; [apply respects_gets|]. intros all.
    destruct (Js.get all (Doc.path post)) as [replace|].
    + apply respects_bind; [now apply respects_updateKnown|].
      intros dropped. destruct dropped; [apply respects_ret|].
      apply respects_modify. intros st. now apply R_frame.
    + apply respects_bind; [now apply respects_updateUnknown|].
      intros _. apply respects_modify. intros st. now apply R_frame.
Qed.

(** The part of [togglePin] after the pin button was changed. *)
Lemma R_fold_frame {A : Type} (f : PostView -> A -> PostView) (l : list A)
    (st : PostView) :
  (forall s x, heap (f s x) = heap s) -> R st (fold_left f l st).
Proof.
  intros H. apply R_frame. revert st.
  induction l as [|x l IH]; intros st; cbn [fold_left]; [reflexivity|].
  now rewrite IH, H.
Qed.

Lemma respects_togglePin (postPath : string) (pinned : bool) :
  (forall st o b,
     R st (updateItem o
             (fun p =>
                enablePostButton "pin"
                  (withPinButton (mkButton b (disabled (pinButton p))) p))
             st)) ->
  respects R (togglePin postPath pinned).
Proof.
  intros Hpin st. unfold togglePin.
  destruct (Js.get _ postPath) as [postElem|]; [|apply R_refl].
  eapply R_trans; [apply (Hpin st postElem (negb pinned))|].
  set (st1 := updateItem postElem _ st).
  destruct pinned.
  - match goal with
    | |- R st1 (stateOf (insertBefore _ _ _ ?s)) =>
        apply (R_trans _ s); [|apply respects_insertBefore]
    end.
    eapply R_trans; [|apply R_fold_frame; intros; reflexivity].
    now apply R_frame.
  - match goal with
    | |- R st1 (stateOf (insertBefore _ _ _ ?s)) =>
        apply (R_trans _ s); [|apply respects_insertBefore]
    end.
    eapply R_trans; [|apply R_fold_frame; intros; reflexivity].
    now apply R_frame.
Qed.

End Generic.

End Respect.

(** ** What no call on the view ever does *)

Module SessionProps.
Import PostComponent PostViewTs Session StoreFacts.

Lemma item_same_heap (st st' : PostView) (o : oid) :
  heap st' = heap st -> item st' o = item st o.
Proof. unfold item. now intros ->. Qed.

Lemma item_overflow (st : PostView) (o : oid) :
  (length (heap st) <= o)%nat -> item st o = emptyItem.
Proof. intros H. unfold item. now apply nth_overflow. Qed.

Lemma writtenOnce_enablePostButton (reaction : string) (p : PostItem) :
  writtenOnce (enablePostButton reaction p) = writtenOnce p.
Proof.
  unfold enablePostButton.
  destruct (emojiOfName reaction) as [e|];
    [now destruct e | now destruct (String.eqb reaction "pin")].
Qed.

Lemma length_updateItem (o : oid) (f : PostItem -> PostItem) (st : PostView) :
  length (heap (updateItem o f st)) = length (heap st).
Proof. apply length_updateNth. Qed.

(** *** Elements stay, and stay what they are *)

Lemma extends_refl (st : PostView) : extends st st.
Proof. split; [lia | reflexivity]. Qed.

Lemma extends_trans (a b c : PostView) :
  extends a b -> extends b c -> extends a c.
Proof.
  intros [H1 H2] [K1 K2]. split; [lia|].
  intros o Ho. rewrite K2 by lia. now apply H2.
Qed.

Lemma extends_frame (st st' : PostView) : heap st' = heap st -> extends st st'.
Proof.
  intros H. split; [now rewrite H|].
  intros o _. now rewrite (item_same_heap st st' o H).
Qed.

Lemma extends_updateItem (st : PostView) (o : oid) (f : PostItem -> PostItem) :
  (forall p, writtenOnce (f p) = writtenOnce p) ->
  extends st (updateItem o f st).
Proof.
  intros H. split; [now rewrite length_updateItem|].
  intros o' _. rewrite item_updateItem.
  destruct (Nat.eqb_spec o' o) as [-> | _]; cbn [andb]; [|reflexivity].
  destruct (Nat.ltb o (length (heap st))); [apply H | reflexivity].
Qed.

Lemma extends_all (st : PostView) (f : PostItem -> PostItem) :
  (forall p, tame p (f p)) -> extends st (withHeap (map f (heap st)) st).
Proof.
  intros H. split; [cbn [heap withHeap]; now rewrite length_map|].
  intros o Ho. rewrite Respect.item_map.
  apply Nat.ltb_lt in Ho. rewrite Ho. apply H.
Qed.

Lemma extends_alloc (st : PostView) (fresh : PostItem) :
  extends st (withHeap (heap st ++ [fresh]) st).
Proof.
  split; [cbn [heap withHeap]; rewrite length_app; lia|].
  intros o Ho. rewrite Respect.item_alloc.
  apply Nat.ltb_lt in Ho. now rewrite Ho.
Qed.

Lemma extends_updateReactions (postPath reaction : string) (reacted : bool) :
  respects extends (updateReactions postPath reaction reacted).
Proof.
  intros st. unfold updateReactions.
  destruct (match Js.get (allPostMapping st) postPath with
            | Some postElem => Some postElem
            | None => Js.get (pinnedPostMapping st) postPath
            end) as [postElem|]; [|apply extends_refl].
  destruct (emojiOfName reaction) as [e|].
  - cbn [stateOf]. apply extends_updateItem. intros p.
    rewrite writtenOnce_enablePostButton. now destruct e.
  - destruct (_ || _); apply extends_refl.
Qed.

Lemma extends_item (st : PostView) (o : oid) (f : PostItem -> PostItem) :
  (forall p, tame p (f p)) -> extends st (updateItem o f st).
Proof. intros H. apply extends_updateItem. intros p. apply H. Qed.

(** Every document will do for a relation that does not look at the
    counts. *)
Lemma any_posts (posts : list Doc.ViewPost) :
  Forall (okPost (fun _ => True)) posts.
Proof. apply Forall_forall. intros p _. exact I. Qed.

Ltac extends_laws :=
  first [ exact I | exact extends_refl | exact extends_trans
        | exact extends_frame | exact extends_item | exact extends_all
        | apply any_posts | intros; apply extends_alloc ].

Lemma extends_call (c : Call) : respects extends (call c).
Proof.
  destruct c; cbn [call].
  - apply (Respect.respects_displayAllPosts extends (fun _ => True));
      extends_laws.
  - apply (Respect.respects_updatePosts extends (fun _ => True));
      extends_laws.
  - apply extends_updateReactions.
  - apply Respect.respects_togglePin; try extends_laws.
    intros st o b. apply extends_updateItem. intros p.
    now rewrite writtenOnce_enablePostButton.
Qed.

(** Through every sequence of calls on the view no element is removed from
    the store, and no element changes its message, poster, creation time,
    path, stored reactors, workspace, channel or parent. *)
Theorem elements_stay_as_constructed (calls : list Call) (st : PostView) :
  extends st (run calls st).
Proof.
  revert st. induction calls as [|c calls IH]; intros st; cbn [run fold_left].
  - apply extends_refl.
  - eapply extends_trans; [apply extends_call | apply IH].
Qed.

(** *** Count paragraphs stay canonical *)

Lemma canonical_bound (b : Z) (st : PostView) : canonicalCounts b st -> 0 <= b.
Proof. intros H. destruct (H 0%nat Smile) as (n & Hn & _). lia. Qed.

Lemma canonical_mono (b b' : Z) (st : PostView) :
  b <= b' -> canonicalCounts b st -> canonicalCounts b' st.
Proof.
  intros Hb H o e. destruct (H o e) as (n & Hn & Ht).
  exists n. split; [lia | exact Ht].
Qed.

Lemma canonical_refl (b : Z) (st : PostView) : keepsCanonical b st st.
Proof. intros H. exact H. Qed.

Lemma canonical_trans (b : Z) (s1 s2 s3 : PostView) :
  keepsCanonical b s1 s2 -> keepsCanonical b s2 s3 -> keepsCanonical b s1 s3.
Proof. intros H1 H2 H. auto. Qed.

Lemma canonical_frame (b : Z) (st st' : PostView) :
  heap st' = heap st -> keepsCanonical b st st'.
Proof. intros H Hc o e. rewrite (item_same_heap st st' o H). apply Hc. Qed.

Lemma canonical_updateItem (b : Z) (st : PostView) (o : oid)
    (f : PostItem -> PostItem) :
  (forall p e, countText e (f p) = countText e p) ->
  keepsCanonical b st (updateItem o f st).
Proof.
  intros H Hc o' e. rewrite item_updateItem.
  destruct (Nat.eqb o' o && Nat.ltb o (length (heap st))); [|apply Hc].
  rewrite H. apply Hc.
Qed.

Lemma canonical_item (b : Z) (st : PostView) (o : oid)
    (f : PostItem -> PostItem) :
  (forall p, tame p (f p)) -> keepsCanonical b st (updateItem o f st).
Proof. intros H. apply canonical_updateItem. intros p e. apply H. Qed.

Lemma canonical_emptyItem (b : Z) (e : Emoji) :
  0 <= b ->
  exists n, Z.abs n <= b /\ countText e emptyItem = Observe.renderCount n.
Proof. intros Hb. exists 0. split; [lia | now destruct e]. Qed.

Lemma canonical_all (b : Z) (st : PostView) (f : PostItem -> PostItem) :
  (forall p, tame p (f p)) ->
  keepsCanonical b st (withHeap (map f (heap st)) st).
Proof.
  intros H Hc o e. rewrite Respect.item_map.
  destruct (Nat.ltb o (length (heap st)));
    [|apply canonical_emptyItem, (canonical_bound b st Hc)].
  destruct (H (item st o)) as (_ & Hcount & _). rewrite Hcount. apply Hc.
Qed.

Lemma canonical_alloc (b : Z) (st : PostView) (fresh : PostItem)
    (reactionNumbers : list nat) :
  b <= 2 ^ 53 ->
  Forall (fun n => Z.of_nat n <= b) reactionNumbers ->
  builtFrom reactionNumbers fresh ->
  keepsCanonical b st (withHeap (heap st ++ [fresh]) st).
Proof.
  intros Hb Hok [_ Hf] Hc o e. rewrite Respect.item_alloc.
  destruct (Nat.ltb o (length (heap st))); [apply Hc|].
  destruct (Nat.eqb o (length (heap st)));
    [|apply canonical_emptyItem, (canonical_bound b st Hc)].
  destruct (initialCount_canonical reactionNumbers (emojiIndex e)
              (countText e fresh) b Hok Hb (Hf e)) as (n & Hn & Ht).
  exists n. split; [lia | exact Ht].
Qed.

(** [updateReactions] moves one count by one. *)
Lemma canonical_updateReactions (b : Z) (postPath reaction : string)
    (reacted : bool) (st : PostView) :
  b <= Js.maxSafeInteger ->
  canonicalCounts b st ->
  canonicalCounts (b + 1)
    (stateOf (updateReactions postPath reaction reacted st)).
Proof.
  intros Hb Hc.
  assert (canonicalCounts (b + 1) st) as Hc1
    by (apply (canonical_mono b); [lia | exact Hc]).
  unfold updateReactions.
  destruct (match Js.get (allPostMapping st) postPath with
            | Some postElem => Some postElem
            | None => Js.get (pinnedPostMapping st) postPath
            end) as [postElem|]; [|exact Hc1].
  destruct (emojiOfName reaction) as [e|].
  - cbn [stateOf]. intros o' e'. rewrite item_updateItem.
    destruct (Nat.eqb o' postElem && Nat.ltb postElem (length (heap st)));
      [|apply Hc1].
    rewrite countText_enablePostButton, countText_withCountText.
    destruct (match e, e' with
              | Smile, Smile | Like, Like | Frown, Frown
              | Celebrate, Celebrate => true
              | _, _ => false
              end).
    + destruct (Hc postElem e) as (n & Hn & Ht).
      assert (Z.abs n <= Js.maxSafeInteger) as Hsafe by lia.
      destruct (ReactionProps.addInteger_safe n reacted Hsafe)
        as [Hadd Hnext].
      rewrite Ht, ReactionProps.parse_renderCount
        by now apply JsFacts.safe_bound.
      rewrite Hadd, ReactionProps.text_renderCount by exact Hnext.
      eexists. split; [|reflexivity]. destruct reacted; lia.
    + destruct (Hc1 postElem e') as (n & Hn & Ht). exists n.
      split; [exact Hn|]. rewrite <- Ht. now destruct e, e'.
  - destruct (_ || _); exact Hc1.
Qed.

Ltac canonical_laws :=
  first [ exact (canonical_refl _) | exact (canonical_trans _)
        | exact (canonical_frame _) | exact (canonical_item _)
        | exact (canonical_all _) | assumption
        | repeat constructor; lia
        | intros; eapply canonical_alloc; eassumption ].

(** The calls that build elements keep the bound of the counts. *)
Lemma canonical_call (b : Z) (c : Call) (st : PostView) :
  0 <= b <= 2 ^ 53 ->
  callWithin b c ->
  match c with UpdateReactions _ _ _ => False | _ => True end ->
  keepsCanonical b st (stateOf (call c st)).
Proof.
  intros Hb Hin Hkind.
  assert (forall s fresh reactionNumbers,
            Forall (fun n => Z.of_nat n <= b) reactionNumbers ->
            builtFrom reactionNumbers fresh ->
            keepsCanonical b s (withHeap (heap s ++ [fresh]) s)) as Halloc.
  { intros s fresh numbers Hok Hf. now apply (canonical_alloc b s fresh numbers). }
  assert (Forall (fun n => Z.of_nat n <= b) (getReactions None)) as Hnone
    by (repeat constructor; lia).
  destruct c; cbn [call callWithin] in *.
  - apply (Respect.respects_displayAllPosts (keepsCanonical b)
             (Forall (fun n => Z.of_nat n <= b))); canonical_laws.
  - apply (Respect.respects_updatePosts (keepsCanonical b)
             (Forall (fun n => Z.of_nat n <= b))); canonical_laws.
  - contradiction.
  - apply Respect.respects_togglePin; try canonical_laws.
    intros s o p. apply canonical_updateItem. intros q e.
    rewrite countText_enablePostButton. now destruct e.
Qed.

Lemma callWithin_mono (b b' : Z) (c : Call) :
  b <= b' -> callWithin b c -> callWithin b' c.
Proof.
  intros Hb. assert (forall p, reactionsWithin b p -> reactionsWithin b' p)
    as Hp.
  { intros p. unfold reactionsWithin, okPost. apply Forall_impl.
    intros n Hn. lia. }
  destruct c; cbn [callWithin]; try exact (fun H => H); try apply Hp.
  apply Forall_impl. exact Hp.
Qed.

(** One call raises the largest count by one at most. *)
Lemma canonical_step (b : Z) (c : Call) (st : PostView) :
  b <= Js.maxSafeInteger ->
  callWithin b c ->
  canonicalCounts b st ->
  canonicalCounts (b + 1) (stateOf (call c st)).
Proof.
  intros Hb Hin Hc. pose proof (canonical_bound b st Hc) as H0.
  unfold Js.maxSafeInteger in Hb.
  destruct c as [u w ch posts | w ch post id u | path reaction reacted
                | path pinned] eqn:Hcall.
  3: { cbn [call]. apply canonical_updateReactions;
         [unfold Js.maxSafeInteger; lia | exact Hc]. }
  all: apply (canonical_mono b); [lia|];
    rewrite <- Hcall;
    apply (canonical_call b c st); subst c;
      [lia | exact Hin | exact I | exact Hc].
Qed.

(** Through every sequence of calls on the view every count paragraph holds
    the empty string or the decimal numeral of an integer other than 0, as
    long as the counts are safe integers: if the counts of the page and the
    reaction arrays of the documents that arrive have magnitude [b] at most,
    then after [k] calls the counts have magnitude [b + k] at most, provided
    [b + k] is a safe integer. *)
Theorem counts_stay_canonical (calls : list Call) (b : Z) (st : PostView) :
  Forall (callWithin b) calls ->
  b + Z.of_nat (length calls) <= Js.maxSafeInteger ->
  canonicalCounts b st ->
  canonicalCounts (b + Z.of_nat (length calls)) (run calls st).
Proof.
  revert b st. induction calls as [|c calls IH]; intros b st Hin Hb Hc;
    cbn [run fold_left length].
  - replace (b + Z.of_nat 0) with b by lia. exact Hc.
  - inversion Hin as [|? ? Hc0 Hrest]; subst. cbn [length] in Hb.
    replace (b + Z.of_nat (S (length calls)))
      with (b + 1 + Z.of_nat (length calls)) in * by lia.
    apply IH.
    + eapply Forall_impl; [|exact Hrest]. intros c'.
      apply callWithin_mono. lia.
    + exact Hb.
    + apply canonical_step; [lia | exact Hc0 | exact Hc].
Qed.

(** The empty page, and what it becomes by a display of posts of which one
    has a like, a pin, a reaction and two reactions taken back. *)
Lemma counts_stay_canonical_witness :
  Forall (callWithin 1)
    [DisplayAllPosts "alice" "w" "c"
       [Scenario.earlierRoot; Scenario.plainRoot; Cases.laterRootLiked];
     TogglePin "/A" false;
     UpdateReactions "/R" "like" false;
     UpdateReactions "/A" "like" true;
     UpdateReactions "/A" "like" true]
  /\ 1 + Z.of_nat 5 <= Js.maxSafeInteger
  /\ canonicalCounts 1 Observe.emptyView
  /\ canonicalCounts (1 + Z.of_nat 5)
       (run [DisplayAllPosts "alice" "w" "c"
               [Scenario.earlierRoot; Scenario.plainRoot;
                Cases.laterRootLiked];
             TogglePin "/A" false;
             UpdateReactions "/R" "like" false;
             UpdateReactions "/A" "like" true;
             UpdateReactions "/A" "like" true]
          Observe.emptyView).
Proof.
  assert (Forall (callWithin 1)
            [DisplayAllPosts "alice" "w" "c"
               [Scenario.earlierRoot; Scenario.plainRoot;
                Cases.laterRootLiked];
             TogglePin "/A" false;
             UpdateReactions "/R" "like" false;
             UpdateReactions "/A" "like" true;
             UpdateReactions "/A" "like" true]) as Hin.
  { repeat constructor; cbn; lia. }
  assert (1 + Z.of_nat 5 <= Js.maxSafeInteger) as Hb
    by (unfold Js.maxSafeInteger; lia).
  assert (canonicalCounts 1 Observe.emptyView) as H.
  { intros o e. exists 0. split; [lia|]. unfold item.
    cbn [heap Observe.emptyView]. destruct o, e; reflexivity. }
  split; [exact Hin|]. split; [exact Hb|]. split; [exact H|].
  exact (counts_stay_canonical _ 1 Observe.emptyView Hin Hb H).
Defined.

(** *** Pin buttons *)

Lemma pins_refl (st : PostView) : keepsPinButtons st st.
Proof.
  split; [lia|]. intros o. split; [reflexivity|].
  intros H. now rewrite item_overflow.
Qed.

Lemma pins_trans (a b c : PostView) :
  keepsPinButtons a b -> keepsPinButtons b c -> keepsPinButtons a c.
Proof.
  intros [H1 H2] [K1 K2]. split; [lia|]. intros o. split.
  - intros Ho. rewrite (proj1 (K2 o)) by lia. now apply H2.
  - intros Ho. destruct (Nat.ltb_spec o (length (heap b))) as [Hlt | Hge].
    + rewrite (proj1 (K2 o)) by exact Hlt. now apply H2.
    + now apply K2.
Qed.

Lemma pins_frame (st st' : PostView) :
  heap st' = heap st -> keepsPinButtons st st'.
Proof.
  intros H. split; [now rewrite H|]. intros o.
  rewrite (item_same_heap st st' o H). split; [reflexivity|].
  intros Ho. now rewrite item_overflow.
Qed.

Lemma pins_item (st : PostView) (o : oid) (f : PostItem -> PostItem) :
  (forall p, tame p (f p)) -> keepsPinButtons st (updateItem o f st).
Proof.
  intros H. split; [now rewrite length_updateItem|]. intros o'.
  rewrite item_updateItem. split.
  - intros _. destruct (Nat.eqb_spec o' o) as [-> | _]; cbn [andb];
      [|reflexivity].
    destruct (Nat.ltb o (length (heap st))); [apply H | reflexivity].
  - intros Ho. destruct (Nat.eqb_spec o' o) as [-> | _]; cbn [andb].
    + apply Nat.ltb_ge in Ho. rewrite Ho. now rewrite item_overflow by
        (now apply Nat.ltb_ge).
    + now rewrite item_overflow.
Qed.

Lemma pins_all (st : PostView) (f : PostItem -> PostItem) :
  (forall p, tame p (f p)) ->
  keepsPinButtons st (withHeap (map f (heap st)) st).
Proof.
  intros H. split; [cbn [heap withHeap]; now rewrite length_map|].
  intros o. rewrite Respect.item_map. split.
  - intros Ho. apply Nat.ltb_lt in Ho. rewrite Ho. apply H.
  - intros Ho. apply Nat.ltb_ge in Ho. now rewrite Ho.
Qed.

Lemma pins_alloc (st : PostView) (fresh : PostItem)
    (reactionNumbers : list nat) :
  builtFrom reactionNumbers fresh ->
  keepsPinButtons st (withHeap (heap st ++ [fresh]) st).
Proof.
  intros [Hf _]. split; [cbn [heap withHeap]; rewrite length_app; lia|].
  intros o. rewrite Respect.item_alloc. split.
  - intros Ho. apply Nat.ltb_lt in Ho. now rewrite Ho.
  - intros Ho. apply Nat.ltb_ge in Ho. rewrite Ho.
    destruct (Nat.eqb o (length (heap st))); [now rewrite Hf | reflexivity].
Qed.

Lemma pins_display (currUser workspace channel : string)
    (posts : list Doc.ViewPost) (st : PostView) :
  keepsPinButtons st
    (stateOf (displayAllPosts currUser workspace channel posts st)).
Proof.
  apply (Respect.respects_displayAllPosts keepsPinButtons (fun _ => True));
    first [ exact I | exact pins_refl | exact pins_trans | exact pins_frame
          | exact pins_item | exact pins_all | apply any_posts
          | intros; eapply pins_alloc; eassumption ].
Qed.

Lemma pins_update (workspace channel : string) (post : Doc.ViewPost)
    (id currUser : string) (st : PostView) :
  keepsPinButtons st
    (stateOf (updatePosts workspace channel post id currUser st)).
Proof.
  apply (Respect.respects_updatePosts keepsPinButtons (fun _ => True));
    first [ exact I | exact pins_refl | exact pins_trans | exact pins_frame
          | exact pins_item | exact pins_all
          | intros; eapply pins_alloc; eassumption ].
Qed.

(** [displayAllPosts] and [updatePosts] never give a pin button the class
    ["pinned"]: the elements they build have it unmarked, also those they
    enter in [pinnedPostMapping], and the elements that were there keep their
    pin button. *)
Theorem display_and_update_leave_pin_buttons
    (currUser workspace channel : string) (posts : list Doc.ViewPost)
    (post : Doc.ViewPost) (id : string) (st : PostView) :
  keepsPinButtons st
    (stateOf (displayAllPosts currUser workspace channel posts st))
  /\ keepsPinButtons st
       (stateOf (updatePosts workspace channel post id currUser st)).
Proof. split; [apply pins_display | apply pins_update]. Qed.

End SessionProps.

(** ** New posts *)

Module NewPostProps.
Import PostComponent PostViewTs Session StoreFacts Handlers.

(** The element that the constructor builds for a document without
    children. *)
Lemma newPostItem_leaf (post : Doc.ViewPost) (workspaceName channelName : string)
    (st : PostView) :
  exists fresh,
    newPostItem (Doc.msg (Doc.doc post)) (Doc.createdBy (Doc.meta post))
      (Doc.createdAt (Doc.meta post)) (Doc.path post)
      (getReactions (Doc.reactions (Doc.doc post)))
      (Doc.reactions (Doc.doc post)) workspaceName channelName []
      (Doc.parent (Doc.doc post)) st
    = Ok (length (heap st)) (withHeap (heap st ++ [fresh]) st)
    /\ postPath fresh = Doc.path post
    /\ postTime fresh = Doc.createdAt (Doc.meta post)
    /\ reactors fresh = Doc.reactions (Doc.doc post)
    /\ childrenItems fresh = []
    /\ replies fresh = []
    /\ pinButton fresh = mkButton false false.
Proof.
  unfold newPostItem.
  assert (exists a b c d,
            getReactions (Doc.reactions (Doc.doc post)) = [a; b; c; d])
    as (a & b & c & d & Hn).
  { destruct (Doc.reactions (Doc.doc post)); cbn; repeat eexists. }
  rewrite Hn. unfold initialCount. cbn [nth_error].
  destruct a, b, c, d; cbn [fold_left]; eexists;
    (split; [reflexivity|]); repeat split.
Qed.

Lemma item_fresh (fresh : PostItem) (st : PostView) :
  item (withHeap (heap st ++ [fresh]) st) (length (heap st)) = fresh.
Proof.
  rewrite Respect.item_alloc, Nat.ltb_irrefl, Nat.eqb_refl. reflexivity.
Qed.

(** A callback that answers [undefined] for every element finds nothing. *)
Lemma findIndex_never {A : Type} (l : list A) :
  Js.findIndex (fun _ => false) l = -1.
Proof.
  unfold Js.findIndex. generalize 0 as i.
  induction l as [|x l IH]; intros i; cbn [Js.findIndexFrom];
    [reflexivity | apply IH].
Qed.

Lemma removeNode_absent (x : oid) (l : list oid) :
  Forall (fun o => (o < x)%nat) l -> removeNode x l = l.
Proof.
  unfold removeNode.
  induction 1 as [|o l Ho _ IH]; cbn [filter]; [reflexivity|].
  destruct (Nat.eqb_spec x o) as [-> | _]; [lia|]. cbn [negb].
  now rewrite IH.
Qed.

Lemma postArea_append (x : oid) (st : PostView) :
  postArea (attach PostArea x st) = removeNode x (postArea st) ++ [x].
Proof. reflexivity. Qed.

Lemma heap_append_PostArea (x : oid) (st : PostView) :
  heap (attach PostArea x st)
  = map (fun p => withReplies (removeNode x (replies p)) p) (heap st).
Proof. reflexivity. Qed.

(** The unknown-path branch for a top-level post, for both kinds of identifier. *)
Lemma unknown_top_level_post (workspaceName channelName : string)
    (post : Doc.ViewPost) (id currentUser : string) (st : PostView) :
  handledId id = true ->
  Js.get (allPostMapping st) (Doc.path post) = None ->
  replyParent post = None ->
  Forall (fun o => (o < length (heap st))%nat) (postArea st) ->
  exists st',
    updatePosts workspaceName channelName post id currentUser st = Ok tt st'
    /\ postArea st' = postArea st ++ [length (heap st)]
    /\ allPostMapping st'
       = Js.set (allPostMapping st) (Doc.path post) (length (heap st))
    /\ pinnedPostMapping st' = pinnedPostMapping st
    /\ length (heap st') = S (length (heap st))
    /\ postPath (item st' (length (heap st))) = Doc.path post
    /\ postTime (item st' (length (heap st))) = Doc.createdAt (Doc.meta post)
    /\ reactors (item st' (length (heap st))) = Doc.reactions (Doc.doc post)
    /\ lastEventID st' = (if localId id then id else lastEventID st)
    /\ consoleErrors st' = consoleErrors st.
Proof.
  intros Hid Hget Hroot Hwf.
  destruct (newPostItem_leaf post workspaceName channelName st)
    as (fresh & Hnew & Hpath & Htime & Hreact & _ & Hrep & _).
  set (n := length (heap st)) in *.
  set (st1 := withHeap (heap st ++ [fresh]) st) in *.
  assert (forall local,
            updateUnknown post workspaceName channelName local st
            = Ok tt (attach PostArea n
                       (withAll (Js.set (allPostMapping st) (Doc.path post) n)
                          st1))) as Hunk.
  { intros local. unfold updateUnknown, bind. rewrite Hnew.
    unfold setAll, modify. rewrite Hroot.
    destruct local; [|reflexivity]. now rewrite findIndex_never. }
  set (st2 := attach PostArea n
                (withAll (Js.set (allPostMapping st) (Doc.path post) n) st1))
    in *.
  assert (postArea st2 = postArea st ++ [n]) as Harea.
  { unfold st2. rewrite postArea_append.
    change (postArea (withAll _ st1)) with (postArea st).
    now rewrite removeNode_absent. }
  assert (length (heap st2) = S n) as Hlen.
  { unfold st2. rewrite heap_append_PostArea, length_map.
    change (heap (withAll _ st1)) with (heap st ++ [fresh]).
    rewrite length_app. cbn [length]. unfold n. lia. }
  assert (item st2 n = fresh) as Hitem.
  { set (s := withAll (Js.set (allPostMapping st) (Doc.path post) n) st1)
      in *.
    transitivity
      (item (withHeap
               (map (fun p => withReplies (removeNode n (replies p)) p)
                  (heap s)) s) n); [reflexivity|].
    rewrite Respect.item_map.
    change (heap s) with (heap st ++ [fresh]). rewrite length_app.
    cbn [length]. fold n.
    replace (Nat.ltb n (n + 1)) with true by (symmetry; apply Nat.ltb_lt; lia).
    change (item s n) with (item st1 n). unfold st1, n.
    rewrite item_fresh, Hrep. clear - Hrep.
    destruct fresh. cbn in Hrep |- *. now subst. }
  unfold handledId in Hid. unfold localId. unfold updatePosts.
  destruct (Js.isNaN (Js.parseInt id)); cbn [negb orb andb] in *.
  - rewrite Hid. unfold bind at 1. unfold gets. rewrite Hget.
    unfold bind. rewrite Hunk. unfold modify.
    exists (withLastEventID id st2). split; [reflexivity|].
    change (item (withLastEventID id st2) n) with (item st2 n).
    rewrite Hitem.
    split; [exact Harea|]. split; [reflexivity|]. split; [reflexivity|].
    split; [exact Hlen|]. now repeat split.
  - unfold bind at 1. unfold gets. rewrite Hget, Hunk.
    exists st2. split; [reflexivity|]. rewrite Hitem.
    split; [exact Harea|]. split; [reflexivity|]. split; [reflexivity|].
    split; [exact Hlen|]. now repeat split.
Qed.

(** A post with an unknown path and no parent is put at the end of the post
    area, whatever its creation time, by the stream branch and by the local
    branch alike; it is entered in [allPostMapping] under its path, and a
    local identifier is remembered. *)
Theorem new_top_level_post_is_appended (workspaceName channelName : string)
    (post : Doc.ViewPost) (id currentUser : string) (st : PostView) :
  handledId id = true ->
  Js.get (allPostMapping st) (Doc.path post) = None ->
  replyParent post = None ->
  Forall (fun o => (o < length (heap st))%nat) (postArea st) ->
  exists st',
    updatePosts workspaceName channelName post id currentUser st = Ok tt st'
    /\ postArea st' = postArea st ++ [length (heap st)]
    /\ allPostMapping st'
       = Js.set (allPostMapping st) (Doc.path post) (length (heap st))
    /\ pinnedPostMapping st' = pinnedPostMapping st
    /\ length (heap st') = S (length (heap st))
    /\ postPath (item st' (length (heap st))) = Doc.path post
    /\ postTime (item st' (length (heap st))) = Doc.createdAt (Doc.meta post)
    /\ reactors (item st' (length (heap st))) = Doc.reactions (Doc.doc post)
    /\ lastEventID st' = (if localId id then id else lastEventID st)
    /\ consoleErrors st' = consoleErrors st.
Proof. exact (unknown_top_level_post workspaceName channelName post id currentUser st). Qed.

(** A reply with an unknown path whose parent is not in [allPostMapping] is
    built and entered in the map all the same; it is attached to nothing,
    and nothing is reported. *)
Theorem orphan_reply_is_kept_in_the_map (workspaceName channelName : string)
    (post : Doc.ViewPost) (id currentUser parent : string) (st : PostView) :
  handledId id = true ->
  Js.get (allPostMapping st) (Doc.path post) = None ->
  replyParent post = Some parent ->
  parent <> Doc.path post ->
  Js.get (allPostMapping st) parent = None ->
  exists st' fresh,
    updatePosts workspaceName channelName post id currentUser st = Ok tt st'
    /\ heap st' = heap st ++ [fresh]
    /\ postPath fresh = Doc.path post
    /\ allPostMapping st'
       = Js.set (allPostMapping st) (Doc.path post) (length (heap st))
    /\ postArea st' = postArea st
    /\ pinnedPostMapping st' = pinnedPostMapping st
    /\ consoleErrors st' = consoleErrors st.
Proof.
  intros Hid Hget Hparent Hne Hnone.
  destruct (newPostItem_leaf post workspaceName channelName st)
    as (fresh & Hnew & Hpath & _).
  assert (Js.get (Js.set (allPostMapping st) (Doc.path post)
                    (length (heap st))) parent = None) as Hstill.
  { revert Hnone. generalize (allPostMapping st) as m.
    induction m as [|[k v] m IH]; cbn [Js.set Js.get].
    - intros _. destruct (String.eqb_spec parent (Doc.path post));
        [contradiction | reflexivity].
    - destruct (String.eqb_spec parent k) as [-> | Hk]; [discriminate|].
      intros Hm. destruct (String.eqb (Doc.path post) k); cbn [Js.get];
        destruct (String.eqb_spec parent k); try contradiction; auto. }
  assert (forall local,
            updateUnknown post workspaceName channelName local st
            = Ok tt (withAll (Js.set (allPostMapping st) (Doc.path post)
                                (length (heap st)))
                       (withHeap (heap st ++ [fresh]) st))) as Hunk.
  { intros local. unfold updateUnknown, bind. rewrite Hnew.
    unfold setAll, modify. rewrite Hparent. unfold gets.
    cbn [allPostMapping withAll withHeap]. now rewrite Hstill. }
  unfold handledId in Hid. unfold updatePosts.
  destruct (Js.isNaN (Js.parseInt id)); cbn [negb orb] in *.
  - rewrite Hid. unfold bind at 1. unfold gets. rewrite Hget.
    unfold bind. rewrite Hunk. unfold modify.
    eexists. exists fresh. split; [reflexivity|]. now repeat split.
  - unfold bind at 1. unfold gets. rewrite Hget, Hunk.
    eexists. exists fresh. split; [reflexivity|]. now repeat split.
Qed.

End NewPostProps.

(** ** Identifiers of local events *)

Module LocalIdProps.
Import PostComponent PostViewTs Session StoreFacts Handlers.

Lemma get_characters_letter (i : nat) (c : ascii) :
  String.get i characters = Some c -> isLetter c = true.
Proof.
  unfold characters.
  do 52 (destruct i as [|i]; [intros [= <-]; reflexivity|]).
  discriminate.
Qed.

Lemma allLetters_charAt (d : Z) : allLetters (Js.charAt characters d) = true.
Proof.
  unfold Js.charAt. destruct (d <? 0); [reflexivity|].
  destruct (String.get (Z.to_nat d) characters) as [c|] eqn:Hc;
    [|reflexivity].
  cbn [allLetters]. now rewrite (get_characters_letter _ _ Hc).
Qed.

Lemma allLetters_append (a b : string) :
  allLetters a = true -> allLetters b = true ->
  allLetters (String.append a b) = true.
Proof.
  intros Ha Hb. induction a as [|c a IH]; cbn [String.append allLetters] in *;
    [exact Hb|].
  apply andb_true_iff in Ha as [Hc Ha]. now rewrite Hc, IH.
Qed.

Lemma allLetters_genUniqueID (draws : list Z) :
  allLetters (genUniqueID draws) = true.
Proof.
  unfold genUniqueID. generalize "" as result, (eq_refl : allLetters "" = true).
  induction draws as [|d draws IH]; intros result Hr; cbn [fold_left];
    [exact Hr|].
  apply IH. apply allLetters_append; [exact Hr | apply allLetters_charAt].
Qed.

Lemma letter_is_plain (c : ascii) :
  isLetter c = true ->
  Js.isWhiteSpace c = false /\ Ascii.eqb "-" c = false
  /\ Ascii.eqb "+" c = false /\ Ascii.eqb "0" c = false
  /\ Js.decValue c = None.
Proof.
  intros H. unfold isLetter in H.
  assert (65 <= Js.code c) as Hlo.
  { apply orb_true_iff in H as [H | H]; apply andb_true_iff in H as [H _];
      apply Z.leb_le in H; lia. }
  repeat split.
  - unfold Js.isWhiteSpace. fold (Js.code c).
    destruct (Z.leb_spec 9 (Js.code c)), (Z.leb_spec (Js.code c) 13),
      (Z.eqb_spec (Js.code c) 32), (Z.eqb_spec (Js.code c) 160);
      cbn; try reflexivity; lia.
  - destruct (Ascii.eqb_spec "-" c) as [<- | _]; [|reflexivity].
    vm_compute in Hlo. now contradiction Hlo.
  - destruct (Ascii.eqb_spec "+" c) as [<- | _]; [|reflexivity].
    vm_compute in Hlo. now contradiction Hlo.
  - destruct (Ascii.eqb_spec "0" c) as [<- | _]; [|reflexivity].
    vm_compute in Hlo. now contradiction Hlo.
  - unfold Js.decValue, Js.isDigit.
    destruct (Z.leb_spec (Js.code c) 57); [lia|].
    now rewrite andb_false_r.
Qed.

(** [parseInt] reads no number from a string of letters. *)
Lemma parseInt_allLetters (s : string) :
  allLetters s = true -> Js.parseInt s = None.
Proof.
  destruct s as [|c s]; [reflexivity|]. cbn [allLetters]. intros H.
  apply andb_true_iff in H as [Hc _].
  destruct (letter_is_plain c Hc) as (Hw & Hm & Hp & Hz & Hd).
  unfold Js.parseInt. cbn [Js.trimStart]. rewrite Hw.
  cbn [Js.startsWith]. rewrite Hm, Hp. cbn [orb]. cbn [Js.startsWith].
  rewrite Hz. cbn [andb Js.readDigits]. now rewrite Hd.
Qed.

Lemma isLetter_get (s : string) (i : nat) (c : ascii) :
  allLetters s = true -> String.get i s = Some c -> isLetter c = true.
Proof.
  revert i. induction s as [|x s IH]; intros i H Hg; [discriminate|].
  cbn [allLetters] in H. apply andb_true_iff in H as [Hx Hs].
  destruct i as [|i]; cbn [String.get] in Hg.
  - now injection Hg as <-.
  - now apply (IH i).
Qed.

(** Letters only: no number is read from the identifier or from its last character. *)
Lemma localId_genUniqueID (draws : list Z) :
  localId (genUniqueID draws) = true.
Proof.
  pose proof (allLetters_genUniqueID draws) as H. unfold localId.
  rewrite (parseInt_allLetters _ H). cbn [Js.isNaN andb].
  unfold Js.charAt. destruct (_ <? 0); [reflexivity|].
  destruct (String.get _ _) as [c|] eqn:Hc; [|reflexivity].
  rewrite parseInt_allLetters; [reflexivity|].
  cbn [allLetters]. now rewrite (isLetter_get _ _ _ H Hc).
Qed.

(** Every identifier that [genUniqueID] can return, the empty one included,
    is taken by [updatePosts] for the identifier of a local event. *)
Theorem generated_id_is_local (draws : list Z) :
  localId (genUniqueID draws) = true.
Proof. exact (localId_genUniqueID draws). Qed.

(** The answer to a local creation of a top-level post with an unknown
    path: the post is appended, its identifier is remembered, and
    [successCreate] accepts it. *)
Theorem local_creation_succeeds (workspaceName channelName : string)
    (response : Doc.ViewPost) (draws : list Z) (username : string)
    (st : PostView) :
  Js.get (allPostMapping st) (Doc.path response) = None ->
  replyParent response = None ->
  Forall (fun o => (o < length (heap st))%nat) (postArea st) ->
  exists st',
    createPostResolved workspaceName channelName response (genUniqueID draws)
      username st = Ok true st'
    /\ lastEventID st' = genUniqueID draws
    /\ postArea st' = postArea st ++ [length (heap st)]
    /\ consoleErrors st' = consoleErrors st.
Proof.
  intros Hget Hroot Hwf.
  pose proof (localId_genUniqueID draws) as Hlocal.
  assert (handledId (genUniqueID draws) = true) as Hid.
  { unfold handledId. unfold localId in Hlocal.
    apply andb_true_iff in Hlocal as [_ ->]. apply orb_true_r. }
  destruct (NewPostProps.unknown_top_level_post workspaceName
              channelName response (genUniqueID draws) username st
              Hid Hget Hroot Hwf)
    as (st' & Hrun & Harea & _ & _ & _ & _ & _ & _ & Hlast & Hcons).
  rewrite Hlocal in Hlast.
  exists st'. unfold createPostResolved, bind. rewrite Hrun.
  unfold successCreate. rewrite Hlast, String.eqb_refl. cbn [negb].
  now repeat split.
Qed.

End LocalIdProps.

(** ** Clicks *)

Module ClickProps.
Import PostComponent PostViewTs Session StoreFacts Handlers.

(** A post that [displayAllPosts] built and did not enter in
    [allPostMapping], that is, a post it shows as pinned, has a pin button
    without the class ["pinned"].  A click on it reports [pinned = false];
    [togglePin] then looks in [allPostMapping], finds nothing and throws, and
    the button stays disabled. *)
Theorem pin_click_on_displayed_pinned_post_throws
    (currUser workspace channel : string) (posts : list Doc.ViewPost)
    (st st' : PostView) (o : oid) (clicker : string) :
  displayAllPosts currUser workspace channel posts st = Ok tt st' ->
  (length (heap st) <= o < length (heap st'))%nat ->
  Js.get (allPostMapping st') (postPath (item st' o)) = None ->
  pinPinned (fst (onPinClick clicker o st')) = false
  /\ pinPostResolved (fst (onPinClick clicker o st'))
       (snd (onPinClick clicker o st'))
     = (snd (onPinClick clicker o st'),
        Some "The post with the specified path is undefined")
  /\ disabled (pinButton (item (snd (onPinClick clicker o st')) o)) = true.
Proof.
  intros Hrun [Hnew Hlt] Hnone.
  assert (keepsPinButtons st
            (stateOf (displayAllPosts currUser workspace channel posts st)))
    as [_ Hkeep].
  { apply SessionProps.pins_display. }
  rewrite Hrun in Hkeep. cbn [stateOf] in Hkeep.
  pose proof (proj2 (Hkeep o) Hnew) as Hunmarked.
  unfold onPinClick. cbn [fst snd pinPinned pinPath].
  split; [exact Hunmarked|]. split.
  - unfold pinPostResolved. cbn [pinPath pinPinned]. rewrite Hunmarked.
    unfold togglePin.
    change (allPostMapping (updateItem o _ st')) with (allPostMapping st').
    now rewrite Hnone.
  - now rewrite item_updateItem_same by exact Hlt.
Qed.

Lemma emojiOfName_emojiName (e : Emoji) : emojiOfName (emojiName e) = Some e.
Proof. now destruct e. Qed.

(** One click on a reaction button followed by the answer of the store. *)
Lemma click_and_answer (e : Emoji) (clicker : string) (o : oid) (n : Z)
    (st : PostView) :
  match Js.get (allPostMapping st) (postPath (item st o)) with
  | Some x => Some x
  | None => Js.get (pinnedPostMapping st) (postPath (item st o))
  end = Some o ->
  (o < length (heap st))%nat ->
  countText e (item st o) = Observe.renderCount n ->
  Z.abs n <= 2 ^ 53 ->
  Z.abs (if marked (reactionButton e (item st o)) then n - 1 else n + 1)
  <= 2 ^ 53 ->
  exists st',
    reactResolved (fst (onReactionClick e clicker o st))
      (snd (onReactionClick e clicker o st)) = (st', None)
    /\ reactionButton e (item st' o)
       = mkButton (negb (marked (reactionButton e (item st o)))) false
    /\ countText e (item st' o)
       = Observe.renderCount
           (if marked (reactionButton e (item st o)) then n - 1 else n + 1)
    /\ postPath (item st' o) = postPath (item st o)
    /\ length (heap st') = length (heap st)
    /\ allPostMapping st' = allPostMapping st
    /\ pinnedPostMapping st' = pinnedPostMapping st.
Proof.
  intros Hfound Hlt Hcount Hn Hnext.
  unfold onReactionClick. cbn [fst snd].
  set (reacted := marked (reactionButton e (item st o))).
  set (st1 := updateItem o _ st).
  assert (item st1 o
          = withReactionButton e (mkButton reacted true) (item st o)) as H1.
  { unfold st1. now rewrite item_updateItem_same by exact Hlt. }
  assert (length (heap st1) = length (heap st)) as Hlen1
    by apply SessionProps.length_updateItem.
  unfold reactResolved.
  cbn [reactPath reactEmoji reactReacted].
  rewrite (ReactionProps.updateReactions_ok st1 (postPath (item st o))
             (emojiName e) reacted o e).
  - cbv zeta. eexists. split; [reflexivity|].
    rewrite item_updateItem_same by (now rewrite Hlen1).
    rewrite H1.
    replace (countText e (withReactionButton e (mkButton reacted true)
                            (item st o)))
      with (Observe.renderCount n) by (now destruct e).
    rewrite ReactionProps.parse_renderCount by exact Hn.
    rewrite ReactionProps.addInteger_exact by exact Hnext.
    rewrite ReactionProps.text_renderCount by exact Hnext.
    unfold enablePostButton. rewrite emojiOfName_emojiName.
    split; [now destruct e|]. split; [now destruct e|].
    split; [now destruct e|]. split; [|now split].
    now rewrite SessionProps.length_updateItem.
  - exact Hfound.
  - apply emojiOfName_emojiName.
Qed.

(** Two clicks on the same reaction button, each answered by the store,
    bring the count paragraph and the class ["reacted"] back to what they
    were and leave the button enabled, whichever state the button was in,
    for a count that is a safe integer. *)
Theorem two_clicks_restore_the_reaction (e : Emoji) (clicker : string)
    (o : oid) (n : Z) (st : PostView) :
  match Js.get (allPostMapping st) (postPath (item st o)) with
  | Some x => Some x
  | None => Js.get (pinnedPostMapping st) (postPath (item st o))
  end = Some o ->
  (o < length (heap st))%nat ->
  countText e (item st o) = Observe.renderCount n ->
  Z.abs n <= Js.maxSafeInteger ->
  exists st1 st2,
    reactResolved (fst (onReactionClick e clicker o st))
      (snd (onReactionClick e clicker o st)) = (st1, None)
    /\ reactResolved (fst (onReactionClick e clicker o st1))
         (snd (onReactionClick e clicker o st1)) = (st2, None)
    /\ countText e (item st1 o)
       = Observe.renderCount
           (if marked (reactionButton e (item st o)) then n - 1 else n + 1)
    /\ countText e (item st2 o) = countText e (item st o)
    /\ reactionButton e (item st2 o)
       = mkButton (marked (reactionButton e (item st o))) false.
Proof.
  intros Hfound Hlt Hcount Hsafe. unfold Js.maxSafeInteger in Hsafe.
  assert (Z.abs n <= 2 ^ 53) as Hn by lia.
  assert (Z.abs (if marked (reactionButton e (item st o))
                 then n - 1 else n + 1) <= 2 ^ 53) as Hnext
    by (destruct (marked (reactionButton e (item st o))); lia).
  destruct (click_and_answer e clicker o n st Hfound Hlt Hcount Hn Hnext)
    as (st1 & Hrun1 & Hb1 & Hc1 & Hp1 & Hl1 & Ha1 & Hq1).
  assert (match Js.get (allPostMapping st1) (postPath (item st1 o)) with
          | Some x => Some x
          | None => Js.get (pinnedPostMapping st1) (postPath (item st1 o))
          end = Some o) as Hfound1 by now rewrite Ha1, Hq1, Hp1.
  assert (o < length (heap st1))%nat as Hlt1 by now rewrite Hl1.
  assert (Z.abs (if marked (reactionButton e (item st1 o))
                 then (if marked (reactionButton e (item st o))
                       then n - 1 else n + 1) - 1
                 else (if marked (reactionButton e (item st o))
                       then n - 1 else n + 1) + 1) <= 2 ^ 53) as Hback.
  { rewrite Hb1. cbn [marked].
    destruct (marked (reactionButton e (item st o))); cbn [negb]; lia. }
  destruct (click_and_answer e clicker o _ st1 Hfound1 Hlt1 Hc1 Hnext Hback)
    as (st2 & Hrun2 & Hb2 & Hc2 & _).
  exists st1, st2. split; [exact Hrun1|]. split; [exact Hrun2|].
  split; [exact Hc1|]. rewrite Hb1 in Hb2, Hc2. cbn [marked] in Hb2, Hc2.
  split.
  - rewrite Hc2, Hcount. f_equal.
    destruct (marked (reactionButton e (item st o))); cbn [negb]; lia.
  - rewrite Hb2. now rewrite negb_involutive.
Qed.

End ClickProps.

(** ** Sorting and the two arrays of [getPinnedPosts] *)

Module PinnedPostsProps.
Import PostComponent PostViewTs Order.

Section SortFacts.
Context {A : Type} (key : A -> Z).

Lemma insertSorted_perm (x : A) (l : list A) :
  Permutation (Js.insertSorted key x l) (x :: l).
Proof.
  induction l as [|y l IH]; cbn [Js.insertSorted]; [reflexivity|].
  destruct (key x <=? key y); [reflexivity|].
  rewrite IH. apply perm_swap.
Qed.

Lemma sortBy_perm (l : list A) : Permutation (Js.sortBy key l) l.
Proof.
  induction l as [|x l IH]; cbn [Js.sortBy fold_right]; [reflexivity|].
  fold (Js.sortBy key l). rewrite insertSorted_perm. now constructor.
Qed.

Lemma insertSorted_sorted (x : A) (l : list A) :
  sortedBy key l -> sortedBy key (Js.insertSorted key x l).
Proof.
  unfold sortedBy. induction 1 as [|y l Hs IH Hy]; cbn [Js.insertSorted].
  - repeat constructor.
  - destruct (Z.leb_spec (key x) (key y)) as [Hle | Hgt].
    + constructor; [now constructor|]. constructor; [exact Hle|].
      eapply Forall_impl; [|exact Hy]. cbn. intros a Ha. lia.
    + constructor; [exact IH|].
      eapply Permutation_Forall; [symmetry; apply insertSorted_perm|].
      constructor; [lia | exact Hy].
Qed.

Lemma sortBy_sorted (l : list A) : sortedBy key (Js.sortBy key l).
Proof.
  induction l as [|x l IH]; cbn [Js.sortBy fold_right]; [constructor|].
  now apply insertSorted_sorted.
Qed.

Lemma sortBy_of_sorted (l : list A) : sortedBy key l -> Js.sortBy key l = l.
Proof.
  unfold sortedBy. induction 1 as [|x l Hs IH Hx]; [reflexivity|].
  cbn [Js.sortBy fold_right]. fold (Js.sortBy key l). rewrite IH.
  destruct l as [|y l]; [reflexivity|]. cbn [Js.insertSorted].
  inversion Hx as [|? ? Hxy _]; subst.
  apply Z.leb_le in Hxy. now rewrite Hxy.
Qed.

Lemma sortedBy_app_one (l : list A) (y : A) :
  sortedBy key l -> Forall (fun x => key x <= key y) l ->
  sortedBy key (l ++ [y]).
Proof.
  unfold sortedBy. induction 1 as [|x l Hs IH Hx]; intros Hall; cbn [app].
  - repeat constructor.
  - inversion Hall; subst. constructor; [now apply IH|].
    apply Forall_app. split; [exact Hx | now constructor].
Qed.

End SortFacts.

(** [sort] with the comparator [(a, b) => key(a) - key(b)] keeps the elements
    and puts them in non-decreasing order of [key]; an array that is in that
    order already is left as it is. *)
Theorem sortBy_sorts {A : Type} (key : A -> Z) (l : list A) :
  Permutation (Js.sortBy key l) l
  /\ sortedBy key (Js.sortBy key l)
  /\ (sortedBy key l -> Js.sortBy key l = l).
Proof.
  split; [apply sortBy_perm | split; [apply sortBy_sorted|]].
  apply sortBy_of_sorted.
Qed.

Lemma getPinnedStep_cases (currUser : string)
    (pinnedPosts generalPosts : list Doc.ViewPost) (post : Doc.ViewPost) :
  getPinnedStep currUser (pinnedPosts, generalPosts) post
  = if pinnedDecision currUser pinnedPosts post
    then (pinnedPosts ++ [post], generalPosts)
    else (pinnedPosts, generalPosts ++ [post]).
Proof.
  unfold getPinnedStep, pinnedDecision, namesViewer.
  now destruct (pinsOf post).
Qed.

(** What the loop of [getPinnedPosts] keeps true. *)
Lemma getPinned_fold (currUser : string) (rest : list Doc.ViewPost)
    (pinnedPosts generalPosts : list Doc.ViewPost) :
  let key := fun p => Doc.createdAt (Doc.meta p) in
  sortedBy key pinnedPosts -> sortedBy key generalPosts -> sortedBy key rest ->
  (forall x y, In x (pinnedPosts ++ generalPosts) -> In y rest ->
               key x <= key y) ->
  (forall x pins, In x pinnedPosts -> pinsOf x = Some pins ->
                  namesViewer currUser pins = true) ->
  (forall x pins, In x generalPosts -> pinsOf x = Some pins ->
                  namesViewer currUser pins = false) ->
  let result :=
    fold_left (getPinnedStep currUser) rest (pinnedPosts, generalPosts) in
  Permutation (fst result ++ snd result) (pinnedPosts ++ generalPosts ++ rest)
  /\ sortedBy key (fst result) /\ sortedBy key (snd result)
  /\ (forall x pins, In x (fst result) -> pinsOf x = Some pins ->
                     namesViewer currUser pins = true)
  /\ (forall x pins, In x (snd result) -> pinsOf x = Some pins ->
                     namesViewer currUser pins = false).
Proof.
  intros key. revert pinnedPosts generalPosts.
  induction rest as [|post rest IH];
    intros pinnedPosts generalPosts Hp Hg Hr Hle Hin Hout; cbn [fold_left].
  - cbn [fst snd]. rewrite app_nil_r.
    split; [reflexivity|]. split; [exact Hp|]. split; [exact Hg|].
    split; assumption.
  - assert (sortedBy key rest) as Hr' by (now inversion Hr).
    assert (Forall (fun y => key post <= key y) rest) as Hpost
      by (now inversion Hr).
    assert (forall x, In x (pinnedPosts ++ generalPosts) ->
                      key x <= key post) as Hbelow
      by (intros x Hx; apply Hle; [exact Hx | now left]).
    assert (forall l, (forall x, In x l -> In x (pinnedPosts ++ generalPosts)) ->
                      Forall (fun x => key x <= key post) l) as Hall
      by (intros l Hl; apply Forall_forall; intros x Hx; apply Hbelow, Hl, Hx).
    assert (forall x y, In x (pinnedPosts ++ generalPosts ++ [post]) ->
                        In y rest -> key x <= key y) as Hle'.
    { intros x y Hx Hy. rewrite app_assoc in Hx.
      apply in_app_or in Hx as [Hx | [<- | []]].
      - apply Hle; [exact Hx | now right].
      - rewrite Forall_forall in Hpost. now apply Hpost. }
    rewrite getPinnedStep_cases.
    destruct (pinnedDecision currUser pinnedPosts post) eqn:Hd.
    + destruct (IH (pinnedPosts ++ [post]) generalPosts)
        as (H1 & H2 & H3 & H4 & H5); try assumption.
      * apply sortedBy_app_one; [exact Hp|]. apply Hall.
        intros x Hx. apply in_or_app. now left.
      * intros x y Hx Hy. apply Hle'; [|exact Hy].
        rewrite <- app_assoc in Hx.
        eapply Permutation_in; [|exact Hx].
        apply Permutation_app_head, Permutation_app_comm.
      * intros x ps Hx Hps. apply in_app_or in Hx as [Hx | [<- | []]];
          [now apply (Hin x)|].
        unfold pinnedDecision in Hd. now rewrite Hps in Hd.
      * split; [|split; [exact H2 | split; [exact H3 | split; assumption]]].
        rewrite H1, <- !app_assoc. apply Permutation_app_head.
        cbn [app]. apply Permutation_middle.
    + destruct (IH pinnedPosts (generalPosts ++ [post]))
        as (H1 & H2 & H3 & H4 & H5); try assumption.
      * apply sortedBy_app_one; [exact Hg|]. apply Hall.
        intros x Hx. apply in_or_app. now right.
      * intros x ps Hx Hps. apply in_app_or in Hx as [Hx | [<- | []]];
          [now apply (Hout x)|].
        unfold pinnedDecision in Hd. now rewrite Hps in Hd.
      * split; [|split; [exact H2 | split; [exact H3 | split; assumption]]].
        rewrite H1, <- !app_assoc. reflexivity.
Qed.

(** The two arrays of [getPinnedPosts]. *)
Lemma getPinnedPosts_arrays (currUser : string)
    (allPosts : list Doc.ViewPost) :
  let key := fun p => Doc.createdAt (Doc.meta p) in
  let result := getPinnedPosts currUser allPosts in
  Permutation (fst result ++ snd result) allPosts
  /\ sortedBy key (fst result) /\ sortedBy key (snd result)
  /\ (forall x pins, In x (fst result) -> pinsOf x = Some pins ->
                     namesViewer currUser pins = true)
  /\ (forall x pins, In x (snd result) -> pinsOf x = Some pins ->
                     namesViewer currUser pins = false).
Proof.
  intros key result. unfold result, getPinnedPosts.
  destruct (getPinned_fold currUser (Js.sortBy key allPosts) [] [])
    as (H1 & H2 & H3 & H4 & H5);
    try (now constructor); try (intros ? ? []); try apply sortBy_sorted.
  split; [|split; [exact H2 | split; [exact H3 | split; assumption]]].
  cbn [app] in H1. eapply Permutation_trans; [exact H1 | apply sortBy_perm].
Qed.

(** [getPinnedPosts] puts every post in exactly one of its two arrays, each
    in non-decreasing order of creation time.  A post with a [pins] array
    goes by that array alone: it is pinned when the array names the viewer
    and the viewer's name is not empty, and general otherwise, whatever
    holds for its parent. *)
Theorem getPinnedPosts_splits (currUser : string)
    (allPosts : list Doc.ViewPost) :
  let key := fun p => Doc.createdAt (Doc.meta p) in
  let result := getPinnedPosts currUser allPosts in
  Permutation (fst result ++ snd result) allPosts
  /\ sortedBy key (fst result) /\ sortedBy key (snd result)
  /\ Forall (fun x => match pinsOf x with
                      | Some pins => namesViewer currUser pins = true
                      | None => True
                      end) (fst result)
  /\ Forall (fun x => match pinsOf x with
                      | Some pins => namesViewer currUser pins = false
                      | None => True
                      end) (snd result).
Proof.
  destruct (getPinnedPosts_arrays currUser allPosts)
    as (H1 & H2 & H3 & H4 & H5).
  split; [exact H1|]. split; [exact H2|]. split; [exact H3|].
  split; apply Forall_forall; intros x Hx;
    destruct (pinsOf x) as [pins|] eqn:Hpins; try exact I.
  - exact (H4 x pins Hx Hpins).
  - exact (H5 x pins Hx Hpins).
Qed.

(** With an empty user name nothing is pinned: every post is general. *)
Theorem getPinnedPosts_without_user (allPosts : list Doc.ViewPost) :
  getPinnedPosts "" allPosts
  = ([], Js.sortBy (fun p => Doc.createdAt (Doc.meta p)) allPosts).
Proof.
  unfold getPinnedPosts.
  generalize (Js.sortBy (fun p => Doc.createdAt (Doc.meta p)) allPosts) as l.
  assert (forall l g,
            fold_left (getPinnedStep "") l ([], g) = ([], g ++ l)) as H.
  { induction l as [|post l IH]; intros g; cbn [fold_left].
    - now rewrite app_nil_r.
    - assert (getPinnedStep "" ([], g) post = ([], g ++ [post])) as ->.
      { unfold getPinnedStep. destruct (pinsOf post) as [pins|].
        - cbn [String.eqb negb]. now rewrite andb_false_r.
        - now destruct (Doc.parent (Doc.doc post)). }
      rewrite IH, <- app_assoc. reflexivity. }
  intros l. apply (H l []).
Qed.

End PinnedPostsProps.

(** ** The forests of [displayAllPosts] *)

Module ForestProps.
Import PostComponent PostViewTs Order.

Section MapFacts.
Context {V : Type}.

Lemma get_set_same (m : Js.JsMap V) (k : string) (v : V) :
  Js.get (Js.set m k v) k = Some v.
Proof.
  induction m as [|[k' v'] m IH]; cbn [Js.set Js.get].
  - now rewrite String.eqb_refl.
  - destruct (String.eqb k k') eqn:Hk; cbn [Js.get]; now rewrite Hk.
Qed.

Lemma get_set_other (m : Js.JsMap V) (k k' : string) (v : V) :
  k' <> k -> Js.get (Js.set m k v) k' = Js.get m k'.
Proof.
  intros Hne. induction m as [|[k0 v0] m IH]; cbn [Js.set Js.get].
  - destruct (String.eqb_spec k' k); [contradiction | reflexivity].
  - destruct (String.eqb_spec k k0) as [-> | Hk]; cbn [Js.get].
    + destruct (String.eqb_spec k' k0); [contradiction | reflexivity].
    + destruct (String.eqb k' k0); [reflexivity | exact IH].
Qed.

End MapFacts.

(** The first loop. *)
Lemma addNode_fold (posts : list Doc.ViewPost) (f : Forest) :
  let f' := fold_left addNode posts f in
  nodes f' = nodes f ++ map (fun p => mkTree p []) posts
  /\ roots f' = roots f /\ complaints f' = complaints f
  /\ (forall k, ~ In k (map Doc.path posts) ->
                Js.get (pathToTree f') k = Js.get (pathToTree f) k)
  /\ (NoDup (map Doc.path posts) ->
      forall i p, nth_error posts i = Some p ->
                  Js.get (pathToTree f') (Doc.path p)
                  = Some (length (nodes f) + i)%nat).
Proof.
  revert f. induction posts as [|q posts IH]; intros f; cbn [fold_left].
  - cbn [map]. rewrite app_nil_r. repeat split; try reflexivity.
    intros _ [|i] p; discriminate.
  - destruct (IH (addNode f q)) as (H1 & H2 & H3 & H4 & H5).
    cbn [addNode nodes roots complaints pathToTree] in *.
    split; [rewrite H1, <- app_assoc; reflexivity|].
    split; [exact H2|]. split; [exact H3|]. split.
    + intros k Hk. cbn [map] in Hk. rewrite H4 by (intros X; apply Hk; now right).
      apply get_set_other. intros ->. apply Hk. now left.
    + intros Hnd [|i] p Hp; cbn [map] in Hnd; inversion Hnd as [|? ? Hq Hnd'];
        subst; cbn [nth_error] in Hp.
      * injection Hp as <-. rewrite H4 by exact Hq.
        rewrite get_set_same. f_equal. lia.
      * rewrite (H5 Hnd' i p Hp). rewrite length_app. cbn [length].
        f_equal. lia.
Qed.

(** The root and the report that one turn of the second loop adds. *)
Lemma linkNode_cases (f : Forest) (currPost : Doc.ViewPost) (currNode : nat) :
  Js.get (pathToTree f) (Doc.path currPost) = Some currNode ->
  pathToTree (linkNode f currPost) = pathToTree f
  /\ map post (nodes (linkNode f currPost)) = map post (nodes f)
  /\ roots (linkNode f currPost)
     = roots f ++ (if isTopLevel currPost then [currNode] else [])
  /\ complaints (linkNode f currPost)
     = complaints f
       ++ (match replyParent currPost with
           | Some parent =>
               match Js.get (pathToTree f) parent with
               | Some _ => []
               | None => ["parent post tree not found in map"]
               end
           | None => []
           end).
Proof.
  intros Hget. unfold linkNode, isTopLevel, replyParent. rewrite Hget.
  destruct (Doc.parent (Doc.doc currPost)) as [parent|].
  - destruct (String.eqb parent ""); cbn [negb].
    + cbn. now rewrite app_nil_r.
    + destruct (Js.get (pathToTree f) parent) as [parentTree|]; cbn.
      * rewrite !app_nil_r. repeat split.
        generalize (nodes f) as l. clear.
        intros l. revert parentTree.
        induction l as [|t l IH]; intros [|n]; cbn; try reflexivity.
        now rewrite IH.
      * now rewrite app_nil_r.
  - cbn. now rewrite app_nil_r.
Qed.

Lemma linkNode_fold (posts : list Doc.ViewPost) (f : Forest) :
  (forall p, In p posts ->
             exists i, Js.get (pathToTree f) (Doc.path p) = Some i
                       /\ post (nth i (nodes f) emptyTree) = p) ->
  let f' := fold_left linkNode posts f in
  map post (nodes f') = map post (nodes f)
  /\ map (fun i => post (nth i (nodes f) emptyTree)) (roots f')
     = map (fun i => post (nth i (nodes f) emptyTree)) (roots f)
       ++ filter isTopLevel posts
  /\ complaints f'
     = complaints f
       ++ flat_map
            (fun p =>
               match replyParent p with
               | Some parent =>
                   match Js.get (pathToTree f) parent with
                   | Some _ => []
                   | None => ["parent post tree not found in map"]
                   end
               | None => []
               end) posts.
Proof.
  revert f. induction posts as [|q posts IH]; intros f Hall; cbn [fold_left].
  - cbn [filter flat_map]. now rewrite !app_nil_r.
  - destruct (Hall q (or_introl eq_refl)) as (i & Hi & Hq).
    destruct (linkNode_cases f q i Hi) as (Hm & Hn & Hr & Hc).
    assert (forall j, post (nth j (nodes (linkNode f q)) emptyTree)
                      = post (nth j (nodes f) emptyTree)) as Hpost.
    { intros j.
      change (post (nth j (nodes (linkNode f q)) emptyTree))
        with ((fun t => post t) (nth j (nodes (linkNode f q)) emptyTree)).
      rewrite <- (map_nth post), Hn. now rewrite map_nth. }
    destruct (IH (linkNode f q)) as (K1 & K2 & K3).
    { intros p Hp. destruct (Hall p (or_intror Hp)) as (j & Hj & Hpj).
      exists j. rewrite Hm, Hpost. now split. }
    split; [now rewrite K1|]. split.
    + rewrite !(map_ext _ _ Hpost) in K2. rewrite K2, Hr, map_app, <- app_assoc.
      f_equal. cbn [filter]. destruct (isTopLevel q); cbn [map app];
        [now rewrite Hq | reflexivity].
    + rewrite K3, Hc, Hm, <- app_assoc. reflexivity.
Qed.

(** Roots and reports of a forest. *)
Lemma forest_of_distinct_paths (posts : list Doc.ViewPost) :
  NoDup (map Doc.path posts) ->
  rootPosts (buildForest posts) = filter isTopLevel posts
  /\ complaints (buildForest posts)
     = map (fun _ => "parent post tree not found in map")
         (filter (isOrphanIn posts) posts).
Proof.
  intros Hnd. unfold buildForest, rootPosts.
  set (f0 := fold_left addNode posts (mkForest [] [] [] [])).
  destruct (addNode_fold posts (mkForest [] [] [] []))
    as (Hnodes & Hroots & Hcomp & Hother & Hidx).
  fold f0 in Hnodes, Hroots, Hcomp, Hother, Hidx.
  cbn [nodes roots complaints pathToTree app length] in *.
  assert (forall p, In p posts ->
            exists i, Js.get (pathToTree f0) (Doc.path p) = Some i
                      /\ post (nth i (nodes f0) emptyTree) = p) as Hall.
  { intros p Hp. destruct (In_nth_error _ _ Hp) as [i Hi].
    exists i. split; [now apply Hidx|].
    rewrite Hnodes.
    change (post (nth i (map (fun q => mkTree q []) posts) emptyTree))
      with ((fun t => post t)
              (nth i (map (fun q => mkTree q []) posts) emptyTree)).
    rewrite <- (map_nth post), map_map. cbn [post].
    rewrite map_id. now apply nth_error_nth. }
  destruct (linkNode_fold posts f0 Hall) as (K1 & K2 & K3).
  split.
  - rewrite Hroots in K2. cbn [map app] in K2.
    rewrite <- K2. apply map_ext. intros i.
    change (post (nth i (nodes (fold_left linkNode posts f0)) emptyTree))
      with ((fun t => post t)
              (nth i (nodes (fold_left linkNode posts f0)) emptyTree)).
    rewrite <- (map_nth post), K1. now rewrite map_nth.
  - rewrite K3, Hcomp. cbn [app].
    assert (forall parent,
              match Js.get (pathToTree f0) parent with
              | Some _ => true
              | None => false
              end
              = existsb (fun q => String.eqb parent (Doc.path q)) posts)
      as Hknown.
    { intros parent.
      destruct (existsb (fun q => String.eqb parent (Doc.path q)) posts)
        eqn:Hex.
      - apply existsb_exists in Hex as (q & Hq & Heq).
        apply String.eqb_eq in Heq. subst parent.
        destruct (Hall q Hq) as (i & -> & _). reflexivity.
      - rewrite Hother; [reflexivity|].
        intros Hin. apply in_map_iff in Hin as (q & <- & Hq).
        assert (existsb (fun q0 => String.eqb (Doc.path q) (Doc.path q0)) posts
                = true) as Habs.
        { apply existsb_exists. exists q. split; [exact Hq|].
          apply String.eqb_refl. }
        congruence. }
    generalize posts at 1 3 as l.
    induction l as [|p l IH]; cbn [flat_map filter map]; [reflexivity|].
    unfold isOrphanIn at 1. destruct (replyParent p) as [parent|];
      cbn [app]; [|exact IH].
    rewrite <- Hknown.
    destruct (Js.get (pathToTree f0) parent); cbn [negb app map];
      [exact IH | now rewrite IH].
Qed.

(** For posts with pairwise distinct paths, the roots of the forest are the
    top-level posts in the order of the array, so they are rendered in the
    order in which the array was sorted; and one line is reported for every
    reply whose parent is not in the array. *)
Theorem buildForest_roots (posts : list Doc.ViewPost) :
  NoDup (map Doc.path posts) ->
  rootPosts (buildForest posts) = filter isTopLevel posts
  /\ complaints (buildForest posts)
     = map (fun _ => "parent post tree not found in map")
         (filter (isOrphanIn posts) posts).
Proof. exact (forest_of_distinct_paths posts). Qed.

End ForestProps.

(** ** Updates of a post that the page shows *)

Module KnownPostProps.
Import PostComponent PostViewTs Session StoreFacts Handlers.

Lemma removeNode_notChild (x : oid) (l : list oid) :
  isChild x l = false -> removeNode x l = l.
Proof.
  unfold isChild, removeNode.
  induction l as [|y l IH]; cbn [existsb filter]; [reflexivity|].
  intros H. apply orb_false_iff in H as [Hy Hl].
  rewrite Hy. cbn [negb]. now rewrite IH.
Qed.


(** Moving elements that are not in the post area into a reply section
    leaves the post area, the maps and the size of the store as they are. *)
Lemma fold_attach_replies (this : oid) (children : list oid) (s : PostView) :
  Forall (fun c => isChild c (postArea s) = false) children ->
  let s' :=
    fold_left (fun s child => attach (Replies this) child s) children s in
  postArea s' = postArea s
  /\ allPostMapping s' = allPostMapping s
  /\ pinnedPostMapping s' = pinnedPostMapping s
  /\ lastEventID s' = lastEventID s
  /\ consoleErrors s' = consoleErrors s
  /\ length (heap s') = length (heap s).
Proof.
  revert s. induction children as [|c children IH]; intros s Hall;
    cbn [fold_left]; [now repeat split|].
  inversion Hall as [|? ? Hc Hrest]; subst.
  assert (postArea (attach (Replies this) c s) = postArea s) as Harea.
  { unfold attach. cbn [setChildNodes]. unfold updateItem.
    cbn [postArea withHeap detach withPostArea].
    now apply removeNode_notChild. }
  assert (length (heap (attach (Replies this) c s)) = length (heap s)) as Hlen.
  { unfold attach. cbn [setChildNodes]. unfold updateItem.
    cbn [heap withHeap detach withPostArea].
    now rewrite length_updateNth, length_map. }
  destruct (IH (attach (Replies this) c s)) as (H1 & H2 & H3 & H4 & H5 & H6).
  { now rewrite Harea. }
  rewrite H1, H2, H3, H4, H5, H6, Harea, Hlen. now repeat split.
Qed.


End KnownPostProps.

(** ** Replies *)

Module ReplyProps.
Import PostComponent PostViewTs Order StoreFacts.

Section Placing.
Variable key : oid -> Z.






End Placing.



(** The page after the loop of [addReply] over the three template nodes. *)
Lemma addReply_reports (this replyPost : oid) (st : PostView) :
  addReply this replyPost st
  = placeReply this replyPost
      (consoleError "This node is not a post item for replies"
         (consoleError "This node is not a post item for replies"
            (consoleError "This node is not a post item for replies" st))).
Proof. reflexivity. Qed.



(** A post with an unknown path that names its own path as its parent: the
    new element is entered in [allPostMapping] first, is then found there as
    its own parent, and [addReply] throws.  The element stays in the map and
    outside the post area, and the identifier is not remembered. *)
Theorem reply_to_itself_throws (workspaceName channelName : string)
    (post : Doc.ViewPost) (id currentUser : string) (st : PostView) :
  Handlers.handledId id = true ->
  Js.get (allPostMapping st) (Doc.path post) = None ->
  replyParent post = Some (Doc.path post) ->
  exists st',
    updatePosts workspaceName channelName post id currentUser st
    = Throw "HierarchyRequestError" st'
    /\ Js.get (allPostMapping st') (Doc.path post) = Some (length (heap st))
    /\ length (heap st') = S (length (heap st))
    /\ postArea st' = postArea st
    /\ lastEventID st' = lastEventID st
    /\ consoleErrors st'
       = consoleErrors st
         ++ ["This node is not a post item for replies";
             "This node is not a post item for replies";
             "This node is not a post item for replies"].
Proof.
  intros Hid Hget Hparent.
  destruct (NewPostProps.newPostItem_leaf post workspaceName channelName st)
    as (fresh & Hnew & _).
  set (n := length (heap st)) in *.
  set (s1 := withAll (Js.set (allPostMapping st) (Doc.path post) n)
               (withHeap (heap st ++ [fresh]) st)).
  set (s3 := consoleError "This node is not a post item for replies"
               (consoleError "This node is not a post item for replies"
                  (consoleError "This node is not a post item for replies"
                     s1))).
  assert (hostIncludingAncestor n (Replies n) s3 = true) as Hhier.
  { unfold hostIncludingAncestor. cbn [heap s3 s1 consoleError withAll withHeap].
    rewrite length_app. cbn [length]. rewrite Nat.add_comm. cbn [Nat.add nestedIn].
    now rewrite Nat.eqb_refl. }
  assert (forall local,
            updateUnknown post workspaceName channelName local st
            = Throw "HierarchyRequestError" s3) as Hunk.
  { intros local. unfold updateUnknown. unfold bind at 1. rewrite Hnew.
    unfold bind at 1. unfold setAll, modify. rewrite Hparent.
    unfold bind at 1. unfold gets.
    change (allPostMapping
              (withAll
                 (Js.set (allPostMapping (withHeap (heap st ++ [fresh]) st))
                    (Doc.path post) n) (withHeap (heap st ++ [fresh]) st)))
      with (Js.set (allPostMapping st) (Doc.path post) n).
    rewrite ForestProps.get_set_same.
    change (withAll
              (Js.set (allPostMapping (withHeap (heap st ++ [fresh]) st))
                 (Doc.path post) n) (withHeap (heap st ++ [fresh]) st))
      with s1.
    rewrite addReply_reports. fold s3.
    unfold placeReply, bind, insertBefore. now rewrite Hhier. }
  assert (consoleErrors s3
          = consoleErrors st
            ++ ["This node is not a post item for replies";
                "This node is not a post item for replies";
                "This node is not a post item for replies"]) as Hlog.
  { unfold s3, s1. cbn [consoleErrors consoleError withAll withHeap].
    now rewrite <- !app_assoc. }
  assert (length (heap s3) = S n) as Hlen.
  { unfold s3, s1. cbn [heap consoleError withAll withHeap].
    rewrite length_app. cbn [length]. unfold n. lia. }
  exists s3. split.
  - unfold Handlers.handledId in Hid. unfold updatePosts.
    destruct (Js.isNaN (Js.parseInt id)); cbn [negb orb] in *.
    + rewrite Hid. unfold bind at 1. unfold gets. rewrite Hget.
      unfold bind. now rewrite Hunk.
    + unfold bind at 1. unfold gets. now rewrite Hget, Hunk.
  - split; [apply ForestProps.get_set_same|]. split; [exact Hlen|].
    split; [reflexivity|]. split; [reflexivity | exact Hlog].
Qed.

End ReplyProps.

(** ** What [displayAllPosts] puts in the post area *)

Module RenderProps.
Import PostComponent PostViewTs Session Order StoreFacts.

(** *** The shape of a forest of posts with distinct paths *)

Section Shape.
Variable posts : list Doc.ViewPost.
Hypothesis distinct : NoDup (map Doc.path posts).

Local Abbreviation f0 := (firstLoop posts).
Local Abbreviation trees := (nodes (buildForest posts)).

Lemma nodes_f0 : nodes f0 = map (fun p => mkTree p []) posts.
Proof.
  destruct (ForestProps.addNode_fold posts (mkForest [] [] [] []))
    as (H & _). exact H.
Qed.

(** The entries of the path map are the positions of the posts. *)
Lemma map_entry (k : string) (i : nat) :
  Js.get (pathToTree f0) k = Some i ->
  exists p, nth_error posts i = Some p /\ Doc.path p = k.
Proof.
  destruct (ForestProps.addNode_fold posts (mkForest [] [] [] []))
    as (_ & _ & _ & Hother & Hidx).
  unfold firstLoop. cbn [nodes pathToTree length] in Hother, Hidx.
  intros Hget.
  destruct (in_dec string_dec k (map Doc.path posts)) as [Hin | Hout].
  - apply in_map_iff in Hin as (p & Hp & Hin).
    destruct (In_nth_error _ _ Hin) as [i' Hi'].
    pose proof (Hidx distinct i' p Hi') as Hget'.
    rewrite Hp, Hget in Hget'. injection Hget' as ->.
    exists p. now split.
  - rewrite (Hother k Hout) in Hget. discriminate.
Qed.

Lemma entry_of_post (p : Doc.ViewPost) :
  In p posts ->
  exists i, Js.get (pathToTree f0) (Doc.path p) = Some i
            /\ nth_error posts i = Some p.
Proof.
  destruct (ForestProps.addNode_fold posts (mkForest [] [] [] []))
    as (_ & _ & _ & _ & Hidx).
  unfold firstLoop. cbn [nodes length] in Hidx.
  intros Hin. destruct (In_nth_error _ _ Hin) as [i Hi].
  exists i. split; [now apply Hidx | exact Hi].
Qed.

Lemma shaped_f0 : shaped posts f0.
Proof.
  split; [reflexivity|]. split.
  { rewrite nodes_f0, map_map. cbn [post]. apply map_id. }
  split.
  { destruct (ForestProps.addNode_fold posts (mkForest [] [] [] []))
      as (_ & Hr & _). unfold firstLoop. rewrite Hr. intros r []. }
  intros i j. unfold edge. rewrite nodes_f0.
  destruct (Nat.ltb_spec i (length posts)) as [Hlt | Hge].
  - rewrite (nth_indep _ emptyTree (mkTree (nth i posts (post emptyTree)) []))
      by now rewrite length_map.
    rewrite (map_nth (fun p => mkTree p [])). intros [].
  - rewrite nth_overflow by now rewrite length_map. intros [].
Qed.

Lemma shaped_linkNode (f : Forest) (x : Doc.ViewPost) :
  In x posts -> shaped posts f -> shaped posts (linkNode f x).
Proof.
  intros Hx (Hm & Hposts & Hroots & Hedges).
  destruct (entry_of_post x Hx) as (cur & Hcur & Hnth).
  unfold linkNode. rewrite Hm, Hcur.
  assert (isTopLevel x = true ->
          shaped posts (mkForest (nodes f) (pathToTree f0) (roots f ++ [cur])
                          (complaints f))) as Htop.
  { intros Hx0. split; [reflexivity|]. split; [exact Hposts|]. split.
    - cbn [roots]. intros r Hr. apply in_app_or in Hr as [Hr | [<- | []]].
      + now apply Hroots.
      + exists x. now split.
    - exact Hedges. }
  destruct (Doc.parent (Doc.doc x)) as [parent|] eqn:Hparent.
  - destruct (String.eqb parent "") eqn:Hempty; cbn [negb].
    + apply Htop. unfold isTopLevel, replyParent.
      now rewrite Hparent, Hempty.
    + destruct (Js.get (pathToTree f0) parent) as [parentTree|] eqn:Hpt.
      * destruct (map_entry parent parentTree Hpt) as (p & Hp & Hpath).
        split; [exact Hm|]. split.
        { cbn [pushChild nodes].
          transitivity (map post (nodes f)); [|exact Hposts].
          generalize (nodes f) as l. clear. intros l. revert parentTree.
          induction l as [|t l IH]; intros [|n]; cbn; try reflexivity.
          now rewrite IH. }
        split; [exact Hroots|].
        intros i j. unfold edge. cbn [pushChild nodes].
        rewrite nth_updateNth.
        destruct (Nat.eqb_spec i parentTree) as [-> | Hne]; cbn [andb].
        -- destruct (Nat.ltb parentTree (length (nodes f)));
             [|apply Hedges].
           cbn [children]. intros Hin. apply in_app_or in Hin as [Hin | Hin].
           ++ now apply Hedges.
           ++ destruct Hin as [<- | []]. exists p, x.
              split; [exact Hp|]. split; [exact Hnth|].
              unfold replyParent. now rewrite Hparent, Hempty, Hpath.
        -- apply Hedges.
      * split; [reflexivity|]. split; [exact Hposts|]. now split.
  - apply Htop. unfold isTopLevel, replyParent.
    now rewrite Hparent.
Qed.

Lemma shaped_buildForest : shaped posts (buildForest posts).
Proof.
  unfold buildForest. fold (firstLoop posts).
  assert (forall l f, incl l posts -> shaped posts f ->
                      shaped posts (fold_left linkNode l f)) as H.
  { induction l as [|x l IH]; intros f Hl Hf; cbn [fold_left]; [exact Hf|].
    apply IH.
    - intros y Hy. apply Hl. now right.
    - apply shaped_linkNode; [apply Hl; now left | exact Hf]. }
  apply H; [apply incl_refl | apply shaped_f0].
Qed.

Lemma length_trees : length trees = length posts.
Proof.
  destruct shaped_buildForest as (_ & H & _).
  transitivity (length (map post trees));
    [now rewrite length_map | now rewrite H].
Qed.

Lemma postAt_trees (i : nat) (p : Doc.ViewPost) :
  nth_error posts i = Some p -> postAt trees i = p.
Proof.
  destruct shaped_buildForest as (_ & H & _).
  intros Hi. unfold postAt.
  change (post (nth i trees emptyTree))
    with ((fun t => post t) (nth i trees emptyTree)).
  rewrite <- (map_nth post), H. now apply nth_error_nth.
Qed.

(** A node has one parent at most, and a root has none. *)
Lemma edge_inv (i j : nat) :
  edge trees i j ->
  (i < length trees)%nat /\ (j < length trees)%nat
  /\ replyParent (postAt trees j) = Some (Doc.path (postAt trees i)).
Proof.
  destruct shaped_buildForest as (_ & _ & _ & H).
  intros He. destruct (H i j He) as (p & q & Hp & Hq & Hparent).
  rewrite length_trees.
  split; [apply nth_error_Some; congruence|].
  split; [apply nth_error_Some; congruence|].
  now rewrite (postAt_trees i p Hp), (postAt_trees j q Hq).
Qed.

Lemma one_parent (i i' j : nat) :
  edge trees i j -> edge trees i' j -> i = i'.
Proof.
  intros H1 H2.
  destruct (edge_inv i j H1) as (Hi & _ & Hp1).
  destruct (edge_inv i' j H2) as (Hi' & _ & Hp2).
  rewrite Hp1 in Hp2. injection Hp2 as Hpath.
  rewrite length_trees in Hi, Hi'.
  destruct (nth_error posts i) as [p|] eqn:Ep;
    [|apply nth_error_None in Ep; lia].
  destruct (nth_error posts i') as [p'|] eqn:Ep';
    [|apply nth_error_None in Ep'; lia].
  rewrite (postAt_trees i p Ep), (postAt_trees i' p' Ep') in Hpath.
  apply (proj1 (NoDup_nth_error (map Doc.path posts)) distinct);
    [now rewrite length_map|].
  rewrite !nth_error_map, Ep, Ep'. cbn [option_map]. now rewrite Hpath.
Qed.

Lemma root_inv (r : nat) :
  In r (roots (buildForest posts)) ->
  (r < length trees)%nat /\ isTopLevel (postAt trees r) = true.
Proof.
  destruct shaped_buildForest as (_ & _ & H & _).
  intros Hr. destruct (H r Hr) as (p & Hp & Htop).
  rewrite length_trees. split; [apply nth_error_Some; congruence|].
  now rewrite (postAt_trees r p Hp).
Qed.

Lemma reply_is_no_root (i j : nat) :
  edge trees i j -> isTopLevel (postAt trees j) = true -> False.
Proof.
  intros He Htop. destruct (edge_inv i j He) as (_ & _ & Hp).
  unfold isTopLevel in Htop. now rewrite Hp in Htop.
Qed.

(** *** Chains have no repetition, so they are no longer than the forest *)

Lemma descends_parent (l : list nat) (y : nat) :
  descends trees l -> In y l ->
  isTopLevel (postAt trees y) = true \/ exists p, edge trees p y /\ In p l.
Proof.
  induction 1 as [r Hr Htop | j i rest Hd IH He]; intros Hy.
  - destruct Hy as [<- | []]. now left.
  - destruct Hy as [<- | Hy].
    + right. exists i. split; [exact He | right; now left].
    + destruct (IH Hy) as [Htop | (p & Hp & Hin)]; [now left|].
      right. exists p. split; [exact Hp | now right].
Qed.

Lemma descends_range (l : list nat) :
  descends trees l -> Forall (fun i => (i < length trees)%nat) l.
Proof.
  induction 1 as [r Hr Htop | j i rest Hd IH He].
  - now repeat constructor.
  - constructor; [|exact IH]. now destruct (edge_inv i j He) as (_ & Hj & _).
Qed.

Lemma descends_NoDup (l : list nat) : descends trees l -> NoDup l.
Proof.
  induction 1 as [r Hr Htop | j i rest Hd IH He].
  - constructor; [intros [] | constructor].
  - constructor; [|exact IH]. intros Hj.
    inversion IH as [|? ? Hi Hrest]; subst.
    assert (In i rest) as Habs; [|contradiction].
    destruct Hj as [<- | Hj].
    + (* [i] would be its own child *)
      inversion Hd as [r Hr Htop | ? i' rest' Hd' He']; subst.
      * destruct (reply_is_no_root i i He Htop).
      * rewrite (one_parent i i' i He He'). now left.
    + (* [j] is further up the chain, where its parent is *)
      inversion Hd as [r Hr Htop | ? i' rest' Hd' He']; subst;
        [destruct Hj|].
      destruct (descends_parent (i' :: rest') j Hd' Hj)
        as [Htop | (p & Hp & Hin)].
      * destruct (reply_is_no_root i j He Htop).
      * now rewrite (one_parent i p j He Hp).
Qed.

Lemma descends_length (l : list nat) :
  descends trees l -> (length l <= length trees)%nat.
Proof.
  intros Hd. pose proof (descends_NoDup l Hd) as Hnd.
  pose proof (descends_range l Hd) as Hr.
  apply Nat.le_trans with (length (seq 0 (length trees)));
    [|now rewrite length_seq].
  apply NoDup_incl_length; [exact Hnd|].
  intros i Hi. apply in_seq. rewrite Forall_forall in Hr.
  specialize (Hr i Hi). lia.
Qed.

End Shape.

(** *** Rendering one tree *)

Lemma isChild_above (o : oid) (l : list oid) (k : nat) :
  Forall (fun x => (x < k)%nat) l -> (k <= o)%nat -> isChild o l = false.
Proof.
  intros Hl Ho. unfold isChild.
  induction Hl as [|x l Hx _ IH]; cbn [existsb]; [reflexivity|].
  destruct (Nat.eqb_spec o x); [lia | exact IH].
Qed.

Lemma shownAs_extends (s s' : PostView) (o : oid) :
  extends s s' -> (o < length (heap s))%nat -> shownAs s' o = shownAs s o.
Proof.
  intros [_ H] Ho. specialize (H o Ho). unfold writtenOnce in H.
  unfold shownAs. congruence.
Qed.

Lemma extends_attach (c : Container) (x : oid) (st : PostView) :
  extends st (attach c x st).
Proof. apply (Respect.R_attach extends); SessionProps.extends_laws. Qed.

Lemma extends_fold_attach (c : Container) (children : list oid)
    (st : PostView) :
  extends st (fold_left (fun s child => attach c child s) children st).
Proof. apply (Respect.R_fold_attach extends); SessionProps.extends_laws. Qed.

Lemma extends_makePostFromTree (depth : nat) (trees : list ViewPostTree)
    (currUser workspace channel : string) (rootNode : nat) (pins : bool)
    (st : PostView) :
  extends st
    (stateOf (makePostFromTree depth trees currUser workspace channel
                rootNode pins st)).
Proof.
  apply (Respect.respects_makePostFromTree extends (fun _ => True));
    try SessionProps.extends_laws.
  intros i. exact I.
Qed.

(** The constructor on any children. *)
Lemma newPostItem_built (post : Doc.ViewPost)
    (workspaceName channelName : string) (children : list oid)
    (st : PostView) :
  exists fresh,
    newPostItem (Doc.msg (Doc.doc post)) (Doc.createdBy (Doc.meta post))
      (Doc.createdAt (Doc.meta post)) (Doc.path post)
      (getReactions (Doc.reactions (Doc.doc post)))
      (Doc.reactions (Doc.doc post)) workspaceName channelName children
      (Doc.parent (Doc.doc post)) st
    = Ok (length (heap st))
        (fold_left (fun s child => attach (Replies (length (heap st))) child s)
           children (withHeap (heap st ++ [fresh]) st))
    /\ postPath fresh = Doc.path post
    /\ postTime fresh = Doc.createdAt (Doc.meta post).
Proof.
  unfold newPostItem.
  assert (exists a b c d,
            getReactions (Doc.reactions (Doc.doc post)) = [a; b; c; d])
    as (a & b & c & d & Hn).
  { destruct (Doc.reactions (Doc.doc post)); cbn; repeat eexists. }
  rewrite Hn. unfold initialCount. cbn [nth_error].
  destruct a, b, c, d; eexists; (split; [reflexivity|]); split; reflexivity.
Qed.

Section Render.
Variable posts : list Doc.ViewPost.
Hypothesis distinct : NoDup (map Doc.path posts).
Variables currUser workspace channel : string.
Variable pins : bool.

Local Abbreviation trees := (nodes (buildForest posts)).

(** What rendering a node or a list of nodes does to the page: elements are
    added to the store, the post area is left alone. *)
Lemma render_node (v : nat) (children : list oid) (s0 st : PostView) :
  Forall (fun o => (o < length (heap s0))%nat) (postArea st) ->
  (length (heap s0) <= length (heap st))%nat ->
  Forall (fun o => (length (heap s0) <= o)%nat) children ->
  exists st',
    (post <-
       newPostItem (Doc.msg (Doc.doc (postAt trees v)))
         (Doc.createdBy (Doc.meta (postAt trees v)))
         (Doc.createdAt (Doc.meta (postAt trees v)))
         (Doc.path (postAt trees v))
         (getReactions (Doc.reactions (Doc.doc (postAt trees v))))
         (Doc.reactions (Doc.doc (postAt trees v))) workspace channel
         children (Doc.parent (Doc.doc (postAt trees v))) ;;
     modify (updateItem post
               (markReacted
                  (getReacted (Doc.reactions (Doc.doc (postAt trees v)))
                     currUser))) ;;;
     (if pins
      then modify (fun st =>
             withPinned
               (Js.set (pinnedPostMapping st) (Doc.path (postAt trees v)) post)
               st)
      else modify (fun st =>
             withAll
               (Js.set (allPostMapping st) (Doc.path (postAt trees v)) post)
               st)) ;;;
     ret post) st = Ok (length (heap st)) st'
    /\ length (heap st') = S (length (heap st))
    /\ postArea st' = postArea st
    /\ shownAs st' (length (heap st)) = docKey (postAt trees v).
Proof.
  intros Harea Hgrow Hnew.
  destruct (newPostItem_built (postAt trees v) workspace channel children st)
    as (fresh & Hrun & Hpath & Htime).
  set (n := length (heap st)) in *.
  set (s1 := withHeap (heap st ++ [fresh]) st) in *.
  assert (Forall (fun c => isChild c (postArea s1) = false) children) as Hout.
  { eapply Forall_impl; [|exact Hnew]. intros o Ho.
    now apply (isChild_above o (postArea st) (length (heap s0))). }
  destruct (KnownPostProps.fold_attach_replies n children s1 Hout)
    as (K1 & _ & _ & _ & _ & K6).
  set (sf := fold_left (fun s child => attach (Replies n) child s) children s1)
    in *.
  assert (length (heap sf) = S n) as Hlen.
  { rewrite K6. unfold s1. cbn [heap withHeap]. rewrite length_app.
    cbn [length]. unfold n. lia. }
  assert (shownAs sf n = docKey (postAt trees v)) as Hshown.
  { rewrite (shownAs_extends s1 sf n).
    - unfold shownAs, docKey, s1, n. rewrite NewPostProps.item_fresh.
      now rewrite Hpath, Htime.
    - apply extends_fold_attach.
    - unfold s1. cbn [heap withHeap]. rewrite length_app. cbn [length].
      unfold n. lia. }
  unfold bind at 1. rewrite Hrun. unfold bind, modify, ret.
  set (sm := updateItem n _ sf).
  assert (shownAs sm n = docKey (postAt trees v)) as Hshown'.
  { rewrite <- Hshown. unfold shownAs, sm.
    rewrite item_updateItem_same by lia.
    destruct (Respect.tame_markReacted
                (getReacted (Doc.reactions (Doc.doc (postAt trees v)))
                   currUser) (item sf n)) as (Hw & _).
    unfold writtenOnce in Hw. congruence. }
  assert (length (heap sm) = S n) as Hlen'
    by (unfold sm; now rewrite SessionProps.length_updateItem).
  destruct pins; eexists; (split; [reflexivity|]);
    (split; [exact Hlen'|]); (split; [exact K1 | exact Hshown']).
Qed.

Lemma render_ok (depth : nat) (v : nat) (rest : list nat) (st : PostView) :
  descends trees (v :: rest) ->
  (length trees + 1 <= depth + length (v :: rest))%nat ->
  Forall (fun o => (o < length (heap st))%nat) (postArea st) ->
  exists o st',
    makePostFromTree depth trees currUser workspace channel v pins st
    = Ok o st'
    /\ (length (heap st) <= o < length (heap st'))%nat
    /\ postArea st' = postArea st
    /\ shownAs st' o = docKey (postAt trees v).
Proof.
  revert v rest st. induction depth as [|depth IH];
    intros v rest st Hd Hfuel Harea.
  - pose proof (descends_length posts distinct _ Hd). cbn [length] in *. lia.
  - cbn [makePostFromTree].
    assert (forall cs s,
              (forall c, In c cs -> edge trees v c) ->
              Forall (fun o => (o < length (heap st))%nat) (postArea s) ->
              (length (heap st) <= length (heap s))%nat ->
              exists os s',
                mapM (fun childNode =>
                        makePostFromTree depth trees currUser workspace
                          channel childNode pins) cs s = Ok os s'
                /\ Forall (fun o => (length (heap st) <= o)%nat) os
                /\ postArea s' = postArea s
                /\ (length (heap s) <= length (heap s'))%nat) as Hmap.
    { induction cs as [|c cs IHcs]; intros s Hcs Hs Hgrow; cbn [mapM].
      - exists [], s. repeat split; [constructor | lia].
      - destruct (IH c (v :: rest) s) as (o & s1 & Hrun & Ho & Ha1 & _).
        + constructor; [exact Hd | apply Hcs; now left].
        + cbn [length] in *. lia.
        + eapply Forall_impl; [|exact Hs]. intros x Hx. cbn in Hx. lia.
        + destruct (IHcs s1) as (os & s2 & Hrun2 & Hos & Ha2 & Hg2).
          * intros c' Hc'. apply Hcs. now right.
          * now rewrite Ha1.
          * lia.
          * exists (o :: os), s2. unfold bind. rewrite Hrun, Hrun2.
            split; [reflexivity|]. split; [constructor; [lia | exact Hos]|].
            split; [congruence | lia]. }
    destruct (Hmap (children (nth v trees emptyTree)) st)
      as (os & sm & Hrun & Hos & Ha & Hg);
      [intros c Hc; exact Hc | exact Harea | lia |].
    unfold bind at 1. rewrite Hrun.
    destruct (render_node v os st sm) as (st' & Hnode & Hlen & Ha' & Hshown);
      [now rewrite Ha | exact Hg | exact Hos |].
    exists (length (heap sm)), st'. split; [exact Hnode|].
    split; [lia|]. split; [congruence | exact Hshown].
Qed.

(** *** Rendering the roots *)

Lemma render_roots (rs : list nat) (st : PostView) :
  incl rs (roots (buildForest posts)) ->
  Forall (fun o => (o < length (heap st))%nat) (postArea st) ->
  exists st' os,
    forEach rs
      (fun rootNode =>
         rootPost <-
           makePostFromTree (S (length trees)) trees currUser workspace
             channel rootNode pins ;;
         append PostArea rootPost) st = Ok tt st'
    /\ postArea st' = postArea st ++ os
    /\ map (shownAs st') os = map (fun r => docKey (postAt trees r)) rs
    /\ extends st st'
    /\ Forall (fun o => (o < length (heap st'))%nat) (postArea st').
Proof.
  revert st. induction rs as [|r rs IH]; intros st Hrs Harea; cbn [forEach].
  - exists st, []. rewrite app_nil_r.
    repeat split; [lia | exact Harea].
  - destruct (root_inv posts distinct r (Hrs r (or_introl eq_refl)))
      as [Hr Htop].
    destruct (render_ok (S (length trees)) r [] st) as (o & s1 & Hrun & Ho & Ha & Hs);
      [now constructor | cbn [length]; lia | exact Harea |].
    pose proof (extends_makePostFromTree (S (length trees)) trees currUser
                  workspace channel r pins st) as He1.
    rewrite Hrun in He1. cbn [stateOf] in He1.
    set (s2 := attach PostArea o s1).
    assert (postArea s2 = postArea st ++ [o]) as Ha2.
    { unfold s2. rewrite NewPostProps.postArea_append, Ha.
      rewrite NewPostProps.removeNode_absent; [reflexivity|].
      eapply Forall_impl; [|exact Harea]. intros x Hx. cbn in Hx. lia. }
    assert (length (heap s2) = length (heap s1)) as Hl2.
    { unfold s2. rewrite NewPostProps.heap_append_PostArea.
      apply length_map. }
    assert (extends s1 s2) as He2 by apply extends_attach.
    destruct (IH s2) as (st' & os & Hrun' & Ha' & Hmap & He' & Harea').
    + intros x Hx. apply Hrs. now right.
    + rewrite Ha2, Hl2. apply Forall_app. split.
      * eapply Forall_impl; [|exact Harea]. intros x Hx. cbn in Hx. lia.
      * repeat constructor. lia.
    + exists st', (o :: os). split.
      { unfold bind at 1. unfold bind at 1. rewrite Hrun.
        change (append PostArea o s1) with (Ok tt s2). exact Hrun'. }
      split; [rewrite Ha', Ha2, <- app_assoc; reflexivity|].
      split.
      { cbn [map]. rewrite Hmap. f_equal.
        rewrite (shownAs_extends s2 st' o He') by lia.
        rewrite (shownAs_extends s1 s2 o He2) by lia. exact Hs. }
      split; [|exact Harea'].
      eapply SessionProps.extends_trans; [exact He1|].
      eapply SessionProps.extends_trans; [exact He2 | exact He'].
Qed.

Lemma report_complaints (lines : list string) (st : PostView) :
  exists st',
    forEach lines (fun line => modify (consoleError line)) st = Ok tt st'
    /\ heap st' = heap st /\ postArea st' = postArea st.
Proof.
  revert st. induction lines as [|l lines IH]; intros st; cbn [forEach].
  - now exists st.
  - destruct (IH (consoleError l st)) as (st' & Hrun & Hh & Ha).
    exists st'. split; [rewrite <- Hrun; reflexivity|]. now split.
Qed.

(** The forest of posts with distinct paths is rendered without an
    exception, and the root elements are appended to the post area in the
    order of the roots. *)
Lemma displayForest_ok (st : PostView) :
  Forall (fun o => (o < length (heap st))%nat) (postArea st) ->
  exists st' os,
    displayForest currUser workspace channel (buildForest posts) pins st
    = Ok tt st'
    /\ postArea st' = postArea st ++ os
    /\ map (shownAs st') os = map docKey (filter isTopLevel posts)
    /\ extends st st'
    /\ Forall (fun o => (o < length (heap st'))%nat) (postArea st').
Proof.
  intros Harea. unfold displayForest.
  destruct (report_complaints (complaints (buildForest posts)) st)
    as (s1 & Hrun1 & Hh & Ha).
  destruct (render_roots (roots (buildForest posts)) s1)
    as (st' & os & Hrun & Ha' & Hmap & He & Harea');
    [apply incl_refl | now rewrite Hh, Ha |].
  exists st', os. split; [unfold bind; now rewrite Hrun1|].
  split; [now rewrite Ha', Ha|]. split.
  - rewrite Hmap.
    destruct (ForestProps.forest_of_distinct_paths posts distinct)
      as [Hroots _].
    rewrite <- Hroots. unfold rootPosts. now rewrite map_map.
  - split; [|exact Harea'].
    eapply SessionProps.extends_trans; [|exact He].
    now apply SessionProps.extends_frame.
Qed.

End Render.

Lemma sortedBy_filter {A : Type} (key : A -> Z) (keep : A -> bool)
    (l : list A) :
  sortedBy key l -> sortedBy key (filter keep l).
Proof.
  unfold sortedBy. induction 1 as [|x l Hs IH Hx]; cbn [filter];
    [constructor|].
  destruct (keep x); [|exact IH]. constructor; [exact IH|].
  apply Forall_forall. intros y Hy. apply filter_In in Hy as [Hy _].
  rewrite Forall_forall in Hx. now apply Hx.
Qed.

Lemma sortedBy_same_keys {A B : Type} (keyA : A -> Z) (keyB : B -> Z)
    (la : list A) (lb : list B) :
  map keyA la = map keyB lb -> sortedBy keyB lb -> sortedBy keyA la.
Proof.
  unfold sortedBy. intros Hmap Hs. revert la Hmap.
  induction Hs as [|y lb Hs IH Hy]; intros [|x la] Hmap;
    try discriminate; [constructor|].
  cbn [map] in Hmap. injection Hmap as Hx Hrest.
  constructor; [now apply IH|].
  apply Forall_forall. intros a Ha.
  apply (in_map keyA) in Ha. rewrite Hrest in Ha.
  apply in_map_iff in Ha as (b & Hb & Hin).
  rewrite Forall_forall in Hy. specialize (Hy b Hin). lia.
Qed.

(** [displayAllPosts] on posts with pairwise distinct paths, from any
    state of the view: the call returns without an exception, and the post
    area then holds, in this order, one element for every top-level pinned
    post, in non-decreasing order of modification time of the posts, and one
    element for every top-level general post, in non-decreasing order of the
    creation time that the elements show.  Every element shows the path and
    the creation time of its post. *)
Theorem displayAllPosts_fills_the_post_area_in_order
    (currUser workspace channel : string) (posts : list Doc.ViewPost)
    (st : PostView) :
  NoDup (map Doc.path posts) ->
  let created := fun p => Doc.createdAt (Doc.meta p) in
  let modified := fun p => Doc.lastModifiedAt (Doc.meta p) in
  let pinnedPosts :=
    filter isTopLevel
      (Js.sortBy modified (fst (getPinnedPosts currUser posts))) in
  let generalPosts :=
    filter isTopLevel (snd (getPinnedPosts currUser posts)) in
  exists st' pinnedArea generalArea,
    displayAllPosts currUser workspace channel posts st = Ok tt st'
    /\ postArea st' = pinnedArea ++ generalArea
    /\ map (shownAs st') pinnedArea = map docKey pinnedPosts
    /\ map (shownAs st') generalArea = map docKey generalPosts
    /\ sortedBy modified pinnedPosts
    /\ sortedBy created generalPosts
    /\ sortedBy (fun o => postTime (item st' o)) generalArea.
Proof.
  intros Hnd created modified pinnedPosts generalPosts.
  subst pinnedPosts generalPosts.
  destruct (PinnedPostsProps.getPinnedPosts_arrays currUser posts)
    as (Hperm & _ & Hg & _).
  assert (NoDup (map Doc.path
                   (fst (getPinnedPosts currUser posts)
                    ++ snd (getPinnedPosts currUser posts)))) as Hnd2.
  { eapply Permutation_NoDup; [|exact Hnd].
    apply Permutation_map. now symmetry. }
  rewrite map_app in Hnd2.
  assert (Js.sortBy created (snd (getPinnedPosts currUser posts))
          = snd (getPinnedPosts currUser posts)) as Hsame
    by now apply PinnedPostsProps.sortBy_of_sorted.
  assert (NoDup (map Doc.path (snd (getPinnedPosts currUser posts))))
    as Hgen by (eapply NoDup_app_remove_l; exact Hnd2).
  assert (NoDup (map Doc.path
                   (Js.sortBy modified (fst (getPinnedPosts currUser posts)))))
    as Hpin.
  { eapply Permutation_NoDup;
      [apply Permutation_map; symmetry; apply PinnedPostsProps.sortBy_perm|].
    eapply NoDup_app_remove_r. exact Hnd2. }
  unfold displayAllPosts.
  destruct (getPinnedPosts currUser posts) as [pinned general] eqn:Hsplit.
  cbn [fst snd] in *.
  fold created. fold modified. rewrite Hsame.
  set (s0 := withPostArea [] st).
  destruct (displayForest_ok (Js.sortBy modified pinned) Hpin currUser
              workspace channel true s0)
    as (s1 & pinnedArea & Hrun1 & Ha1 & Hmap1 & _ & Harea1);
    [constructor|].
  destruct (displayForest_ok general Hgen currUser workspace channel false s1)
    as (s2 & generalArea & Hrun2 & Ha2 & Hmap2 & He2 & _);
    [exact Harea1|].
  cbn [postArea withPostArea s0 app] in Ha1.
  exists s2, pinnedArea, generalArea.
  split.
  { transitivity
      (bind (displayForest currUser workspace channel
               (buildForest (Js.sortBy modified pinned)) true)
         (fun _ => displayForest currUser workspace channel
                     (buildForest general) false) s0); [reflexivity|].
    unfold bind. now rewrite Hrun1. }
  split; [now rewrite Ha2, Ha1|].
  split.
  { rewrite <- Hmap1. apply map_ext_in. intros o Ho.
    apply shownAs_extends; [exact He2|].
    rewrite Forall_forall in Harea1. apply Harea1. now rewrite Ha1. }
  split; [exact Hmap2|].
  split; [apply sortedBy_filter, PinnedPostsProps.sortBy_sorted|].
  split; [now apply sortedBy_filter|].
  apply (sortedBy_same_keys _ created _ (filter isTopLevel general));
    [|now apply sortedBy_filter].
  transitivity (map snd (map (shownAs s2) generalArea));
    [now rewrite map_map|].
  rewrite Hmap2, map_map. reflexivity.
Qed.

End RenderProps.

(** ** Counts beyond the safe integers *)

Module CountLimitProps.
Import PostComponent PostViewTs Observe.

(** The text that one call of [updateReactions] leaves in the count
    paragraph, whatever the paragraph held. *)
Lemma updateReactions_text (st : PostView) (postPath reaction : string)
    (reacted : bool) (o : oid) (e : Emoji) :
  match Js.get (allPostMapping st) postPath with
  | Some x => Some x
  | None => Js.get (pinnedPostMapping st) postPath
  end = Some o ->
  emojiOfName reaction = Some e ->
  (o < length (heap st))%nat ->
  exists st',
    updateReactions postPath reaction reacted st = Ok tt st'
    /\ countText e (item st' o)
       = (let currCount :=
            Js.addInteger
              (if negb (String.eqb (countText e (item st o)) "")
               then Js.parseIntNumber (countText e (item st o))
               else Js.Num 0)
              (if reacted then -1 else 1) in
          if Js.isZero currCount then "" else Js.numberToString currCount)
    /\ length (heap st') = length (heap st)
    /\ allPostMapping st' = allPostMapping st
    /\ pinnedPostMapping st' = pinnedPostMapping st.
Proof.
  intros Hfound He Hlt.
  rewrite (ReactionProps.updateReactions_ok st postPath reaction reacted o e
             Hfound He).
  cbv zeta. eexists. split; [reflexivity|].
  split; [|split; [apply SessionProps.length_updateItem | now split]].
  rewrite StoreFacts.item_updateItem_same by exact Hlt.
  rewrite StoreFacts.countText_enablePostButton,
    StoreFacts.countText_withCountText.
  now destruct e.
Qed.

(** A count of 2^53 does not come back: the reaction leaves the paragraph as
    it is, since 2^53 + 1 is no double and the sum rounds to 2^53, and
    taking the reaction back then writes 2^53 - 1. *)
Theorem count_of_two_to_the_53_does_not_come_back (st : PostView)
    (postPath reaction : string) (o : oid) (e : Emoji) :
  match Js.get (allPostMapping st) postPath with
  | Some x => Some x
  | None => Js.get (pinnedPostMapping st) postPath
  end = Some o ->
  emojiOfName reaction = Some e ->
  (o < length (heap st))%nat ->
  countText e (item st o) = "9007199254740992" ->
  exists st1 st2,
    updateReactions postPath reaction false st = Ok tt st1
    /\ updateReactions postPath reaction true st1 = Ok tt st2
    /\ countText e (item st1 o) = "9007199254740992"
    /\ countText e (item st2 o) = "9007199254740991".
Proof.
  intros Hfound He Hlt Hcount.
  destruct (updateReactions_text st postPath reaction false o e Hfound He Hlt)
    as (st1 & Hrun1 & Hc1 & Hl1 & Ha1 & Hp1).
  rewrite Hcount in Hc1.
  assert (countText e (item st1 o) = "9007199254740992") as Hc1'
    by (rewrite Hc1; vm_compute; reflexivity).
  destruct (updateReactions_text st1 postPath reaction true o e)
    as (st2 & Hrun2 & Hc2 & _);
    [now rewrite Ha1, Hp1 | exact He | now rewrite Hl1 |].
  rewrite Hc1' in Hc2.
  exists st1, st2. split; [exact Hrun1|]. split; [exact Hrun2|].
  split; [exact Hc1'|]. rewrite Hc2. vm_compute. reflexivity.
Qed.

End CountLimitProps.

(** ** Instances of the theorems above on concrete pages *)

Module PageWitness.
Import PostComponent PostViewTs Handlers Order Observe.

(** The page holds [laterRoot]; the answer to the local creation of
    [earlierRoot], which is older, arrives. *)
Lemma new_top_level_post_is_appended_witness :
  handledId "abc" = true
  /\ Js.get (allPostMapping Scenario.afterStream) (Doc.path Scenario.earlierRoot)
     = None
  /\ replyParent Scenario.earlierRoot = None
  /\ Forall (fun o => (o < length (heap Scenario.afterStream))%nat)
       (postArea Scenario.afterStream)
  /\ exists st',
       updatePosts "w" "c" Scenario.earlierRoot "abc" "alice"
         Scenario.afterStream = Ok tt st'
       /\ postArea st'
          = postArea Scenario.afterStream
            ++ [length (heap Scenario.afterStream)]
       /\ allPostMapping st'
          = Js.set (allPostMapping Scenario.afterStream)
              (Doc.path Scenario.earlierRoot)
              (length (heap Scenario.afterStream))
       /\ pinnedPostMapping st' = pinnedPostMapping Scenario.afterStream
       /\ length (heap st') = S (length (heap Scenario.afterStream))
       /\ postPath (item st' (length (heap Scenario.afterStream)))
          = Doc.path Scenario.earlierRoot
       /\ postTime (item st' (length (heap Scenario.afterStream)))
          = Doc.createdAt (Doc.meta Scenario.earlierRoot)
       /\ reactors (item st' (length (heap Scenario.afterStream)))
          = Doc.reactions (Doc.doc Scenario.earlierRoot)
       /\ lastEventID st'
          = (if localId "abc" then "abc"
             else lastEventID Scenario.afterStream)
       /\ consoleErrors st' = consoleErrors Scenario.afterStream.
Proof.
  assert (Forall (fun o => (o < length (heap Scenario.afterStream))%nat)
            (postArea Scenario.afterStream)) as Hwf.
  { vm_compute. repeat constructor. }
  split; [reflexivity|]. split; [reflexivity|]. split; [reflexivity|].
  split; [exact Hwf|].
  exact (NewPostProps.new_top_level_post_is_appended "w" "c"
           Scenario.earlierRoot "abc" "alice" Scenario.afterStream
           eq_refl eq_refl eq_refl Hwf).
Defined.

(** The stream delivers a reply to an empty page. *)
Lemma orphan_reply_is_kept_in_the_map_witness :
  handledId "7" = true
  /\ Js.get (allPostMapping emptyView) (Doc.path Scenario.reply) = None
  /\ replyParent Scenario.reply = Some "/A"
  /\ "/A" <> Doc.path Scenario.reply
  /\ Js.get (allPostMapping emptyView) "/A" = None
  /\ exists st' fresh,
       updatePosts "w" "c" Scenario.reply "7" "alice" emptyView = Ok tt st'
       /\ heap st' = heap emptyView ++ [fresh]
       /\ postPath fresh = Doc.path Scenario.reply
       /\ allPostMapping st'
          = Js.set (allPostMapping emptyView) (Doc.path Scenario.reply)
              (length (heap emptyView))
       /\ postArea st' = postArea emptyView
       /\ pinnedPostMapping st' = pinnedPostMapping emptyView
       /\ consoleErrors st' = consoleErrors emptyView.
Proof.
  assert ("/A" <> Doc.path Scenario.reply) as Hne by discriminate.
  split; [reflexivity|]. split; [reflexivity|]. split; [reflexivity|].
  split; [exact Hne|]. split; [reflexivity|].
  exact (NewPostProps.orphan_reply_is_kept_in_the_map "w" "c" Scenario.reply
           "7" "alice" "/A" emptyView eq_refl eq_refl eq_refl Hne eq_refl).
Defined.

(** The same page and post as for the append, under the identifier that
    the draws 0, 27 and 51 give. *)
Lemma local_creation_succeeds_witness :
  Js.get (allPostMapping Scenario.afterStream) (Doc.path Scenario.earlierRoot)
  = None
  /\ replyParent Scenario.earlierRoot = None
  /\ Forall (fun o => (o < length (heap Scenario.afterStream))%nat)
       (postArea Scenario.afterStream)
  /\ genUniqueID [0; 27; 51] = "Abz"
  /\ exists st',
       createPostResolved "w" "c" Scenario.earlierRoot
         (genUniqueID [0; 27; 51]) "alice" Scenario.afterStream = Ok true st'
       /\ lastEventID st' = genUniqueID [0; 27; 51]
       /\ postArea st'
          = postArea Scenario.afterStream
            ++ [length (heap Scenario.afterStream)]
       /\ consoleErrors st' = consoleErrors Scenario.afterStream.
Proof.
  assert (Forall (fun o => (o < length (heap Scenario.afterStream))%nat)
            (postArea Scenario.afterStream)) as Hwf.
  { vm_compute. repeat constructor. }
  split; [reflexivity|]. split; [reflexivity|]. split; [exact Hwf|].
  split; [reflexivity|].
  exact (LocalIdProps.local_creation_succeeds "w" "c" Scenario.earlierRoot
           [0; 27; 51] "alice" Scenario.afterStream eq_refl eq_refl Hwf).
Defined.

(** The page shows the one post that alice has pinned; she clicks its pin
    button. *)
Lemma pin_click_on_displayed_pinned_post_throws_witness :
  displayAllPosts "alice" "w" "c" [Scenario.pinnedRoot] emptyView
  = Ok tt Scenario.shownPinned
  /\ (length (heap emptyView) <= 0 < length (heap Scenario.shownPinned))%nat
  /\ Js.get (allPostMapping Scenario.shownPinned)
       (postPath (item Scenario.shownPinned 0%nat)) = None
  /\ Js.get (pinnedPostMapping Scenario.shownPinned)
       (postPath (item Scenario.shownPinned 0%nat)) = Some 0%nat
  /\ pinPinned (fst (onPinClick "alice" 0%nat Scenario.shownPinned)) = false
  /\ pinPostResolved (fst (onPinClick "alice" 0%nat Scenario.shownPinned))
       (snd (onPinClick "alice" 0%nat Scenario.shownPinned))
     = (snd (onPinClick "alice" 0%nat Scenario.shownPinned),
        Some "The post with the specified path is undefined")
  /\ disabled
       (pinButton (item (snd (onPinClick "alice" 0%nat Scenario.shownPinned))
                     0%nat)) = true.
Proof.
  assert (length (heap emptyView) <= 0 < length (heap Scenario.shownPinned))%nat
    as Hrange.
  { vm_compute. split; repeat constructor. }
  split; [reflexivity|]. split; [exact Hrange|]. split; [reflexivity|].
  split; [reflexivity|].
  exact (ClickProps.pin_click_on_displayed_pinned_post_throws "alice" "w" "c"
           [Scenario.pinnedRoot] emptyView Scenario.shownPinned 0%nat "alice"
           eq_refl Hrange eq_refl).
Defined.

(** The page holds [laterRoot] without reactions; alice clicks its like
    button twice. *)
Lemma two_clicks_restore_the_reaction_witness :
  (match Js.get (allPostMapping Scenario.afterStream)
           (postPath (item Scenario.afterStream 0%nat)) with
   | Some x => Some x
   | None => Js.get (pinnedPostMapping Scenario.afterStream)
               (postPath (item Scenario.afterStream 0%nat))
   end = Some 0%nat)
  /\ (0 < length (heap Scenario.afterStream))%nat
  /\ countText Like (item Scenario.afterStream 0%nat) = renderCount 0
  /\ Z.abs 0 <= Js.maxSafeInteger
  /\ exists st1 st2,
       reactResolved (fst (onReactionClick Like "alice" 0%nat Scenario.afterStream))
         (snd (onReactionClick Like "alice" 0%nat Scenario.afterStream))
       = (st1, None)
       /\ reactResolved (fst (onReactionClick Like "alice" 0%nat st1))
            (snd (onReactionClick Like "alice" 0%nat st1)) = (st2, None)
       /\ countText Like (item st1 0%nat)
          = renderCount
              (if marked (reactionButton Like (item Scenario.afterStream 0%nat))
               then 0 - 1 else 0 + 1)
       /\ countText Like (item st2 0%nat)
          = countText Like (item Scenario.afterStream 0%nat)
       /\ reactionButton Like (item st2 0%nat)
          = mkButton
              (marked (reactionButton Like (item Scenario.afterStream 0%nat)))
              false.
Proof.
  assert (0 < length (heap Scenario.afterStream))%nat as Hlt.
  { vm_compute. repeat constructor. }
  assert (Z.abs 0 <= Js.maxSafeInteger) as Hsafe by (vm_compute; discriminate).
  split; [reflexivity|]. split; [exact Hlt|]. split; [reflexivity|].
  split; [exact Hsafe|].
  exact (ClickProps.two_clicks_restore_the_reaction Like "alice" 0%nat 0
           Scenario.afterStream eq_refl Hlt eq_refl Hsafe).
Defined.

(** Six posts of a channel, newest first: two roots around a thread of depth
    three, and a reply whose parent is missing. *)
Lemma buildForest_roots_witness :
  NoDup (map Doc.path Cases.channelPosts)
  /\ rootPosts (buildForest Cases.channelPosts)
     = [Scenario.laterRoot; Scenario.plainRoot; Scenario.earlierRoot]
  /\ complaints (buildForest Cases.channelPosts)
     = ["parent post tree not found in map"].
Proof.
  assert (NoDup (map Doc.path Cases.channelPosts)) as Hnd.
  { cbv [Cases.channelPosts map Doc.path Scenario.laterRoot
           Scenario.replyToReply Cases.strayReply Scenario.reply
           Scenario.plainRoot Scenario.earlierRoot mkPost].
    repeat (constructor; [cbn [In]; intros H;
                          repeat (destruct H as [H | H]; [discriminate H|]);
                          exact H|]).
    constructor. }
  split; [exact Hnd|].
  exact (ForestProps.buildForest_roots Cases.channelPosts Hnd).
Defined.

(** The same channel as alice sees it on a page that was empty: nothing is
    pinned. *)
Lemma displayAllPosts_fills_the_post_area_in_order_witness :
  NoDup (map Doc.path Cases.channelPosts)
  /\ exists st' pinnedArea generalArea,
       displayAllPosts "alice" "w" "c" Cases.channelPosts emptyView = Ok tt st'
       /\ postArea st' = pinnedArea ++ generalArea
       /\ map (shownAs st') pinnedArea
          = map docKey
              (filter isTopLevel
                 (Js.sortBy (fun p => Doc.lastModifiedAt (Doc.meta p))
                    (fst (getPinnedPosts "alice" Cases.channelPosts))))
       /\ map (shownAs st') generalArea
          = map docKey
              (filter isTopLevel
                 (snd (getPinnedPosts "alice" Cases.channelPosts)))
       /\ sortedBy (fun p => Doc.lastModifiedAt (Doc.meta p))
            (filter isTopLevel
               (Js.sortBy (fun p => Doc.lastModifiedAt (Doc.meta p))
                  (fst (getPinnedPosts "alice" Cases.channelPosts))))
       /\ sortedBy (fun p => Doc.createdAt (Doc.meta p))
            (filter isTopLevel
               (snd (getPinnedPosts "alice" Cases.channelPosts)))
       /\ sortedBy (fun o => postTime (item st' o)) generalArea.
Proof.
  assert (NoDup (map Doc.path Cases.channelPosts)) as Hnd.
  { cbv [Cases.channelPosts map Doc.path Scenario.laterRoot
           Scenario.replyToReply Cases.strayReply Scenario.reply
           Scenario.plainRoot Scenario.earlierRoot mkPost].
    repeat (constructor; [cbn [In]; intros H;
                          repeat (destruct H as [H | H]; [discriminate H|]);
                          exact H|]).
    constructor. }
  split; [exact Hnd|].
  exact (RenderProps.displayAllPosts_fills_the_post_area_in_order "alice" "w"
           "c" Cases.channelPosts emptyView Hnd).
Defined.




(** The stream delivers to an empty page a post that names itself as its
    parent. *)
Lemma reply_to_itself_throws_witness :
  handledId "7" = true
  /\ Js.get (allPostMapping emptyView) (Doc.path Cases.selfReply) = None
  /\ replyParent Cases.selfReply = Some (Doc.path Cases.selfReply)
  /\ exists st',
       updatePosts "w" "c" Cases.selfReply "7" "alice" emptyView
       = Throw "HierarchyRequestError" st'
       /\ Js.get (allPostMapping st') (Doc.path Cases.selfReply)
          = Some (length (heap emptyView))
       /\ length (heap st') = S (length (heap emptyView))
       /\ postArea st' = postArea emptyView
       /\ lastEventID st' = lastEventID emptyView
       /\ consoleErrors st'
          = consoleErrors emptyView
            ++ ["This node is not a post item for replies";
                "This node is not a post item for replies";
                "This node is not a post item for replies"].
Proof.
  split; [reflexivity|]. split; [reflexivity|]. split; [reflexivity|].
  exact (ReplyProps.reply_to_itself_throws "w" "c" Cases.selfReply "7" "alice"
           emptyView eq_refl eq_refl eq_refl).
Defined.

(** The page that holds [laterRoot] with a like count of 2^53. *)
Lemma count_of_two_to_the_53_does_not_come_back_witness :
  (match Js.get (allPostMapping Cases.crowdedPage) "/R" with
   | Some x => Some x
   | None => Js.get (pinnedPostMapping Cases.crowdedPage) "/R"
   end = Some 0%nat)
  /\ emojiOfName "like" = Some Like
  /\ (0 < length (heap Cases.crowdedPage))%nat
  /\ countText Like (item Cases.crowdedPage 0%nat) = "9007199254740992"
  /\ exists st1 st2,
       updateReactions "/R" "like" false Cases.crowdedPage = Ok tt st1
       /\ updateReactions "/R" "like" true st1 = Ok tt st2
       /\ countText Like (item st1 0%nat) = "9007199254740992"
       /\ countText Like (item st2 0%nat) = "9007199254740991".
Proof.
  assert (0 < length (heap Cases.crowdedPage))%nat as Hlt.
  { vm_compute. repeat constructor. }
  split; [reflexivity|]. split; [reflexivity|]. split; [exact Hlt|].
  split; [reflexivity|].
  exact (CountLimitProps.count_of_two_to_the_53_does_not_come_back
           Cases.crowdedPage "/R" "like" 0%nat Like eq_refl eq_refl Hlt
           eq_refl).
Defined.

End PageWitness.
